(** * Expert-Listing: geo-bucket resolution, location normalisation and
      listing ingestion

    A shallow embedding of the Python services of the repository:
    - [shared/utils/location_utils.py]   ([LocationUtils])
    - [shared/utils/h3_utils.py]         ([H3Utils])
    - [database/transaction.py], [database/decorators/transactional.py],
      [database/repository.py]           ([Database])
    - [src/geo_buckets/services/geo_bucket_service.py] ([GeoBucketService])
    - [src/properties/services/property_service.py]    ([PropertyService])

    Python text is modelled on ASCII code points (the type [ascii], codes
    0..127): there [str.lower] maps A-Z to a-z, NFD normalisation is the
    identity and no character is a combining mark.  Floating point values
    (coordinates, scores) are modelled by exact rationals; the one
    division whose result can leave the range of a float, that of
    [get_h3_ring_for_radius], is a primitive of the interpreter
    ([Rings.FloatArithmetic]). *)

From Stdlib Require Import Ascii String QArith Qminmax Qround Sorting.Sorted.
From stdpp Require Import base list strings gmap.

Local Close Scope Q_scope.
Local Open Scope nat_scope.
Local Open Scope list_scope.

(* ===================================================================== *)
(** ** Character classes of Python's [str] methods and [re] module (ASCII) *)
(* ===================================================================== *)

Module Chars.

Definition code (c : ascii) : nat := nat_of_ascii c.

(** [str.isspace] / regex [\s] on ASCII: TAB, LF, VT, FF, CR, FS, GS, RS,
    US and the blank. *)
Definition is_space (c : ascii) : bool :=
  ((9 <=? code c) && (code c <=? 13)) || ((28 <=? code c) && (code c <=? 32)).

(** regex [\d] on ASCII. *)
Definition is_digit (c : ascii) : bool :=
  (48 <=? code c) && (code c <=? 57).

Definition is_upper (c : ascii) : bool :=
  (65 <=? code c) && (code c <=? 90).

Definition is_lower (c : ascii) : bool :=
  (97 <=? code c) && (code c <=? 122).

(** regex [\w] on ASCII: letters, digits and the underscore. *)
Definition is_word (c : ascii) : bool :=
  is_digit c || is_upper c || is_lower c || (code c =? 95).

(** One character of [str.lower]. *)
Definition lower_char (c : ascii) : ascii :=
  if is_upper c then ascii_of_nat (code c + 32) else c.

Definition eqc (a b : ascii) : bool := Ascii.eqb a b.

End Chars.

(* ===================================================================== *)
(** ** Python string primitives on lists of characters *)
(* ===================================================================== *)

Module Str.
Import Chars.

Abbreviation text := (list ascii).

Fixpoint drop_while (p : ascii -> bool) (s : text) : text :=
  match s with
  | [] => []
  | c :: s' => if p c then drop_while p s' else s
  end.

(** Drop the longest suffix whose characters all satisfy [p]. *)
Definition rdrop_while (p : ascii -> bool) (s : text) : text :=
  rev (drop_while p (rev s)).

(** [s.strip()] *)
Definition strip (s : text) : text := rdrop_while is_space (drop_while is_space s).

(** [s.lower()] *)
Definition lower (s : text) : text := map lower_char s.

(** [sep in s] for a one-character [sep]. *)
Definition contains_char (sep : ascii) (s : text) : bool := existsb (eqc sep) s.

(** [s.split(sep)] for a one-character [sep]: never empty, keeps empty
    fields. *)
Fixpoint split (sep : ascii) (s : text) : list text :=
  match s with
  | [] => [[]]
  | c :: s' =>
      if eqc c sep then [] :: split sep s'
      else match split sep s' with
           | p :: ps => (c :: p) :: ps
           | [] => [[c]]
           end
  end.

(** [s.split()]: the maximal runs of non-blank characters. *)
Fixpoint words_from (cur : text) (s : text) : list text :=
  match s with
  | [] => match cur with [] => [] | _ => [rev cur] end
  | c :: s' =>
      if is_space c
      then match cur with
           | [] => words_from [] s'
           | _ => rev cur :: words_from [] s'
           end
      else words_from (c :: cur) s'
  end.

Definition words (s : text) : list text := words_from [] s.

Fixpoint text_eqb (a b : text) : bool :=
  match a, b with
  | [], [] => true
  | x :: a', y :: b' => eqc x y && text_eqb a' b'
  | _, _ => false
  end.

Fixpoint is_prefix (p s : text) : bool :=
  match p, s with
  | [], _ => true
  | x :: p', y :: s' => eqc x y && is_prefix p' s'
  | _ :: _, [] => false
  end.

(** [p in s] for strings. *)
Fixpoint is_substring (p s : text) : bool :=
  is_prefix p s ||
  match s with
  | [] => false
  | _ :: s' => is_substring p s'
  end.

(** Text literals. *)
Definition t (s : string) : text := list_ascii_of_string s.

End Str.

(* ===================================================================== *)
(** ** [re.sub] for the patterns of [location_utils.py]

    A pattern delimited by [\b] on both sides whose body consumes word
    characters at both ends can only match a span that starts at the
    beginning of a maximal run of word characters and stops at the end of
    one.  Such substitutions are therefore computed on the sequence of
    maximal word runs ([Word]) and single non-word characters ([Other]). *)
(* ===================================================================== *)

Module Re.
Import Chars Str.

Inductive token : Type :=
| Word (w : text)
| Other (c : ascii).

Fixpoint tokens (s : text) : list token :=
  match s with
  | [] => []
  | c :: s' =>
      if is_word c
      then match tokens s' with
           | Word w :: ts => Word (c :: w) :: ts
           | ts => Word [c] :: ts
           end
      else Other c :: tokens s'
  end.

Definition token_text (x : token) : text :=
  match x with
  | Word w => w
  | Other c => [c]
  end.

Definition untokens (ts : list token) : text := concat (map token_text ts).

(** Literal comparison under [re.IGNORECASE] (ASCII): the pattern words
    are written in lower case. *)
Definition matches_nocase (w kw : text) : bool := text_eqb (lower w) kw.

Definition one_of (kws : list text) (w : text) : bool :=
  existsb (matches_nocase w) kws.

Definition all_digits (w : text) : bool :=
  match w with
  | [] => false
  | _ => forallb is_digit w
  end.

(** [re.sub(r'\s+', ' ', s)]: every maximal run of blanks becomes one
    space.  [in_run] tells that the previous character was a blank. *)
Fixpoint sub_spaces_from (in_run : bool) (s : text) : text :=
  match s with
  | [] => []
  | c :: s' =>
      if is_space c
      then if in_run then sub_spaces_from true s'
           else " "%char :: sub_spaces_from true s'
      else c :: sub_spaces_from false s'
  end.

Definition sub_spaces (s : text) : text := sub_spaces_from false s.

(** [re.sub] of the class of the double and the single quote by the
    empty string. *)
Definition is_quote (c : ascii) : bool := (code c =? 34) || (code c =? 39).

Fixpoint sub_quotes (s : text) : text :=
  match s with
  | [] => []
  | c :: s' => if is_quote c then sub_quotes s' else c :: sub_quotes s'
  end.

(** [re.sub(r'\b(w1|...|wn)\b', '', s, flags=re.IGNORECASE)] and
    [re.sub(r'\b\d+\b', '', s)]: delete the word runs that satisfy [p]. *)
Fixpoint delete_words (p : text -> bool) (ts : list token) : list token :=
  match ts with
  | [] => []
  | Word w :: ts' => if p w then delete_words p ts' else Word w :: delete_words p ts'
  | Other c :: ts' => Other c :: delete_words p ts'
  end.

Definition sub_words (p : text -> bool) (s : text) : text :=
  untokens (delete_words p (tokens s)).

(** [keyword\s*\d+] inside one word run: the keyword directly followed by
    one or more digits up to the end of the run. *)
Definition keyword_digits (kw w : text) : bool :=
  matches_nocase (take (length kw) w) kw && all_digits (drop (length kw) w).

Fixpoint skip_blank_tokens (ts : list token) : nat * list token :=
  match ts with
  | Other c :: ts' =>
      if is_space c
      then let '(n, r) := skip_blank_tokens ts' in (S n, r)
      else (0, ts)
  | _ => (0, ts)
  end.

(** Number of tokens, from the head of [ts], that one match of
    [\b(kw1\s*\d+|kw2\s*\d+|...)\b] starting there spans; [0] when the
    pattern does not match at the head. *)
Definition keyword_number_span (kws : list text) (ts : list token) : nat :=
  match ts with
  | Word w :: ts' =>
      if existsb (fun kw => keyword_digits kw w) kws then 1
      else if one_of kws w then
        match skip_blank_tokens ts' with
        | (n, Word d :: _) => if all_digits d then S (S n) else 0
        | _ => 0
        end
      else 0
  | _ => 0
  end.

(** Left-to-right scan of [re.sub] with the empty replacement: [skip]
    tokens of the current match remain to be dropped. *)
Fixpoint delete_spans (span : list token -> nat) (skip : nat) (ts : list token)
  : list token :=
  match ts with
  | [] => []
  | x :: ts' =>
      match skip with
      | S k => delete_spans span k ts'
      | 0 =>
          match span ts with
          | S k => delete_spans span k ts'
          | 0 => x :: delete_spans span 0 ts'
          end
      end
  end.

Definition sub_keyword_numbers (kws : list text) (s : text) : text :=
  untokens (delete_spans (keyword_number_span kws) 0 (tokens s)).

(** [re.sub(r'^[,\-\s]+|[,\-\s]+$', '', s)] *)
Definition is_edge (c : ascii) : bool :=
  (code c =? 44) || (code c =? 45) || is_space c.

Definition sub_edges (s : text) : text :=
  rdrop_while is_edge (drop_while is_edge s).

End Re.

(* ===================================================================== *)
(** ** [shared/utils/location_utils.py]: class [LocationUtils] *)
(* ===================================================================== *)

Module LocationUtils.
Import Chars Str Re.

(** The alternatives of [LOCATION_PATTERNS[0]], [LOCATION_PATTERNS[1]]
    and [LOCATION_PATTERNS[2]]. *)
Definition LOCATION_WORDS : list text :=
  map t ["area"; "estate"; "phase"; "extension"; "ext"; "street"; "st";
         "road"; "rd"; "avenue"; "ave"; "close"; "crescent"; "cres"]%string.

Definition NUMBERED_WORDS : list text := map t ["phase"; "ext"]%string.

Definition LGA_WORDS : list text := [t "lga"].

(** [SEPARATORS], in the order of the set literal.  A Python set has no
    specified iteration order, so the functions that loop over it take
    the order as an argument. *)
Definition SEPARATORS : list ascii :=
  [","; "-"; "/"; "\"; "|"; ";"]%char.

(** NFD decomposition followed by the removal of combining marks (category
    Mn): the identity on ASCII text. *)
Definition _remove_accents (s : text) : text := s.

(** [[p.strip() for p in location.split(sep) if p.strip()]] *)
Fixpoint non_blank (parts : list text) : list text :=
  match parts with
  | [] => []
  | p :: ps => match strip p with
               | [] => non_blank ps
               | q => q :: non_blank ps
               end
  end.

Fixpoint _extract_primary_location (order : list ascii) (location : text) : text :=
  match order with
  | [] => location
  | sep :: order' =>
      if contains_char sep location
      then match non_blank (split sep location) with
           | p :: _ => p
           | [] => _extract_primary_location order' location
           end
      else _extract_primary_location order' location
  end.

Definition _remove_location_patterns (location : text) : text :=
  let location := sub_words (one_of LOCATION_WORDS) location in
  let location := sub_keyword_numbers NUMBERED_WORDS location in
  let location := sub_words (one_of LGA_WORDS) location in
  let location := sub_words all_digits location in
  strip location.

Definition normalize (order : list ascii) (location : text) : text :=
  match location with
  | [] => []
  | _ =>
      let normalized := strip (lower location) in
      let normalized := _remove_accents normalized in
      let normalized := sub_spaces normalized in
      let normalized := sub_quotes normalized in
      let primary_location := _extract_primary_location order normalized in
      let primary_location := _remove_location_patterns primary_location in
      let primary_location := sub_edges primary_location in
      strip primary_location
  end.

(** Python's two-argument [max]: the second argument wins only when it is
    strictly greater. *)
Definition pymax (a b : Q) : Q := if Qlt_le_dec a b then b else a.

Definition is_empty (s : text) : bool :=
  match s with [] => true | _ => false end.

Section Similarity.
(** [SequenceMatcher(None, a, b).ratio()] of the standard library. *)
Variable ratio : text -> text -> Q.
Variable order : list ascii.

Definition similarity (loc1 loc2 : text) : Q :=
  let norm1 := normalize order loc1 in
  let norm2 := normalize order loc2 in
  if is_empty norm1 || is_empty norm2 then 0%Q
  else
    let base_similarity := ratio norm1 norm2 in
    let base_similarity :=
      if is_substring norm1 norm2 || is_substring norm2 norm1
      then pymax base_similarity (9 # 10)
      else base_similarity in
    let tokens1 : gset text := list_to_set (words norm1) in
    let tokens2 : gset text := list_to_set (words norm2) in
    if bool_decide (tokens1 ≠ ∅) && bool_decide (tokens2 ≠ ∅)
    then
      let token_overlap :=
        (inject_Z (Z.of_nat (size (tokens1 ∩ tokens2)))
         / inject_Z (Z.of_nat (Nat.min (size tokens1) (size tokens2))))%Q in
      pymax base_similarity (token_overlap * (19 # 20))%Q
    else base_similarity.

Definition are_same_location (similarity_threshold : Q) (loc1 loc2 : text) : bool :=
  if Qlt_le_dec (similarity loc1 loc2) similarity_threshold then false else true.
End Similarity.

End LocationUtils.

(* ===================================================================== *)
(** ** The similarity ratio of Python's [difflib]

    [location_utils.py] calls [SequenceMatcher(None, a, b).ratio()] of the
    Python standard library.  This is a model of that library function (no
    junk predicate, the default automatic junk heuristic), used to evaluate
    [LocationUtils.similarity] on concrete names. *)
(* ===================================================================== *)

Module Difflib.
Import Chars Str.

Fixpoint count_char (c : ascii) (b : text) : nat :=
  match b with
  | [] => 0
  | y :: b' => (if eqc c y then 1 else 0) + count_char c b'
  end.

(** Elements of [b] that the automatic junk heuristic drops from the
    index [b2j]: more than [n // 100 + 1] occurrences when [n >= 200]. *)
Definition popular (b : text) (c : ascii) : bool :=
  (200 <=? length b) && (length b / 100 + 1 <? count_char c b).

Definition block : Type := nat * nat * nat.

(** One row [newj2len] of [find_longest_match]: entry [j] is the length
    of the indexed common run that ends at [a[i] = x] and [b[j]];
    [diag] is the entry [j - 1] of the previous row. *)
Fixpoint row (pop : ascii -> bool) (x : ascii) (b : text)
         (prev : list nat) (diag : nat) : list nat :=
  match b with
  | [] => []
  | y :: b' =>
      let k := if eqc x y && negb (pop y) then S diag else 0 in
      k :: row pop x b' (tail prev) (hd 0 prev)
  end.

Fixpoint scan_row (i j : nat) (r : list nat) (best : block) : block :=
  match r with
  | [] => best
  | k :: r' =>
      let '(_, _, bestsize) := best in
      scan_row i (S j) r'
        (if bestsize <? k then (S i - k, S j - k, k) else best)
  end.

Fixpoint longest_from (pop : ascii -> bool) (i : nat) (a b : text)
         (prev : list nat) (best : block) : block :=
  match a with
  | [] => best
  | x :: a' =>
      let r := row pop x b prev 0 in
      longest_from pop (S i) a' b r (scan_row i 0 r best)
  end.

Fixpoint extend_left (fuel : nat) (a b : text) (m : block) : block :=
  match fuel, m with
  | S fuel', (S i, S j, k) =>
      match a !! i, b !! j with
      | Some x, Some y =>
          if eqc x y then extend_left fuel' a b (i, j, S k) else m
      | _, _ => m
      end
  | _, _ => m
  end.

Fixpoint extend_right (fuel : nat) (a b : text) (m : block) : block :=
  match fuel, m with
  | S fuel', (i, j, k) =>
      match a !! (i + k), b !! (j + k) with
      | Some x, Some y =>
          if eqc x y then extend_right fuel' a b (i, j, S k) else m
      | _, _ => m
      end
  | _, _ => m
  end.

(** [find_longest_match] on the slices [a] and [b]. *)
Definition find_longest_match (pop : ascii -> bool) (a b : text) : block :=
  let m := longest_from pop 0 a b [] (0, 0, 0) in
  extend_right (length a) a b (extend_left (length a) a b m).

(** Total size of [get_matching_blocks]: the longest block, then the
    blocks to its left and to its right.  Every recursive call is on a
    strictly shorter [a], so [fuel = length a] suffices. *)
Fixpoint matches (fuel : nat) (pop : ascii -> bool) (a b : text) : nat :=
  match fuel with
  | 0 => 0
  | S fuel' =>
      let '(i, j, k) := find_longest_match pop a b in
      match k with
      | 0 => 0
      | _ =>
          k
          + (if (0 <? i) && (0 <? j)
             then matches fuel' pop (take i a) (take j b) else 0)
          + (if (i + k <? length a) && (j + k <? length b)
             then matches fuel' pop (drop (i + k) a) (drop (j + k) b) else 0)
      end
  end.

Definition ratio (a b : text) : Q :=
  match (length a + length b)%nat with
  | 0%nat => 1%Q
  | S n => Z.of_nat (2 * matches (length a) (popular b) a b)%nat # Pos.of_succ_nat n
  end.

End Difflib.

(* ===================================================================== *)
(** ** Python exceptions and results *)
(* ===================================================================== *)

Module Py.

(** The [sqlalchemy.exc.SQLAlchemyError] subclasses the session raises. *)
Inductive sql_error : Type :=
| IntegrityError          (* a unique-key violation on INSERT *)
| MultipleResultsFound    (* [one_or_none] on more than one row *)
| OperationalError.       (* any other failure of the store *)

Inductive exn : Type :=
| SQLAlchemyError (e : sql_error)
| DatabaseException (message : string)   (* shared/exceptions/database.py *)
| AppException (message : string)        (* shared/exceptions/base.py *)
| RequestValidationError                 (* fastapi.exceptions *)
| ValueError (message : string)
| OtherException (message : string).     (* any other [Exception] *)

Inductive result (A : Type) : Type :=
| Ok (a : A)
| Raise (e : exn).

Arguments Ok {A} a.
Arguments Raise {A} e.

Definition is_ok {A} (r : result A) : bool :=
  match r with Ok _ => true | Raise _ => false end.

End Py.

(* ===================================================================== *)
(** ** The tables: [GeoBucket] and [Property] models

    The timestamp columns ([created_datetime], [updated_datetime]) depend
    on the clock of the store and are left out. *)
(* ===================================================================== *)

Module Models.
Import Str.

(** A PostGIS point, longitude first. *)
Record Point : Type := { lng : Q; lat : Q }.

Abbreviation Polygon := (list Point).

(** src/geo_buckets/models/geo_bucket.py *)
Record GeoBucket : Type := {
  id : Z;
  h3_index : Z;
  h3_resolution : Z;
  parent_h3 : option Z;
  canonical_name : text;
  canonical_name_normalized : text;
  center_point : option Point;
  hexagon_boundary : option Polygon;
  property_count : Z
}.

Definition set_property_count (n : Z) (b : GeoBucket) : GeoBucket :=
  {| id := id b; h3_index := h3_index b; h3_resolution := h3_resolution b;
     parent_h3 := parent_h3 b; canonical_name := canonical_name b;
     canonical_name_normalized := canonical_name_normalized b;
     center_point := center_point b; hexagon_boundary := hexagon_boundary b;
     property_count := n |}.

Definition set_id (i : Z) (b : GeoBucket) : GeoBucket :=
  {| id := i; h3_index := h3_index b; h3_resolution := h3_resolution b;
     parent_h3 := parent_h3 b; canonical_name := canonical_name b;
     canonical_name_normalized := canonical_name_normalized b;
     center_point := center_point b; hexagon_boundary := hexagon_boundary b;
     property_count := property_count b |}.

Abbreviation Attributes := (option (list (text * text))).

(** src/properties/models/property.py; the ULID key is modelled by the
    rank of its generation. *)
Record Property : Type := {
  prop_id : nat;
  title : text;
  location_name : text;
  location_name_normalized : text;
  coordinates : Point;
  h3_index_r8 : Z;
  h3_index_r9 : Z;
  attributes : Attributes;
  geo_bucket_id : option Z
}.

Record Tables : Type := {
  geo_buckets : list GeoBucket;
  properties : list Property
}.

Definition empty_tables : Tables := {| geo_buckets := []; properties := [] |}.

End Models.

(* ===================================================================== *)
(** ** The session, the ambient transaction level and the repository

    [database/transaction.py], [database/decorators/transactional.py],
    [database/repository.py].  Service code is a function from the state
    of the world to a result and a new state. *)
(* ===================================================================== *)

Module Database.
Import Str Py Models.

(** Objects added to the session that the next flush writes. *)
Inductive write : Type :=
| InsertBucket (b : GeoBucket)     (* the key is assigned by the INSERT *)
| InsertProperty (p : Property)
| UpdateBucket (b : GeoBucket).    (* a loaded object that was modified *)

Record World : Type := {
  database : Tables;          (* committed rows: what other sessions observe *)
  working : Tables;           (* rows as seen inside the open transaction *)
  pending : list write;       (* session.add(...) not yet flushed *)
  transaction_level : nat;    (* ContextVar [_transaction_level] *)
  bucket_id_seq : Z;          (* next value of the geo_buckets key sequence *)
  ulid_seq : nat;             (* rank of the next generated ULID *)
  faults : list (option sql_error);
                              (* what the store answers to the next round
                                 trips: a failure or nothing special *)
  commits : nat;              (* number of successful COMMITs *)
  rollbacks : nat             (* number of ROLLBACKs *)
}.

Definition with_working (t : Tables) (w : World) : World :=
  {| database := database w; working := t; pending := pending w;
     transaction_level := transaction_level w; bucket_id_seq := bucket_id_seq w;
     ulid_seq := ulid_seq w; faults := faults w; commits := commits w;
     rollbacks := rollbacks w |}.

Definition with_pending (p : list write) (w : World) : World :=
  {| database := database w; working := working w; pending := p;
     transaction_level := transaction_level w; bucket_id_seq := bucket_id_seq w;
     ulid_seq := ulid_seq w; faults := faults w; commits := commits w;
     rollbacks := rollbacks w |}.

Definition with_level (n : nat) (w : World) : World :=
  {| database := database w; working := working w; pending := pending w;
     transaction_level := n; bucket_id_seq := bucket_id_seq w;
     ulid_seq := ulid_seq w; faults := faults w; commits := commits w;
     rollbacks := rollbacks w |}.

Definition with_faults (f : list (option sql_error)) (w : World) : World :=
  {| database := database w; working := working w; pending := pending w;
     transaction_level := transaction_level w; bucket_id_seq := bucket_id_seq w;
     ulid_seq := ulid_seq w; faults := f; commits := commits w;
     rollbacks := rollbacks w |}.

(** *** The monad of service code *)

Definition M (A : Type) : Type := World -> result A * World.

Definition ret {A} (a : A) : M A := fun w => (Ok a, w).

Definition raise {A} (e : exn) : M A := fun w => (Raise e, w).

Definition bind {A B} (c : M A) (k : A -> M B) : M B :=
  fun w =>
    match c w with
    | (Ok a, w') => k a w'
    | (Raise e, w') => (Raise e, w')
    end.

(** [try: c except ... as e: h e] where [h] re-raises what it does not
    handle. *)
Definition try_except {A} (c : M A) (h : exn -> M A) : M A :=
  fun w =>
    match c w with
    | (Ok a, w') => (Ok a, w')
    | (Raise e, w') => h e w'
    end.

(** A pure computation that may raise. *)
Definition lift {A} (r : result A) : M A := fun w => (r, w).

Declare Scope py_scope.
Delimit Scope py_scope with py.
Notation "x <- c ;; k" := (bind c (fun x => k))
  (at level 100, c at next level, right associativity) : py_scope.
Notation "c ;;; k" := (bind c (fun _ => k))
  (at level 100, right associativity) : py_scope.
Local Open Scope py_scope.

(** *** The session *)

(** One round trip to the store: it fails when the store says so. *)
Definition round_trip : M unit :=
  fun w =>
    match faults w with
    | [] => (Ok tt, w)
    | None :: f => (Ok tt, with_faults f w)
    | Some e :: f => (Raise (SQLAlchemyError e), with_faults f w)
    end.

(** [session.exec(query)]: a SELECT reads the rows of the transaction. *)
Definition session_exec {A} (query : Tables -> A) : M A :=
  round_trip ;;; fun w => (Ok (query (working w)), w).

(** [session.add(obj)] *)
Definition session_add (obj : write) : M unit :=
  fun w => (Ok tt, with_pending (pending w ++ [obj]) w).

Definition has_h3_index (h : Z) (t : Tables) : bool :=
  existsb (fun b => (h3_index b =? h)%Z) (geo_buckets t).

Definition has_bucket_id (i : Z) (t : Tables) : bool :=
  existsb (fun b => (id b =? i)%Z) (geo_buckets t).

Definition has_prop_id (i : nat) (t : Tables) : bool :=
  existsb (fun p => prop_id p =? i) (properties t).

(** One INSERT or UPDATE statement under the constraints of the schema:
    [h3_index] is unique, keys are unique, [geo_bucket_id] references an
    existing bucket. *)
Definition apply_write (obj : write) (w : World) : result unit * World :=
  let t := working w in
  match obj with
  | InsertBucket b =>
      if has_h3_index (h3_index b) t
      then (Raise (SQLAlchemyError IntegrityError), w)
      else
        let row := set_id (bucket_id_seq w) b in
        (Ok tt,
         {| database := database w;
            working := {| geo_buckets := geo_buckets t ++ [row];
                          properties := properties t |};
            pending := pending w; transaction_level := transaction_level w;
            bucket_id_seq := (bucket_id_seq w + 1)%Z; ulid_seq := ulid_seq w;
            faults := faults w; commits := commits w; rollbacks := rollbacks w |})
  | InsertProperty p =>
      if has_prop_id (prop_id p) t
         || match geo_bucket_id p with
            | Some i => negb (has_bucket_id i t)
            | None => false
            end
      then (Raise (SQLAlchemyError IntegrityError), w)
      else
        (Ok tt,
         with_working {| geo_buckets := geo_buckets t;
                         properties := properties t ++ [p] |} w)
  | UpdateBucket b =>
      (Ok tt,
       with_working
         {| geo_buckets :=
              map (fun r => if (id r =? id b)%Z then b else r) (geo_buckets t);
            properties := properties t |} w)
  end.

Fixpoint apply_writes (objs : list write) (w : World) : result unit * World :=
  match objs with
  | [] => (Ok tt, w)
  | obj :: objs' =>
      match apply_write obj w with
      | (Ok _, w') => apply_writes objs' w'
      | (Raise e, w') => (Raise e, w')
      end
  end.

(** [session.flush()] *)
Definition session_flush : M unit :=
  round_trip ;;;
  fun w => apply_writes (pending w) (with_pending [] w).

(** [session.commit()]: flush, then make the rows of the transaction the
    committed ones. *)
Definition session_commit : M unit :=
  session_flush ;;;
  round_trip ;;;
  fun w =>
    (Ok tt,
     {| database := working w; working := working w; pending := pending w;
        transaction_level := transaction_level w; bucket_id_seq := bucket_id_seq w;
        ulid_seq := ulid_seq w; faults := faults w; commits := S (commits w);
        rollbacks := rollbacks w |}).

(** [session.rollback()] *)
Definition session_rollback : M unit :=
  fun w =>
    (Ok tt,
     {| database := database w; working := database w; pending := [];
        transaction_level := transaction_level w; bucket_id_seq := bucket_id_seq w;
        ulid_seq := ulid_seq w; faults := faults w; commits := commits w;
        rollbacks := S (rollbacks w) |}).

(** *** database/transaction.py *)

Definition in_transaction : M bool :=
  fun w => (Ok (0 <? transaction_level w), w).

(** [async with Transaction(session): body].  [__aenter__] raises the
    level; [__aexit__] rolls back or commits when outermost and restores
    the level in its [finally] clause. *)
Definition Transaction {A} (body : M A) : M A :=
  fun w =>
    let level := transaction_level w in
    let is_outermost := level =? 0 in
    match body (with_level (S level) w) with
    | (Raise e, w1) =>
        let '(_, w2) := (if is_outermost then session_rollback else ret tt) w1 in
        (Raise e, with_level level w2)
    | (Ok a, w1) =>
        match (if is_outermost then session_commit else ret tt) w1 with
        | (Ok _, w2) => (Ok a, with_level level w2)
        | (Raise e, w2) => (Raise e, with_level level w2)
        end
    end.

(** database/decorators/transactional.py: the wrapper of [@transactional]. *)
Definition transactional {A} (func : M A) : M A :=
  b <- in_transaction ;;
  if b then func else Transaction func.

End Database.

(* ===================================================================== *)
(** ** The external libraries: [h3] and the PostgreSQL functions *)
(* ===================================================================== *)

Module External.
Import Str Py Models.

(** The functions of the [h3] package that the code calls.  Cell
    identifiers are integers; the conversions between their integer and
    hexadecimal string forms are left implicit. *)
Class H3Library : Type := {
  latlng_to_cell : Q -> Q -> nat -> result Z;      (* lat, lng, resolution *)
  cell_to_latlng : Z -> result (Q * Q);            (* (lat, lng) *)
  cell_to_boundary : Z -> result (list (Q * Q));   (* (lat, lng) pairs *)
  cell_to_parent : Z -> nat -> result Z;
  grid_disk : Z -> nat -> result (list Z)
}.

(** The SQL functions evaluated by the store: [similarity] of pg_trgm and
    [ST_Area] of an envelope cast to geography (square metres). *)
Class Postgres : Type := {
  pg_similarity : text -> text -> Q;
  st_area : Q -> Q -> Q -> Q -> option Q   (* min_lng min_lat max_lng max_lat *)
}.

End External.

(* ===================================================================== *)
(** ** [shared/utils/h3_utils.py]: class [H3Utils] *)
(* ===================================================================== *)

Module H3Utils.
Import Py Models External.

Record H3Indexes : Type := { h3_r7 : Z; h3_r8 : Z; h3_r9 : Z }.

Section WithH3.
Context `{H3 : H3Library}.

Definition rbind {A B} (r : result A) (k : A -> result B) : result B :=
  match r with
  | Ok a => k a
  | Raise e => Raise e
  end.

Definition calculate_h3_indexes (lat lng : Q) : result H3Indexes :=
  let lat_val := lat in
  let lng_val := lng in
  rbind (latlng_to_cell lat_val lng_val 7) (fun r7 =>
  rbind (latlng_to_cell lat_val lng_val 8) (fun r8 =>
  rbind (latlng_to_cell lat_val lng_val 9) (fun r9 =>
  Ok {| h3_r7 := r7; h3_r8 := r8; h3_r9 := r9 |}))).

Definition create_point_geometry (lat lng : Q) : Point :=
  {| Models.lng := lng; Models.lat := lat |}.

(** Returns [(lat, lng)]. *)
Definition extract_lat_lng_from_geometry (geometry : Point) : Q * Q :=
  (Models.lat geometry, Models.lng geometry).

Definition h3_to_geometry (h3_index : Z) : result (Point * Polygon) :=
  rbind (cell_to_latlng h3_index) (fun '(lat, lng) =>
  let center_point := {| Models.lng := lng; Models.lat := lat |} in
  rbind (cell_to_boundary h3_index) (fun boundary_coords =>
  let polygon_coords :=
    map (fun '(lat, lng) => {| Models.lng := lng; Models.lat := lat |})
        boundary_coords in
  Ok (center_point, polygon_coords))).

Definition get_parent_h3 (h3_index : Z) (parent_resolution : nat) : result Z :=
  cell_to_parent h3_index parent_resolution.

Definition get_neighbor_h3s (h3_index : Z) (k : nat) : result (list Z) :=
  grid_disk h3_index k.

Definition get_lat_lng_from_h3 (h3_index : Z) : result (Q * Q) :=
  cell_to_latlng h3_index.

Definition validate_coordinates_in_bounds
           (lat lng min_lat max_lat min_lng max_lng : Q) : bool :=
  Qle_bool min_lat lat && Qle_bool lat max_lat
  && Qle_bool min_lng lng && Qle_bool lng max_lng.
End WithH3.

End H3Utils.

(* ===================================================================== *)
(** ** [database/repository.py]: class [BaseRepository] *)
(* ===================================================================== *)

Module Repository.
Import Str Py Models Database.
Local Open Scope py_scope.

(** [except SQLAlchemyError as e: raise DatabaseException(message)] *)
Definition wrap_sql {A} (message : string) (e : exn) : M A :=
  match e with
  | SQLAlchemyError _ => raise (DatabaseException message)
  | _ => raise e
  end.

(** [result.one_or_none()] *)
Definition one_or_none {R} (rows : list R) : result (option R) :=
  match rows with
  | [] => Ok None
  | [r] => Ok (Some r)
  | _ => Raise (SQLAlchemyError MultipleResultsFound)
  end.

(** [find_one_by_and_none(field=value)]: the rows of [table] that satisfy
    the equality [p]. *)
Definition find_one_by_and_none {R} (table : Tables -> list R) (p : R -> bool)
  : M (option R) :=
  try_except
    (rows <- session_exec (fun t => List.filter p (table t)) ;;
     lift (one_or_none rows))
    (wrap_sql "Failed to find record").

Definition execute_raw {A} (query : Tables -> A) : M A :=
  try_except (session_exec query) (wrap_sql "Failed to execute raw query").

(** [session.refresh(obj)]: read the row of the object again. *)
Definition session_refresh {R} (row_of : Tables -> option R) : M R :=
  round_trip ;;;
  fun w =>
    match row_of (working w) with
    | Some r => (Ok r, w)
    | None => (Raise (SQLAlchemyError OperationalError), w)
    end.

(** [save_changes(refresh_obj=obj)]: flush inside a transaction, commit
    outside of one, then refresh the object. *)
Definition save_changes {R} (refresh_obj : Tables -> option R) : M R :=
  b <- in_transaction ;;
  (if b then session_flush else session_commit) ;;;
  session_refresh refresh_obj.

Definition bucket_by_h3 (h : Z) (t : Tables) : option GeoBucket :=
  List.find (fun b => (h3_index b =? h)%Z) (geo_buckets t).

Definition bucket_by_id (i : Z) (t : Tables) : option GeoBucket :=
  List.find (fun b => (id b =? i)%Z) (geo_buckets t).

Definition property_by_id (i : nat) (t : Tables) : option Property :=
  List.find (fun p => prop_id p =? i) (properties t).

(** [GeoBucketRepository.create(schema)]; the new object is the row that
    carries its unique [h3_index]. *)
Definition create_bucket (schema : GeoBucket) : M GeoBucket :=
  try_except
    (let db_obj := schema in
     session_add (InsertBucket db_obj) ;;;
     save_changes (bucket_by_h3 (h3_index db_obj)))
    (wrap_sql "Failed to create record").

(** A fresh ULID for the key of a new [Property]. *)
Definition new_ulid : M nat :=
  fun w =>
    (Ok (ulid_seq w),
     {| database := database w; working := working w; pending := pending w;
        transaction_level := transaction_level w; bucket_id_seq := bucket_id_seq w;
        ulid_seq := S (ulid_seq w); faults := faults w; commits := commits w;
        rollbacks := rollbacks w |}).

(** [PropertyRepository.create(schema)]; [schema] gives every column but
    the key. *)
Definition create_property_row (schema : nat -> Property) : M Property :=
  try_except
    (key <- new_ulid ;;
     let db_obj := schema key in
     session_add (InsertProperty db_obj) ;;;
     save_changes (property_by_id (prop_id db_obj)))
    (wrap_sql "Failed to create record").

End Repository.

(* ===================================================================== *)
(** ** [src/geo_buckets/services/geo_bucket_service.py] *)
(* ===================================================================== *)

Module GeoBucketService.
Import Str Py Models Database External Repository.
Local Open Scope py_scope.

(** [GeoBucketRead.from_model]: the columns of the row (timestamps left
    out). *)
Abbreviation GeoBucketRead := GeoBucket.
Definition from_model (model : GeoBucket) : GeoBucketRead := model.

Record GeoBucketDistribution : Type := {
  bucket_id : Z;
  dist_h3_index : Z;
  dist_canonical_name : text;
  dist_property_count : Z;
  center_lat : Q;
  center_lng : Q
}.

Record GeoBucketResolutions : Type := {
  resolution : Z;
  bucket_count : Z;
  avg_properties_per_bucket : Q;
  max_properties_in_bucket : Z;
  min_properties_in_bucket : Z;
  res_total_properties : Z
}.

Record BoundingBox : Type := {
  min_lat : Q; max_lat : Q; min_lng : Q; max_lng : Q
}.

Record GeoBucketCoverage : Type := {
  total_area_km2 : option Q;
  bounding_box : option BoundingBox;
  unique_locations : Z;
  avg_bucket_density : Q
}.

Record GeoBucketStats : Type := {
  total_buckets : Z;
  total_properties : Z;
  top_buckets : list GeoBucketDistribution;
  empty_buckets : Z;
  coverage : GeoBucketCoverage;
  resolution_stats : list GeoBucketResolutions
}.

Definition count {A} (l : list A) : Z := Z.of_nat (length l).

Section Service.
Context `{H3 : H3Library} `{PG : Postgres}.

(** The two handlers that close every public method. *)
Definition handlers {A} (failed unexpected : string) (e : exn) : M A :=
  match e with
  | DatabaseException _ => raise (AppException failed)
  | _ => raise (AppException unexpected)
  end.

Definition find_or_create_bucket
           (h3_index_r8 : Z) (location_name normalized_name : text) (parent_h3 : Z)
  : M GeoBucketRead :=
  try_except
    (bucket <- find_one_by_and_none geo_buckets
                 (fun b => (h3_index b =? h3_index_r8)%Z) ;;
     match bucket with
     | Some bucket => ret (from_model bucket)
     | None =>
         neighbors <- lift (H3Utils.get_neighbor_h3s h3_index_r8 1) ;;
         bucket_query <-
           execute_raw (fun t =>
             List.filter
               (fun b =>
                  existsb (Z.eqb (h3_index b)) neighbors
                  && negb (Qle_bool
                             (pg_similarity (canonical_name_normalized b)
                                            normalized_name)
                             (7 # 10)))
               (geo_buckets t)) ;;
         match bucket_query with            (* [.first()] *)
         | bucket :: _ => ret (from_model bucket)
         | [] =>
             geometry <- lift (H3Utils.h3_to_geometry h3_index_r8) ;;
             let '(center_wkt, hexagon_wkt) := geometry in
             bucket <- create_bucket
               {| id := 0;   (* not set before the INSERT *)
                  h3_index := h3_index_r8;
                  h3_resolution := 8;
                  canonical_name := location_name;
                  canonical_name_normalized := normalized_name;
                  center_point := Some center_wkt;
                  hexagon_boundary := Some hexagon_wkt;
                  parent_h3 := Some parent_h3;
                  property_count := 0 |} ;;
             ret (from_model bucket)
         end
     end)
    (handlers "Failed to find or create geo bucket"
              "An unexpected error occurred while trying find the geobucket.").

Definition increment_property_count (geo_bucket_id : Z) : M unit :=
  try_except
    (geo_bucket <- find_one_by_and_none geo_buckets
                     (fun b => (id b =? geo_bucket_id)%Z) ;;
     match geo_bucket with
     | None =>
         raise (AppException "GeoBucket not found for incrementing property count.")
     | Some geo_bucket =>
         let geo_bucket :=
           set_property_count (property_count geo_bucket + 1) geo_bucket in
         session_add (UpdateBucket geo_bucket) ;;;
         save_changes (bucket_by_id (id geo_bucket)) ;;;
         ret tt
     end)
    (handlers "Failed to increment property count"
              "An unexpected error occurred while incrementing the property count.").

(** *** Statistics *)

Definition _get_total_properties : M Z :=
  session_exec (fun t => count (properties t)).

Definition _get_basic_stats : M (Z * Z) :=
  total_buckets <- execute_raw (fun t => count (geo_buckets t)) ;;
  empty_buckets <-
    execute_raw (fun t =>
      count (List.filter (fun b => (property_count b =? 0)%Z) (geo_buckets t))) ;;
  ret (total_buckets, empty_buckets).

(** ORDER BY property_count DESC: a stable insertion sort. *)
Fixpoint insert_desc (b : GeoBucket) (l : list GeoBucket) : list GeoBucket :=
  match l with
  | [] => [b]
  | x :: l' =>
      if (property_count x <? property_count b)%Z
      then b :: l else x :: insert_desc b l'
  end.

Definition order_by_count_desc (l : list GeoBucket) : list GeoBucket :=
  fold_right insert_desc [] l.

(** [h3.cell_to_latlng(bucket.h3_index)]: the integer column is handed
    to the package as it is, without [h3.int_to_str].  The function of
    the package takes the string form of a cell and raises [TypeError]
    on an [int]. *)
Definition cell_to_latlng_of_int (h3_index : Z) : result (Q * Q) :=
  Raise (OtherException "TypeError").

Fixpoint distributions (buckets : list GeoBucket)
  : result (list GeoBucketDistribution) :=
  match buckets with
  | [] => Ok []
  | bucket :: buckets' =>
      H3Utils.rbind
        (match center_point bucket with
         | Some p => Ok (H3Utils.extract_lat_lng_from_geometry p)
         | None => cell_to_latlng_of_int (h3_index bucket)
         end)
        (fun '(lat, lng) =>
           H3Utils.rbind (distributions buckets') (fun rest =>
           Ok ({| bucket_id := id bucket;
                  dist_h3_index := h3_index bucket;
                  dist_canonical_name := canonical_name bucket;
                  dist_property_count := property_count bucket;
                  center_lat := lat;
                  center_lng := lng |} :: rest)))
  end.

Definition _get_top_buckets (limit : nat) : M (list GeoBucketDistribution) :=
  buckets <-
    execute_raw (fun t =>
      take limit
        (order_by_count_desc
           (List.filter (fun b => (0 <? property_count b)%Z) (geo_buckets t)))) ;;
  lift (distributions buckets).

Definition qmin (a b : Q) : Q := if Qle_bool a b then a else b.
Definition qmax (a b : Q) : Q := if Qle_bool a b then b else a.

(** The centre points that are not NULL. *)
Definition center_points (t : Tables) : list Point :=
  omap center_point (geo_buckets t).

(** The row of ST_XMin / ST_XMax / ST_YMin / ST_YMax over
    ST_Extent(center_point): four NULLs without any point. *)
Record bbox_row : Type := {
  row_min_lng : option Q; row_max_lng : option Q;
  row_min_lat : option Q; row_max_lat : option Q
}.

Definition st_extent (pts : list Point) : bbox_row :=
  match pts with
  | [] => {| row_min_lng := None; row_max_lng := None;
             row_min_lat := None; row_max_lat := None |}
  | p :: ps =>
      {| row_min_lng := Some (fold_left qmin (map lng ps) (lng p));
         row_max_lng := Some (fold_left qmax (map lng ps) (lng p));
         row_min_lat := Some (fold_left qmin (map lat ps) (lat p));
         row_max_lat := Some (fold_left qmax (map lat ps) (lat p)) |}
  end.

(** Truth value of a column in a condition: [None] and [0.0] are
    false. *)
Definition truthy (x : option Q) : bool :=
  match x with
  | Some q => negb (Qeq_bool q 0)
  | None => false
  end.

Definition _calculate_bbox_area (min_lat max_lat min_lng max_lng : Q) : M Q :=
  area <- session_exec (fun _ => st_area min_lng min_lat max_lng max_lat) ;;
  match area with
  | Some area => ret (area / 1000000)%Q
  | None => ret 0%Q
  end.

Fixpoint distinct (l : list text) : list text :=
  match l with
  | [] => []
  | x :: l' => if existsb (text_eqb x) l' then distinct l' else x :: distinct l'
  end.

Definition _get_coverage_stats (total_properties : Z) : M GeoBucketCoverage :=
  bbox <- execute_raw (fun t => st_extent (center_points t)) ;;
  box_and_area <-
    match row_min_lat bbox, row_max_lat bbox, row_min_lng bbox, row_max_lng bbox with
    | Some mnlat, Some mxlat, Some mnlng, Some mxlng =>
        if truthy (row_min_lat bbox) && truthy (row_max_lat bbox)
           && truthy (row_min_lng bbox) && truthy (row_max_lng bbox)
        then
          area <- _calculate_bbox_area mnlat mxlat mnlng mxlng ;;
          ret (Some {| min_lat := mnlat; max_lat := mxlat;
                       min_lng := mnlng; max_lng := mxlng |}, Some area)
        else ret (None, None)
    | _, _, _, _ => ret (None, None)
    end ;;
  let '(bounding_box, total_area_km2) := box_and_area in
  unique_locations <-
    execute_raw (fun t =>
      count (distinct (map canonical_name_normalized (geo_buckets t)))) ;;
  let avg_density :=
    match total_area_km2 with
    | Some area =>
        if negb (Qeq_bool area 0) && negb (Qle_bool area 0)
        then (inject_Z total_properties / area)%Q
        else 0%Q
    | None => 0%Q
    end in
  ret {| total_area_km2 := total_area_km2;
         bounding_box := bounding_box;
         unique_locations := unique_locations;
         avg_bucket_density := avg_density |}.

Fixpoint insert_asc (z : Z) (l : list Z) : list Z :=
  match l with
  | [] => [z]
  | x :: l' =>
      if (z =? x)%Z then l
      else if (z <? x)%Z then z :: l else x :: insert_asc z l'
  end.

Definition resolution_group (t : Tables) (r : Z) : GeoBucketResolutions :=
  let counts :=
    map property_count
        (List.filter (fun b => (h3_resolution b =? r)%Z) (geo_buckets t)) in
  let total := fold_right Z.add 0%Z counts in
  {| resolution := r;
     bucket_count := count counts;
     avg_properties_per_bucket := (inject_Z total / inject_Z (count counts))%Q;
     max_properties_in_bucket := fold_right Z.max (hd 0%Z counts) counts;
     min_properties_in_bucket := fold_right Z.min (hd 0%Z counts) counts;
     res_total_properties := total |}.

(** GROUP BY h3_resolution ORDER BY h3_resolution *)
Definition _get_resolution_stats : M (list GeoBucketResolutions) :=
  execute_raw (fun t =>
    map (resolution_group t)
        (fold_right insert_asc [] (map h3_resolution (geo_buckets t)))).

Definition get_stats : M GeoBucketStats :=
  try_except
    (total_properties <- _get_total_properties ;;
     basic_stats <- _get_basic_stats ;;
     top_buckets <- _get_top_buckets 10 ;;
     coverage <- _get_coverage_stats total_properties ;;
     resolution_stats <- _get_resolution_stats ;;
     ret {| total_buckets := fst basic_stats;
            total_properties := total_properties;
            top_buckets := top_buckets;
            empty_buckets := snd basic_stats;
            coverage := coverage;
            resolution_stats := resolution_stats |})
    (handlers "Failed to retrieve geo bucket stats"
              "An unexpected error occurred while retrieving geo bucket statistics.").

End Service.

End GeoBucketService.

(* ===================================================================== *)
(** ** [src/properties/schemas/property.py] *)
(* ===================================================================== *)

Module Request.
Import Str Py Models.

Record PropertyCreateRequest : Type := {
  title : text;
  location_name : text;
  lat : Q;
  lng : Q;
  attributes : Attributes
}.

(** The bounds of the [Latitude] and [Longitude] field types. *)
Definition valid_latitude (lat : Q) : bool :=
  Qle_bool (-90) lat && Qle_bool lat 90.

Definition valid_longitude (lng : Q) : bool :=
  Qle_bool (-180) lng && Qle_bool lng 180.

(** Validation of the coordinate fields of a request body (the string
    constraints of the other fields are not modelled). *)
Definition validate (body : PropertyCreateRequest) : result PropertyCreateRequest :=
  if valid_latitude (lat body) && valid_longitude (lng body)
  then Ok body
  else Raise RequestValidationError.

End Request.

Module Read.
Import Str Py Models External.

Record PropertyRead : Type := {
  id : nat;
  title : text;
  location_name : text;
  latitude : Q;
  longitude : Q;
  attributes : Attributes
}.

Section WithH3.
Context `{H3 : H3Library}.

Definition build (model : Property) (lat lng : Q) : result PropertyRead :=
  if Request.valid_latitude lat && Request.valid_longitude lng
  then Ok {| id := prop_id model;
             title := Models.title model;
             location_name := Models.location_name model;
             latitude := lat;
             longitude := lng;
             attributes := Models.attributes model |}
  else Raise (OtherException "ValidationError").

(** [PropertyRead.from_values(model, h3)] *)
Definition from_values (model : Property) : result PropertyRead :=
  let '(lat, lng) := H3Utils.extract_lat_lng_from_geometry (coordinates model) in
  if Request.valid_latitude lat && Request.valid_longitude lng
  then build model lat lng
  else
    let h3_index :=
      if (h3_index_r9 model =? 0)%Z then h3_index_r8 model else h3_index_r9 model in
    match H3Utils.get_lat_lng_from_h3 h3_index with
    | Ok (lat, lng) => build model lat lng
    | Raise _ =>
        Raise (ValueError "Failed to determine valid latitude/longitude for property")
    end.
End WithH3.

End Read.

(* ===================================================================== *)
(** ** [src/properties/services/property_service.py] *)
(* ===================================================================== *)

Module PropertyService.
Import Str Py Models Database External Repository.
Local Open Scope py_scope.

Section Service.
Context `{H3 : H3Library} `{PG : Postgres}.
(** Iteration order of [LocationUtils.SEPARATORS]. *)
Variable order : list ascii.

Definition handlers {A} (e : exn) : M A :=
  match e with
  | DatabaseException _ => raise (AppException "Failed to create property listing.")
  | AppException _ | RequestValidationError => raise e
  | _ =>
      raise (AppException
               "An unexpected error occurred while creating the property listing.")
  end.

(** The statements shared by both creation methods, from the indexing
    of the coordinates on. *)
Definition ingest (payload : Request.PropertyCreateRequest) : M Read.PropertyRead :=
  h3_indexes <-
    lift (H3Utils.calculate_h3_indexes (Request.lat payload) (Request.lng payload)) ;;
  let normalized_name :=
    LocationUtils.normalize order (Request.location_name payload) in
  let point_wkt :=
    H3Utils.create_point_geometry (Request.lat payload) (Request.lng payload) in
  bucket <-
    GeoBucketService.find_or_create_bucket
      (H3Utils.h3_r8 h3_indexes) (Request.location_name payload)
      normalized_name (H3Utils.h3_r7 h3_indexes) ;;
  property <-
    create_property_row (fun key =>
      {| prop_id := key;
         title := Request.title payload;
         location_name := Request.location_name payload;
         location_name_normalized := normalized_name;
         coordinates := point_wkt;
         h3_index_r8 := H3Utils.h3_r8 h3_indexes;
         h3_index_r9 := H3Utils.h3_r9 h3_indexes;
         geo_bucket_id := Some (Models.id bucket);
         attributes := Request.attributes payload |}) ;;
  GeoBucketService.increment_property_count (Models.id bucket) ;;;
  lift (Read.from_values property).

Definition create_property (payload : Request.PropertyCreateRequest)
  : M Read.PropertyRead :=
  transactional (try_except (ingest payload) handlers).

Definition create_property_if_not_exists (payload : Request.PropertyCreateRequest)
  : M Read.PropertyRead :=
  transactional
    (try_except
       (existing_property <-
          find_one_by_and_none properties
            (fun p => text_eqb (title p) (Request.title payload)) ;;
        match existing_property with
        | Some existing_property => lift (Read.from_values existing_property)
        | None => ingest payload
        end)
       handlers).

End Service.

End PropertyService.

(* ===================================================================== *)
(** ** Stand-ins for the external libraries, to evaluate the services on
       concrete inputs *)
(* ===================================================================== *)

Module StandIn.
Import Str Py Models External.

(** A grid of one-degree squares: like the [h3] binding, it indexes every
    finite coordinate pair and has no range check of its own. *)
Definition h3 : H3Library := {|
  latlng_to_cell lat lng res :=
    Ok (Z.of_nat res * 1000000 + (Qfloor lat + 500) * 1000 + (Qfloor lng + 500))%Z;
  cell_to_latlng c := Ok (inject_Z ((c / 1000) mod 1000 - 500), inject_Z (c mod 1000 - 500));
  cell_to_boundary c := Ok [];
  cell_to_parent c res := Ok (Z.of_nat res * 1000000 + c mod 1000000)%Z;
  grid_disk c k := Ok [c; (c - 1)%Z; (c + 1)%Z; (c - 1000)%Z; (c + 1000)%Z]
|}.

(** Equal names are similar, different names are not. *)
Definition pg : Postgres := {|
  pg_similarity a b := if text_eqb a b then 1%Q else 0%Q;
  st_area min_lng min_lat max_lng max_lat :=
    Some ((max_lng - min_lng) * (max_lat - min_lat) * 12321000000)%Q
|}.

Definition fresh_world (faults : list (option sql_error)) (t : Tables)
  : Database.World :=
  {| Database.database := t; Database.working := t; Database.pending := [];
     Database.transaction_level := 0; Database.bucket_id_seq := 1;
     Database.ulid_seq := 0; Database.faults := faults;
     Database.commits := 0; Database.rollbacks := 0 |}.

End StandIn.

(* ===================================================================== *)
(** ** Concurrent callers of [increment_property_count]

    Every caller has a session of its own.  An invocation touches the
    committed row twice: it loads the bucket (the SELECT of
    [find_one_by_and_none]), then writes back the count of the loaded
    object plus one (the UPDATE of [save_changes]).  A schedule lists the
    callers in the order in which they take their next step. *)
(* ===================================================================== *)

Module Concurrent.
Import Models Repository.

Inductive caller : Type :=
| NotStarted
| Loaded (geo_bucket : GeoBucket)
| Finished
| NotFound.

Record State : Type := {
  rows : list GeoBucket;       (* the committed geo_buckets table *)
  callers : list caller
}.

Definition update_row (b : GeoBucket) (rows : list GeoBucket) : list GeoBucket :=
  map (fun r => if (id r =? id b)%Z then b else r) rows.

Definition find_row (i : Z) (rows : list GeoBucket) : option GeoBucket :=
  List.find (fun b => (id b =? i)%Z) rows.

(** Caller [i] takes its next step on bucket [geo_bucket_id]. *)
Definition step (geo_bucket_id : Z) (s : State) (i : nat) : State :=
  match callers s !! i with
  | Some NotStarted =>
      match find_row geo_bucket_id (rows s) with
      | Some geo_bucket =>
          {| rows := rows s; callers := <[i := Loaded geo_bucket]> (callers s) |}
      | None =>
          {| rows := rows s; callers := <[i := NotFound]> (callers s) |}
      end
  | Some (Loaded geo_bucket) =>
      {| rows :=
           update_row
             (set_property_count (property_count geo_bucket + 1) geo_bucket)
             (rows s);
         callers := <[i := Finished]> (callers s) |}
  | _ => s
  end.

Definition run (geo_bucket_id : Z) (schedule : list nat) (s : State) : State :=
  fold_left (step geo_bucket_id) schedule s.

Definition start (rows : list GeoBucket) (n : nat) : State :=
  {| rows := rows; callers := replicate n NotStarted |}.

Definition is_finished (c : caller) : bool :=
  match c with Finished => true | _ => false end.

Definition all_finished (s : State) : bool := forallb is_finished (callers s).

(** [property_count] of the bucket, when it exists. *)
Definition count_of (i : Z) (rows : list GeoBucket) : option Z :=
  property_count <$> find_row i rows.

(** The callers run one after the other: 0, 0, 1, 1, ... *)
Fixpoint sequential_from (i n : nat) : list nat :=
  match n with
  | 0 => []
  | S n' => i :: i :: sequential_from (S i) n'
  end.

Definition sequential (n : nat) : list nat := sequential_from 0 n.

End Concurrent.

(* ===================================================================== *)
(** ** Vocabulary of the statements: views of the state, relations between
       states and the concrete stores of the examples *)
(* ===================================================================== *)

Module Views.
Import Chars Str Re LocationUtils Py Models Database External Repository.
Import GeoBucketService.

(** *** Text *)

(** Every character of [out] occurs in [inp]. *)
Definition within (out inp : text) : Prop := forall c, In c out -> In c inp.

(** The first character does not satisfy [p]. *)
Definition head_not (p : ascii -> bool) (s : text) : Prop :=
  match s with
  | [] => True
  | c :: _ => p c = false
  end.

(** The last character does not satisfy [p]. *)
Definition last_not (p : ascii -> bool) (s : text) : Prop := head_not p (rev s).

(** Two consecutive blanks. *)
Fixpoint adjacent_spaces (s : text) : bool :=
  match s with
  | c :: (d :: _) as s' => (is_space c && is_space d) || adjacent_spaces s'
  | _ => false
  end.

(** No upper-case letter, no quote, and no blank but the space. *)
Definition plain (c : ascii) : Prop :=
  is_upper c = false /\ is_quote c = false
  /\ (is_space c = true -> c = " "%char).

Definition starts_with_word (ts : list token) : bool :=
  match ts with
  | Word _ :: _ => true
  | _ => false
  end.

(** Token lists that [tokens] produces: runs are not empty, hold word
    characters only and never touch; the other tokens are non-word
    characters. *)
Fixpoint well_formed (ts : list token) : Prop :=
  match ts with
  | [] => True
  | Word w :: ts' =>
      w <> [] /\ forallb is_word w = true
      /\ starts_with_word ts' = false /\ well_formed ts'
  | Other c :: ts' => is_word c = false /\ well_formed ts'
  end.

(** A run that is a keyword directly followed by digits. *)
Definition numbered (kws : list text) (w : text) : bool :=
  existsb (fun kw => keyword_digits kw w) kws.

(** No run is one the patterns delete. *)
Definition settled (ts : list token) : Prop :=
  forall w, In (Word w) ts ->
            one_of LOCATION_WORDS w = false
            /\ numbered NUMBERED_WORDS w = false
            /\ one_of LGA_WORDS w = false
            /\ all_digits w = false.

(** The runs that survive the four substitutions of
    [_remove_location_patterns]. *)
Definition surviving (ts : list token) : list token :=
  delete_words all_digits
    (delete_words (one_of LGA_WORDS)
       (delete_words (numbered NUMBERED_WORDS)
          (delete_words (one_of LOCATION_WORDS) ts))).

(** The name [normalize] holds before its final trimming. *)
Definition primary (order : list ascii) (location : text) : text :=
  _remove_location_patterns
    (_extract_primary_location order
       (sub_quotes (sub_spaces (_remove_accents (strip (lower location)))))).

(** *** The store *)

(** The columns a flush never touches. *)
Definition same_frame (w w' : World) : Prop :=
  database w' = database w /\ transaction_level w' = transaction_level w
  /\ faults w' = faults w /\ commits w' = commits w
  /\ rollbacks w' = rollbacks w.

(** The effect of a successful COMMIT. *)
Definition commit_world (w : World) : World :=
  {| database := working w; working := working w; pending := pending w;
     transaction_level := transaction_level w; bucket_id_seq := bucket_id_seq w;
     ulid_seq := ulid_seq w; faults := faults w; commits := S (commits w);
     rollbacks := rollbacks w |}.

(** The world after [save_changes] wrote [w1]. *)
Definition saved (level : nat) (w1 : World) : World :=
  if 0 <? level then w1 else commit_world w1.

(** What no statement inside a transaction changes: the committed rows,
    the commit and rollback counts and the transaction level. *)
Definition frame (w w' : World) : Prop :=
  database w' = database w /\ commits w' = commits w
  /\ rollbacks w' = rollbacks w
  /\ transaction_level w' = transaction_level w.

(** Only the pending answers of the store were consumed. *)
Definition only_faults (w w' : World) : Prop :=
  frame w w' /\ working w' = working w /\ pending w' = pending w
  /\ bucket_id_seq w' = bucket_id_seq w /\ ulid_seq w' = ulid_seq w.

(** Handlers that translate an exception into another one. *)
Definition translates {A} (h : exn -> M A) : Prop :=
  forall e w, exists e', h e w = (Raise e', w).

(** The rows the exact lookup of [find_or_create_bucket] selects. *)
Definition exact_rows (h : Z) (w : World) : list GeoBucket :=
  List.filter (fun b => (h3_index b =? h)%Z) (geo_buckets (working w)).

(** The rows the neighbour query of [find_or_create_bucket] selects. *)
Definition fuzzy_rows `{PG : Postgres}
           (neighbors : list Z) (normalized_name : text) (w : World)
  : list GeoBucket :=
  List.filter
    (fun b =>
       existsb (Z.eqb (h3_index b)) neighbors
       && negb (Qle_bool (pg_similarity (canonical_name_normalized b) normalized_name)
                         (7 # 10)))
    (geo_buckets (working w)).

(** The row a miss of [find_or_create_bucket] creates. *)
Definition new_bucket (w : World) (h : Z) (name norm : text) (parent : Z)
           (geometry : Point * Polygon) : GeoBucket :=
  {| id := bucket_id_seq w; h3_index := h; h3_resolution := 8;
     parent_h3 := Some parent; canonical_name := name;
     canonical_name_normalized := norm;
     center_point := Some (fst geometry);
     hexagon_boundary := Some (snd geometry);
     property_count := 0 |}.

(** The rows the lookup of [increment_property_count] selects. *)
Definition id_rows (i : Z) (w : World) : list GeoBucket :=
  List.filter (fun b => (id b =? i)%Z) (geo_buckets (working w)).

(** The table after one increment of bucket [i]. *)
Definition incremented (i : Z) (rows : list GeoBucket) : list GeoBucket :=
  map (fun r => if (id r =? i)%Z
                then set_property_count (property_count r + 1) r else r) rows.

(** The bounding box of the coverage report, as [_get_coverage_stats]
    computes it from the row of extents. *)
Definition box_of (r : bbox_row) : option BoundingBox :=
  match row_min_lat r, row_max_lat r, row_min_lng r, row_max_lng r with
  | Some mnlat, Some mxlat, Some mnlng, Some mxlng =>
      if truthy (row_min_lat r) && truthy (row_max_lat r)
         && truthy (row_min_lng r) && truthy (row_max_lng r)
      then Some {| min_lat := mnlat; max_lat := mxlat;
                   min_lng := mnlng; max_lng := mxlng |}
      else None
  | _, _, _, _ => None
  end.

(** Every listing references a stored bucket: the state the services
    maintain, since a listing is stored with the bucket resolved for it
    and no service deletes a bucket. *)
Definition attached (t : Tables) : Prop :=
  forall p, In p (properties t) ->
    exists b, In b (geo_buckets t) /\ geo_bucket_id p = Some (id b).

(** [property_count] of bucket [i] in the tables, zero without it. *)
Definition count_before (i : Z) (t : Tables) : Z :=
  match bucket_by_id i t with
  | Some b => property_count b
  | None => 0%Z
  end.

(** The listing a successful ingestion stored, with its bucket. *)
Definition stored_with_counted_bucket
           (payload : Request.PropertyCreateRequest) (read : Read.PropertyRead)
           (before after : Tables) : Prop :=
  exists p b,
    properties after = properties before ++ [p]
    /\ prop_id p = Read.id read
    /\ title p = Request.title payload
    /\ geo_bucket_id p = Some (id b)
    /\ In b (geo_buckets after)
    /\ property_count b = (count_before (id b) before + 1)%Z.

(** The listings the title lookup of [create_property_if_not_exists]
    selects. *)
Definition title_rows (payload : Request.PropertyCreateRequest) (w : World)
  : list Property :=
  List.filter (fun p => text_eqb (title p) (Request.title payload))
              (properties (working w)).

(** The body of [create_property_if_not_exists] under its decorator. *)
Definition if_not_exists_body `{H3 : H3Library} `{PG : Postgres}
           (order : list ascii) (payload : Request.PropertyCreateRequest)
  : M Read.PropertyRead :=
  try_except
    (bind (find_one_by_and_none properties
             (fun p => text_eqb (title p) (Request.title payload)))
          (fun existing_property =>
             match existing_property with
             | Some existing_property => lift (Read.from_values existing_property)
             | None => PropertyService.ingest order payload
             end))
    PropertyService.handlers.

(** *** Concurrent callers *)

(** Number of callers that have written. *)
Fixpoint finished (cs : list Concurrent.caller) : nat :=
  match cs with
  | [] => 0
  | c :: cs' => (if Concurrent.is_finished c then 1 else 0) + finished cs'
  end.

(** What holds in every reachable state of the callers of bucket [i]
    whose count was [c0] at the start: the stored count and every loaded
    copy lie between [c0] and [c0] plus the number of writes so far, and
    the stored count is above [c0] once a write has happened. *)
Definition invariant (i c0 : Z) (s : Concurrent.State) : Prop :=
  (exists k, Concurrent.count_of i (Concurrent.rows s) = Some k
             /\ (c0 <= k <= c0 + Z.of_nat (finished (Concurrent.callers s)))%Z
             /\ (1 <= finished (Concurrent.callers s) -> (c0 + 1 <= k)%Z))
  /\ (forall j b, Concurrent.callers s !! j = Some (Concurrent.Loaded b) ->
                  id b = i
                  /\ (c0 <= property_count b
                      <= c0 + Z.of_nat (finished (Concurrent.callers s)))%Z)
  /\ (forall j, Concurrent.callers s !! j <> Some Concurrent.NotFound).

(** *** Stores of the examples *)

Definition lagos : GeoBucket :=
  {| id := 1; h3_index := 8506503; h3_resolution := 8;
     parent_h3 := Some 7506503%Z; canonical_name := t "Lagos";
     canonical_name_normalized := t "lagos";
     center_point := Some {| lng := 3; lat := 6 |};
     hexagon_boundary := Some []; property_count := 5 |}.

Definition ikeja : GeoBucket :=
  {| id := 2; h3_index := 8506504; h3_resolution := 8;
     parent_h3 := Some 7506504%Z; canonical_name := t "Ikeja";
     canonical_name_normalized := t "ikeja";
     center_point := Some {| lng := 4; lat := 6 |};
     hexagon_boundary := Some []; property_count := 0 |}.

(** A bucket whose centre lies on the Greenwich meridian. *)
Definition meridian_bucket : GeoBucket :=
  {| id := 1; h3_index := 8505500; h3_resolution := 8;
     parent_h3 := Some 7505500%Z; canonical_name := t "Tema";
     canonical_name_normalized := t "tema";
     center_point := Some {| lng := 0; lat := 5 |};
     hexagon_boundary := Some []; property_count := 0 |}.

Definition meridian_world : World :=
  StandIn.fresh_world []
    {| geo_buckets := [meridian_bucket]; properties := [] |}.

Definition listing (key : nat) (name : string) : Property :=
  {| prop_id := key; title := t name; location_name := t "Lagos";
     location_name_normalized := t "lagos";
     coordinates := {| lng := 17 # 5; lat := 13 # 2 |};
     h3_index_r8 := 8506503; h3_index_r9 := 9506503;
     attributes := None; geo_bucket_id := Some 1%Z |}.

Definition request (name : string) : Request.PropertyCreateRequest :=
  {| Request.title := t name; Request.location_name := t "Lagos";
     Request.lat := 13 # 2; Request.lng := 17 # 5;
     Request.attributes := None |}.

(** A store in which the INSERT of a new bucket meets the unique-key
    conflict: a concurrent resolution of the same cell committed first. *)
Definition conflicting_store : World :=
  StandIn.fresh_world [None; None; Some IntegrityError]
    {| geo_buckets := [ikeja]; properties := [] |}.

Definition two_buckets : World :=
  StandIn.fresh_world [] {| geo_buckets := [lagos; ikeja]; properties := [] |}.

(** A store that fails on its fourth round trip, the lookup of the
    counter update, after the listing has been flushed. *)
Definition failing_store : World :=
  StandIn.fresh_world [None; None; None; Some OperationalError]
    {| geo_buckets := [lagos]; properties := [] |}.

(** Two listings with one title, as two calls of [create_property] with
    the same title store them. *)
Definition twice_listed : World :=
  StandIn.fresh_world []
    {| geo_buckets := [lagos];
       properties := [listing 0 "3 Bedroom Flat"; listing 1 "3 Bedroom Flat"] |}.

Definition once_listed : World :=
  StandIn.fresh_world []
    {| geo_buckets := [lagos]; properties := [listing 0 "3 Bedroom Flat"] |}.

End Views.

(* ===================================================================== *)
(** ** [LocationUtils.get_canonical_form] *)
(* ===================================================================== *)

Module Canonical.
Import Chars Str Py LocationUtils.

(** [Counter(iterable)]: the distinct elements in the order of their
    first occurrence, each with the number of its occurrences. *)
Fixpoint counter_add (x : text) (c : list (text * nat)) : list (text * nat) :=
  match c with
  | [] => [(x, 1)]
  | (y, n) :: c' =>
      if text_eqb x y then (y, S n) :: c' else (y, n) :: counter_add x c'
  end.

Definition Counter (l : list text) : list (text * nat) :=
  fold_left (fun c x => counter_add x c) l [].

(** [max(iterable, key=key)] from a first element on: a later element
    replaces the best one only when its key is strictly greater. *)
Fixpoint max_from {A} (key : A -> nat) (best : A) (l : list A) : A :=
  match l with
  | [] => best
  | x :: l' => max_from key (if key best <? key x then x else best) l'
  end.

(** [counter.most_common(1)]: [heapq.nlargest(1, items, key=count)],
    that is [max] over the items, or the empty list. *)
Definition most_common_1 (c : list (text * nat)) : list (text * nat) :=
  match c with
  | [] => []
  | x :: c' => [max_from snd x c']
  end.

Definition get_canonical_form (order : list ascii) (locations : list text)
  : result (text * list text) :=
  match locations with
  | [] => Ok ([], [])
  | first :: _ =>
      let normalized := map (fun loc => (loc, normalize order loc)) locations in
      let norm_counts := Counter (map snd normalized) in
      match most_common_1 norm_counts with
      | [] => Raise (OtherException "IndexError")     (* [...][0] *)
      | (canonical_normalized, _) :: _ =>
          let canonical_originals :=
            map fst
                (List.filter (fun item => text_eqb (snd item) canonical_normalized)
                             normalized) in
          let canonical_form :=
            match canonical_originals with
            | [] => first
            | x :: l => max_from (@length ascii) x l
            end in
          Ok (canonical_form, locations)
      end
  end.

End Canonical.

(* ===================================================================== *)
(** ** [H3Utils.get_h3_ring_for_radius] and [shared/constants/property.py] *)
(* ===================================================================== *)

Module Rings.
Import Py.

(** Edge length in kilometres by resolution. *)
Definition PROPERTY_EDGE_SPECS : list (Z * Q) :=
  [(7%Z, (122 # 100)%Q); (8%Z, (461 # 1000)%Q); (9%Z, (174 # 1000)%Q);
   (10%Z, (65 # 1000)%Q)].

(** [d.get(key)] *)
Fixpoint dict_get (key : Z) (d : list (Z * Q)) : option Q :=
  match d with
  | [] => None
  | (k, v) :: d' => if (k =? key)%Z then Some v else dict_get key d'
  end.

(** [d[key]] *)
Definition subscript (d : list (Z * Q)) (key : Z) : result Q :=
  match dict_get key d with
  | Some v => Ok v
  | None => Raise (OtherException "KeyError")
  end.

(** A Python float that is not a NaN: a rational number or an
    infinity. *)
Inductive float : Type :=
| Finite (q : Q)
| Infinity (negative : bool).

(** The arithmetic of the interpreter.  [truediv x y] is [x / y] for two
    finite floats with [y] not zero: the quotient rounded to a float, an
    infinity when it is out of range. *)
Class FloatArithmetic : Type := {
  truediv : Q -> Q -> float
}.

(** [int(x)] of a float: truncation towards zero, [OverflowError] on an
    infinity. *)
Definition int_of_float (x : float) : result Z :=
  match x with
  | Finite q => Ok (Z.quot (Qnum q) (Zpos (Qden q)))
  | Infinity _ => Raise (OtherException "OverflowError")
  end.

Section WithFloats.
Context `{FA : FloatArithmetic}.

Definition get_h3_ring_for_radius (radius_km : Q) (resolution : Z) : result Z :=
  match subscript PROPERTY_EDGE_SPECS 8 with
  | Raise e => Raise e
  | Ok default =>
      let edge_length_km :=
        match dict_get resolution PROPERTY_EDGE_SPECS with
        | Some v => v
        | None => default
        end in
      match int_of_float (truediv radius_km (edge_length_km * 2)%Q) with
      | Raise e => Raise e
      | Ok i =>
          let k := Z.max 1 i in
          Ok (Z.min k 5)
      end
  end.
End WithFloats.

(** A stand-in for the arithmetic of the interpreter, for the examples:
    the exact quotient, out of range from [2^1024] on. *)
Definition exact_floats : FloatArithmetic :=
  {| truediv x y :=
       let q := (x / y)%Q in
       if Qle_bool (inject_Z (2 ^ 1024)) q then Infinity false
       else if Qle_bool q (- inject_Z (2 ^ 1024)) then Infinity true
       else Finite q |}.

End Rings.

(* ===================================================================== *)
(** ** [GeoBucketService.get_fuzzy_buckets] *)
(* ===================================================================== *)

Module FuzzySearch.
Import Str Py Models Database External Repository GeoBucketService.
Local Open Scope py_scope.

(** A statement the store may reject: one round trip, then the answer. *)
Definition session_exec_statement {A} (statement : Tables -> result A) : M A :=
  round_trip ;;; fun w => (statement (working w), w).

Definition execute_raw_statement {A} (statement : Tables -> result A) : M A :=
  try_except (session_exec_statement statement)
             (wrap_sql "Failed to execute raw query").

(** LIMIT: PostgreSQL rejects a negative row count. *)
Definition sql_limit {A} (limit : Z) (rows : list A) : result (list A) :=
  if (limit <? 0)%Z then Raise (SQLAlchemyError OperationalError)
  else Ok (take (Z.to_nat limit) rows).

Section Service.
Context `{H3 : H3Library} `{PG : Postgres}.

(** [func.similarity(GeoBucket.canonical_name_normalized, name)] *)
Definition name_similarity (normalized_location : text) (b : GeoBucket) : Q :=
  pg_similarity (canonical_name_normalized b) normalized_location.

(** ORDER BY the score DESC: an insertion sort that keeps rows of equal
    score in the order of the table (the store leaves it open). *)
Fixpoint insert_by_score (score : GeoBucket -> Q) (b : GeoBucket)
         (l : list GeoBucket) : list GeoBucket :=
  match l with
  | [] => [b]
  | x :: l' =>
      if Qle_bool (score x) (score b) then b :: l
      else x :: insert_by_score score b l'
  end.

Definition order_by_score_desc (score : GeoBucket -> Q) (l : list GeoBucket)
  : list GeoBucket :=
  fold_right (insert_by_score score) [] l.

Definition get_fuzzy_buckets (normalized_location : text) (limit : Z)
  : M (list GeoBucketRead) :=
  try_except
    (buckets <-
       execute_raw_statement (fun t =>
         sql_limit limit
           (order_by_score_desc (name_similarity normalized_location)
              (List.filter
                 (fun b => negb (Qle_bool (name_similarity normalized_location b)
                                          (3 # 10)))
                 (geo_buckets t)))) ;;
     ret (map from_model buckets))
    (handlers "Failed to retrieve fuzzy buckets"
              "An unexpected error occurred while retrieving fuzzy geo buckets.").

End Service.

End FuzzySearch.

(* ===================================================================== *)
(** ** [PropertyService.list_properties], [core/pagination.py] and
       [BaseRepository.paginate]

    The pages themselves are cut by the [fastapi_pagination] library
    ([apaginate]); it is a parameter here. *)
(* ===================================================================== *)

Module Listing.
Import Str Py Models Database External Repository.
Local Open Scope py_scope.

Record CursorParams : Type := { cursor : option text; size : Z }.

Record CursorPage : Type := {
  items : list Read.PropertyRead;
  total : option Z;
  current_page : option text;
  current_page_backwards : option text;
  previous_page : option text;
  next_page : option text
}.

Record CursorPaginationMetadata : Type := {
  meta_total : option Z;
  meta_current_page : option text;
  meta_current_page_backwards : option text;
  meta_previous_page : option text;
  meta_next_page : option text
}.

(** [CursorPaginationMetadata.model_validate(page, from_attributes=True)] *)
Definition metadata_of (page : CursorPage) : CursorPaginationMetadata :=
  {| meta_total := total page;
     meta_current_page := current_page page;
     meta_current_page_backwards := current_page_backwards page;
     meta_previous_page := previous_page page;
     meta_next_page := next_page page |}.

Record PropertyQueryParams : Type := { location : option text }.

(** [fastapi_pagination.ext.sqlalchemy.apaginate(conn, query, count_query,
    transformer)] under the page type and the parameters that were set. *)
Class Paginator : Type := {
  apaginate :
    (Tables -> list Property) -> (Tables -> Z) -> CursorParams ->
    (list Property -> result (list Read.PropertyRead)) -> M CursorPage
}.

(** A list comprehension whose element expression may raise. *)
Fixpoint map_result {A B} (f : A -> result B) (l : list A) : result (list B) :=
  match l with
  | [] => Ok []
  | x :: l' =>
      match f x with
      | Raise e => Raise e
      | Ok y =>
          match map_result f l' with
          | Raise e => Raise e
          | Ok ys => Ok (y :: ys)
          end
      end
  end.

(** ORDER BY id DESC: an insertion sort (the keys are unique). *)
Fixpoint insert_by_id (p : Property) (l : list Property) : list Property :=
  match l with
  | [] => [p]
  | x :: l' => if prop_id p <? prop_id x then x :: insert_by_id p l' else p :: l
  end.

Definition order_by_id_desc (l : list Property) : list Property :=
  fold_right insert_by_id [] l.

Section Service.
Context `{H3 : H3Library} `{PG : Postgres} `{PAGES : Paginator}.
Variable order : list ascii.

(** [BaseRepository.paginate] with [filters=None]. *)
Definition paginate (query : Tables -> list Property) (count_query : Tables -> Z)
           (cursor_params : CursorParams)
           (transformer : list Property -> result (list Read.PropertyRead))
  : M CursorPage :=
  try_except (apaginate query count_query cursor_params transformer)
             (wrap_sql "Failed to paginate records").

Definition handlers {A} (e : exn) : M A :=
  match e with
  | DatabaseException _ => raise (AppException "Failed to retrieve property listings.")
  | AppException _ | RequestValidationError => raise e
  | _ =>
      raise (AppException
               "An unexpected error occurred while retrieving property listings.")
  end.

Definition in_buckets (bucket_ids : gset Z) (p : Property) : bool :=
  match geo_bucket_id p with
  | Some i => bool_decide (i ∈ bucket_ids)
  | None => false
  end.

Definition list_properties (pagination : CursorParams)
           (query_params : option PropertyQueryParams)
  : M (list Read.PropertyRead * CursorPaginationMetadata) :=
  try_except
    (let transformer := map_result Read.from_values in
     (* [None]: the early return; [Some where]: the WHERE clause of both
        queries *)
     selection <-
       match query_params with
       | Some {| location := Some location |} =>
           let normalized_location := LocationUtils.normalize order location in
           fuzzy_buckets <-
             FuzzySearch.get_fuzzy_buckets normalized_location 50 ;;
           let bucket_ids : gset Z := list_to_set (map Models.id fuzzy_buckets) in
           if bool_decide (bucket_ids = ∅) then ret None
           else ret (Some (in_buckets bucket_ids))
       | _ => ret (Some (fun _ : Property => true))
       end ;;
     match selection with
     | None =>
         ret ([], {| meta_total := Some 0%Z;
                     meta_previous_page := None;
                     meta_next_page := None;
                     meta_current_page := None;
                     meta_current_page_backwards := None |})
     | Some where_ =>
         let base_query t := order_by_id_desc (List.filter where_ (properties t)) in
         let count_query t := GeoBucketService.count (List.filter where_ (properties t)) in
         paginated_result <- paginate base_query count_query pagination transformer ;;
         let data := items paginated_result in
         let metadata := metadata_of paginated_result in
         ret (data, metadata)
     end)
    handlers.

End Service.

End Listing.

(* ===================================================================== *)
(** ** [core/initializers/seeds/property.py]: the caller of
       [create_property_if_not_exists] *)
(* ===================================================================== *)

Module Seeds.
Import Str Py Models Database External.

Definition sample (title location_name : string) (lat lng : Q)
           (price bedrooms bathrooms description : string)
  : Request.PropertyCreateRequest :=
  {| Request.title := t title;
     Request.location_name := t location_name;
     Request.lat := lat;
     Request.lng := lng;
     Request.attributes :=
       Some [(t "price", t price); (t "bedrooms", t bedrooms);
             (t "bathrooms", t bathrooms); (t "description", t description)] |}.

(** The sample listings; the values of the attributes are written as
    their JSON text. *)
Definition test_properties : list Request.PropertyCreateRequest :=
  [ sample "Luxury 3 Bedroom Flat in Sangotedo" "Sangotedo"
           (64698 # 10000) (36285 # 10000)
           "15000000" "3" "3" "Modern apartment with excellent facilities";
    sample "Beautiful 4 Bedroom Duplex" "Sangotedo, Ajah"
           (64720 # 10000) (36301 # 10000)
           "25000000" "4" "4" "Spacious duplex in a gated estate";
    sample "Affordable 2 Bedroom Apartment" "sangotedo lagos"
           (64705 # 10000) (36290 # 10000)
           "12000000" "2" "2" "Cozy apartment perfect for small families";
    sample "5 Bedroom Detached House in Lekki" "Lekki Phase 1"
           (64474 # 10000) (34739 # 10000)
           "85000000" "5" "6" "Luxury detached house with swimming pool";
    sample "3 Bedroom Flat in Lekki Phase 1" "Lekki Phase 1, Lagos"
           (64480 # 10000) (34745 # 10000)
           "35000000" "3" "3" "Well-finished apartment in prime location";
    sample "Studio Apartment in Victoria Island" "Victoria Island"
           (64281 # 10000) (34219 # 10000)
           "18000000" "1" "1" "Modern studio in the heart of VI";
    sample "4 Bedroom Terrace in Ajah" "Ajah"
           (64650 # 10000) (35870 # 10000)
           "28000000" "4" "4" "Contemporary terrace house in serene environment";
    sample "2 Bedroom Flat in Ajah, Lagos" "Ajah Lagos"
           (64658 # 10000) (35880 # 10000)
           "16000000" "2" "2" "Affordable flat in developing area";
    sample "6 Bedroom Mansion in Ikoyi" "Ikoyi"
           (64541 # 10000) (34316 # 10000)
           "150000000" "6" "7" "Opulent mansion with premium finishes";
    sample "3 Bedroom Bungalow in Epe" "Epe"
           (65833 # 10000) (39833 # 10000)
           "9000000" "3" "2" "Peaceful bungalow away from city noise" ].

Section Seed.
Context `{H3 : H3Library} `{PG : Postgres}.
Variable order : list ascii.

(** The loop over the sample listings: a listing whose creation raises
    is logged and skipped. *)
Fixpoint seed_each (payloads : list Request.PropertyCreateRequest)
         (created : list Read.PropertyRead) : M (list Read.PropertyRead) :=
  match payloads with
  | [] => ret created
  | property_data :: rest =>
      fun w =>
        match PropertyService.create_property_if_not_exists order property_data w with
        | (Ok property, w') => seed_each rest (created ++ [property]) w'
        | (Raise _, w') => seed_each rest created w'
        end
  end.

Definition run : M (list Read.PropertyRead) := seed_each test_properties [].

End Seed.

End Seeds.

(* ===================================================================== *)
(** ** Vocabulary of the statements about the remaining functions *)
(* ===================================================================== *)

Module Measures.
Import Chars Str Py Models Database External Repository GeoBucketService.
Import Views.

(** Number of locations whose normalised form is [n]. *)
Definition occurrences (order : list ascii) (locations : list text) (n : text) : nat :=
  length (List.filter (text_eqb n) (map (LocationUtils.normalize order) locations)).

(** The count a counter holds for a key, zero without the key. *)
Fixpoint held (y : text) (c : list (text * nat)) : nat :=
  match c with
  | [] => 0
  | (k, n) :: c' => if text_eqb y k then n else held y c'
  end.

(** Number of occurrences of [y] in [l]. *)
Definition count_in (y : text) (l : list text) : nat :=
  length (List.filter (text_eqb y) l).

(** The edge length [get_h3_ring_for_radius] divides by. *)
Definition edge_of (resolution : Z) : Q :=
  match Rings.dict_get resolution Rings.PROPERTY_EDGE_SPECS with
  | Some v => v
  | None => (461 # 1000)%Q
  end.

(** What the statements assume of the division of floats: a quotient
    well inside the range of a float is a finite float, and the division
    does not decrease when the dividend grows, as rounding is monotone. *)
Definition division_in_range `{Rings.FloatArithmetic} : Prop :=
  forall x y : Q,
    (0 < y)%Q ->
    (- inject_Z (2 ^ 1023) <= x / y)%Q -> (x / y <= inject_Z (2 ^ 1023))%Q ->
    exists q, Rings.truediv x y = Rings.Finite q.

Definition division_monotone `{Rings.FloatArithmetic} : Prop :=
  forall x x' y q q' : Q,
    (0 < y)%Q -> (x <= x')%Q ->
    Rings.truediv x y = Rings.Finite q -> Rings.truediv x' y = Rings.Finite q' ->
    (q <= q')%Q.

(** The name is plain ASCII: every character has a code below 128. *)
Definition ascii_text (s : text) : bool :=
  forallb (fun c => code c <? 128) s.

(** Every element is at most its predecessor. *)
Fixpoint descending (l : list Z) : Prop :=
  match l with
  | a :: (b :: _) as l' => (b <= a)%Z /\ descending l'
  | _ => True
  end.

Fixpoint descending_q (l : list Q) : Prop :=
  match l with
  | a :: (b :: _) as l' => (b <= a)%Q /\ descending_q l'
  | _ => True
  end.

(** Every element is greater than its predecessor. *)
Fixpoint ascending (l : list Z) : Prop :=
  match l with
  | a :: (b :: _) as l' => (a < b)%Z /\ ascending l'
  | _ => True
  end.

(** [a] holds at least as many listings as [b]. *)
Definition fuller (a b : GeoBucket) : Prop :=
  (property_count b <= property_count a)%Z.

(** [a] scores at least as high as [b]. *)
Definition better (score : GeoBucket -> Q) (a b : GeoBucket) : Prop :=
  (score b <= score a)%Q.

Definition sum_z (l : list Z) : Z := fold_right Z.add 0%Z l.

(** The point lies in the box, borders included. *)
Definition inside (box : BoundingBox) (p : Point) : Prop :=
  (min_lat box <= lat p)%Q /\ (lat p <= max_lat box)%Q
  /\ (min_lng box <= lng p)%Q /\ (lng p <= max_lng box)%Q.

(** Every payload has the title of a stored listing. *)
Definition titles_stored (payloads : list Request.PropertyCreateRequest)
           (w : World) : Prop :=
  forall payload, In payload payloads -> title_rows payload w <> [].

(** The state of a session between two service calls: no open
    transaction, nothing pending, and the rows it sees are the committed
    ones. *)
Definition at_rest (w : World) : Prop :=
  transaction_level w = 0 /\ pending w = [] /\ working w = database w.

End Measures.

(* ===================================================================== *)
(** ** Vocabulary of the proof that a string matches itself entirely *)
(* ===================================================================== *)

Module Diagonal.
Import Chars Str Difflib.

(** Length of the run of characters outside of [pop] that ends at
    position [j] of [x]. *)
Fixpoint run_ending_at (pop : ascii -> bool) (x : text) (j : nat) : nat :=
  match x !! j with
  | Some y =>
      if pop y then 0
      else S (match j with
              | 0 => 0
              | S j' => run_ending_at pop x j'
              end)
  | None => 0
  end.

(** The run that ends just before position [j]. *)
Definition run_before (pop : ascii -> bool) (x : text) (j : nat) : nat :=
  match j with
  | 0 => 0
  | S j' => run_ending_at pop x j'
  end.

(** The previous row of the table of [find_longest_match], as seen when
    row [i] of [x] against itself is computed: bounded by the runs of
    its columns and of its row, and equal to the run on the diagonal. *)
Definition row_before (pop : ascii -> bool) (x : text)
           (i : nat) (prev : list nat) : Prop :=
  (forall j, nth j (0 :: prev) 0 <= run_before pop x j)
  /\ (forall j, nth j (0 :: prev) 0 <= run_before pop x i)
  /\ nth i (0 :: prev) 0 = run_before pop x i.

(** The best block after the rows before [i]: on the diagonal, inside
    these rows, and at least as long as every run that ends in them. *)
Definition best_before (pop : ascii -> bool) (x : text)
           (i : nat) (best : block) : Prop :=
  let '(bi, bj, bk) := best in
  bi = bj /\ bi + bk <= i
  /\ forall r, r < i -> run_ending_at pop x r <= bk.

End Diagonal.



(* ===================================================================== *)
(** * Properties of the session and the repository *)
(* ===================================================================== *)

Module DatabaseFacts.
Import Str Py Models Database Repository.
Import Views.

Lemma bind_ok {A B} (c : M A) (k : A -> M B) w a w' :
  c w = (Ok a, w') -> bind c k w = k a w'.
Proof. intros E. unfold bind. now rewrite E. Qed.

Lemma bind_raise {A B} (c : M A) (k : A -> M B) w e w' :
  c w = (Raise e, w') -> bind c k w = (Raise e, w').
Proof. intros E. unfold bind. now rewrite E. Qed.

Lemma try_ok {A} (c : M A) h w a w' :
  c w = (Ok a, w') -> try_except c h w = (Ok a, w').
Proof. intros E. unfold try_except. now rewrite E. Qed.

Lemma try_raise {A} (c : M A) h w e w' :
  c w = (Raise e, w') -> try_except c h w = h e w'.
Proof. intros E. unfold try_except. now rewrite E. Qed.

(** A store that answers every round trip. *)
Lemma round_trip_quiet w : faults w = [] -> round_trip w = (Ok tt, w).
Proof. intros E. unfold round_trip. now rewrite E. Qed.

Lemma session_exec_quiet {A} (q : Tables -> A) w :
  faults w = [] -> session_exec q w = (Ok (q (working w)), w).
Proof.
  intros E. unfold session_exec.
  now rewrite (bind_ok _ _ _ _ _ (round_trip_quiet w E)).
Qed.

Lemma execute_raw_quiet {A} (q : Tables -> A) w :
  faults w = [] -> execute_raw q w = (Ok (q (working w)), w).
Proof.
  intros E. unfold execute_raw.
  now rewrite (try_ok _ _ _ _ _ (session_exec_quiet q w E)).
Qed.

Lemma find_one_quiet {R} (table : Tables -> list R) p w :
  faults w = [] ->
  find_one_by_and_none table p w =
  (match List.filter p (table (working w)) with
   | [] => Ok None
   | [r] => Ok (Some r)
   | _ => Raise (DatabaseException "Failed to find record")
   end, w).
Proof.
  intros E. unfold find_one_by_and_none, try_except.
  rewrite (bind_ok _ _ _ _ _ (session_exec_quiet _ w E)).
  unfold lift, one_or_none.
  destruct (List.filter p (table (working w))) as [|r [|r' l]]; reflexivity.
Qed.

(** Rows of a table with a unique column. *)
Lemma filter_unique {R} (key : R -> Z) (rows : list R) (r : R) :
  NoDup (map key rows) -> In r rows ->
  List.filter (fun x => (key x =? key r)%Z) rows = [r].
Proof.
  induction rows as [|x rows IH]; intros Hnd Hin; [destruct Hin|].
  cbn in Hnd. apply NoDup_cons in Hnd as [Hx Hnd]. cbn.
  destruct Hin as [-> | Hin].
  - rewrite Z.eqb_refl. f_equal.
    clear IH Hnd. induction rows as [|y rows IH]; [reflexivity|].
    cbn. destruct (Z.eqb_spec (key y) (key r)) as [E|E].
    + exfalso. apply Hx. rewrite <- E. cbn. left.
    + apply IH. intros Hr. apply Hx. cbn. now right.
  - destruct (Z.eqb_spec (key x) (key r)) as [E|E].
    + exfalso. apply Hx. rewrite E. apply list_elem_of_In.
      apply in_map. exact Hin.
    + now apply IH.
Qed.

Lemma find_filter_nil {R} (p : R -> bool) (rows : list R) :
  List.filter p rows = [] -> List.find p rows = None.
Proof.
  induction rows as [|x rows IH]; [reflexivity|]. cbn.
  destruct (p x); [discriminate | exact IH].
Qed.

Lemma filter_app_miss {R} (p : R -> bool) (rows : list R) (r : R) :
  List.filter p rows = [] -> p r = true ->
  List.filter p (rows ++ [r]) = [r] /\ List.find p (rows ++ [r]) = Some r.
Proof.
  intros Hm Hr. split.
  - rewrite List.filter_app, Hm. cbn. now rewrite Hr.
  - induction rows as [|x rows IH]; cbn in *; [now rewrite Hr|].
    destruct (p x); [discriminate | now apply IH].
Qed.

Lemma apply_write_frame obj w r w' :
  apply_write obj w = (r, w') -> same_frame w w' /\ pending w' = pending w.
Proof.
  unfold apply_write, same_frame. intros E.
  destruct obj as [b|p|b].
  - destruct (has_h3_index (h3_index b) (working w));
      inversion E; subst; cbn; auto 10.
  - destruct (has_prop_id (prop_id p) (working w)
              || match geo_bucket_id p with
                 | Some i => negb (has_bucket_id i (working w))
                 | None => false
                 end);
      inversion E; subst; cbn; auto 10.
  - inversion E; subst; cbn; auto 10.
Qed.

Lemma apply_writes_frame objs w r w' :
  apply_writes objs w = (r, w') -> same_frame w w' /\ pending w' = pending w.
Proof.
  revert w. induction objs as [|obj objs IH]; intros w E; cbn in E.
  - inversion E; subst. unfold same_frame. auto 10.
  - destruct (apply_write obj w) as [[u|e] w1] eqn:E1.
    + apply apply_write_frame in E1 as [(?&?&?&?&?) ?].
      apply IH in E as [(?&?&?&?&?) ?].
      unfold same_frame. repeat split; congruence.
    + inversion E; subst.
      now apply apply_write_frame in E1.
Qed.

Lemma session_flush_quiet w :
  faults w = [] -> session_flush w = apply_writes (pending w) (with_pending [] w).
Proof.
  intros E. unfold session_flush.
  now rewrite (bind_ok _ _ _ _ _ (round_trip_quiet w E)).
Qed.

Lemma session_commit_quiet w w1 :
  faults w = [] ->
  apply_writes (pending w) (with_pending [] w) = (Ok tt, w1) ->
  session_commit w = (Ok tt, commit_world w1).
Proof.
  intros E Hw. unfold session_commit.
  assert (E1 : faults w1 = []).
  { apply apply_writes_frame in Hw as [(_&_&Hfl&_) _]. now rewrite Hfl. }
  rewrite (bind_ok _ _ w tt w1) by (now rewrite session_flush_quiet).
  now rewrite (bind_ok _ _ _ _ _ (round_trip_quiet w1 E1)).
Qed.

Lemma saved_working level w1 : working (saved level w1) = working w1.
Proof. unfold saved. now destruct (0 <? level). Qed.

Lemma saved_faults level w1 : faults (saved level w1) = faults w1.
Proof. unfold saved. now destruct (0 <? level). Qed.

Lemma saved_pending level w1 : pending (saved level w1) = pending w1.
Proof. unfold saved. now destruct (0 <? level). Qed.

Lemma saved_level level w1 :
  transaction_level (saved level w1) = transaction_level w1.
Proof. unfold saved. now destruct (0 <? level). Qed.

Lemma saved_bucket_seq level w1 : bucket_id_seq (saved level w1) = bucket_id_seq w1.
Proof. unfold saved. now destruct (0 <? level). Qed.

Lemma save_changes_quiet {R} (row_of : Tables -> option R) w w1 r :
  faults w = [] ->
  apply_writes (pending w) (with_pending [] w) = (Ok tt, w1) ->
  row_of (working w1) = Some r ->
  save_changes row_of w = (Ok r, saved (transaction_level w) w1).
Proof.
  intros E Hw Hr. unfold save_changes, in_transaction, bind, saved.
  assert (E1 : faults w1 = []).
  { apply apply_writes_frame in Hw as [(_&_&Hfl&_) _]. now rewrite Hfl. }
  destruct (0 <? transaction_level w).
  - rewrite (session_flush_quiet w E), Hw.
    unfold session_refresh, bind. rewrite (round_trip_quiet w1 E1), Hr.
    reflexivity.
  - rewrite (session_commit_quiet w w1 E Hw).
    unfold session_refresh, bind.
    rewrite (round_trip_quiet (commit_world w1)) by exact E1.
    cbn. now rewrite Hr.
Qed.

End DatabaseFacts.



(* ===================================================================== *)
(** * Bucket resolution: [find_or_create_bucket] *)
(* ===================================================================== *)

Module ResolverFacts.
Import Str Py Models Database External Repository GeoBucketService DatabaseFacts.
Import Views.

Section Facts.
Context `{H3 : H3Library} `{PG : Postgres}.

(** C1 (as the code has it): when the exact and the neighbour lookups
    miss and the INSERT of the new bucket is answered by the unique-key
    conflict of the store, [find_or_create_bucket] raises
    [AppException "Failed to find or create geo bucket"] to its caller;
    it makes no further round trip to the store (no second lookup) and
    leaves the tables as they were. *)
Theorem find_or_create_conflict_raises
        (w : World) (h : Z) (name norm : text) (parent : Z)
        (neighbors : list Z) (geometry : Point * Polygon)
        (rest : list (option sql_error)) :
  faults w = None :: None :: Some IntegrityError :: rest ->
  exact_rows h w = [] ->
  H3Utils.get_neighbor_h3s h 1 = Ok neighbors ->
  fuzzy_rows neighbors norm w = [] ->
  H3Utils.h3_to_geometry h = Ok geometry ->
  exists w',
    find_or_create_bucket h name norm parent w
    = (Raise (AppException "Failed to find or create geo bucket"), w')
    /\ working w' = working w
    /\ database w' = database w
    /\ faults w' = rest.
Proof.
  intros Hf Hexact Hn Hfuzzy Hg.
  unfold find_or_create_bucket, try_except, bind, find_one_by_and_none,
    execute_raw, try_except, bind, session_exec, bind, round_trip.
  rewrite Hf. cbn [faults with_faults working].
  fold (exact_rows h w). rewrite Hexact. cbn.
  rewrite Hn. cbn.
  fold (fuzzy_rows neighbors norm w). rewrite Hfuzzy. cbn.
  rewrite Hg. destruct geometry as [center_wkt hexagon_wkt]. cbn.
  unfold create_bucket, try_except, bind, session_add, save_changes, bind,
    in_transaction. cbn.
  destruct (transaction_level w) as [|n]; cbn;
    (eexists; split; [reflexivity | cbn; auto]).
Qed.

(** An exact match is returned as it is stored and nothing is written. *)
Lemma find_or_create_exact (w : World) (h : Z) (name norm : text) (parent : Z)
      (b : GeoBucket) :
  faults w = [] ->
  exact_rows h w = [b] ->
  find_or_create_bucket h name norm parent w = (Ok b, w).
Proof.
  intros Hf Hexact. unfold find_or_create_bucket, try_except, bind.
  rewrite (find_one_quiet _ _ _ Hf).
  fold (exact_rows h w). rewrite Hexact. reflexivity.
Qed.

Lemma find_or_create_fuzzy (w : World) (h : Z) (name norm : text) (parent : Z)
      (neighbors : list Z) (b : GeoBucket) (bs : list GeoBucket) :
  faults w = [] ->
  exact_rows h w = [] ->
  H3Utils.get_neighbor_h3s h 1 = Ok neighbors ->
  fuzzy_rows neighbors norm w = b :: bs ->
  find_or_create_bucket h name norm parent w = (Ok b, w).
Proof.
  intros Hf Hexact Hn Hfuzzy. unfold find_or_create_bucket, try_except, bind.
  rewrite (find_one_quiet _ _ _ Hf).
  fold (exact_rows h w). rewrite Hexact.
  unfold lift. rewrite Hn, (execute_raw_quiet _ _ Hf).
  fold (fuzzy_rows neighbors norm w). rewrite Hfuzzy. reflexivity.
Qed.

Lemma find_or_create_miss (w : World) (h : Z) (name norm : text) (parent : Z)
      (neighbors : list Z) (geometry : Point * Polygon) :
  faults w = [] ->
  pending w = [] ->
  exact_rows h w = [] ->
  H3Utils.get_neighbor_h3s h 1 = Ok neighbors ->
  fuzzy_rows neighbors norm w = [] ->
  H3Utils.h3_to_geometry h = Ok geometry ->
  exists w',
    find_or_create_bucket h name norm parent w
    = (Ok (new_bucket w h name norm parent geometry), w')
    /\ geo_buckets (working w')
       = geo_buckets (working w) ++ [new_bucket w h name norm parent geometry]
    /\ properties (working w') = properties (working w)
    /\ faults w' = [] /\ pending w' = []
    /\ transaction_level w' = transaction_level w.
Proof.
  intros Hf Hp Hexact Hn Hfuzzy Hg.
  unfold find_or_create_bucket, try_except at 1, bind.
  rewrite (find_one_quiet _ _ _ Hf).
  fold (exact_rows h w). rewrite Hexact.
  unfold lift. rewrite Hn, (execute_raw_quiet _ _ Hf).
  fold (fuzzy_rows neighbors norm w). rewrite Hfuzzy, Hg.
  destruct geometry as [center_wkt hexagon_wkt].
  assert (Hmiss : has_h3_index h (working w) = false).
  { unfold has_h3_index. unfold exact_rows in Hexact.
    induction (geo_buckets (working w)) as [|x l IH]; [reflexivity|].
    cbn in *. destruct (h3_index x =? h)%Z; [discriminate|]. now apply IH. }
  set (schema := {| id := 0; h3_index := h; h3_resolution := 8;
                    parent_h3 := Some parent; canonical_name := name;
                    canonical_name_normalized := norm;
                    center_point := Some center_wkt;
                    hexagon_boundary := Some hexagon_wkt;
                    property_count := 0 |}).
  set (row := new_bucket w h name norm parent (center_wkt, hexagon_wkt)).
  set (w0 := with_pending (pending w ++ [InsertBucket schema]) w).
  assert (Hw : exists w1,
             apply_writes (pending w0) (with_pending [] w0) = (Ok tt, w1)
             /\ geo_buckets (working w1) = geo_buckets (working w) ++ [row]
             /\ properties (working w1) = properties (working w)
             /\ pending w1 = []).
  { subst w0. cbn. rewrite Hp. cbn. unfold apply_write. cbn. rewrite Hmiss.
    eexists. split; [reflexivity|]. cbn. auto. }
  destruct Hw as (w1 & Hw & Hb & Hpr & Hp1).
  assert (Hframe := apply_writes_frame _ _ _ _ Hw).
  destruct Hframe as [(_ & Hlv & Hfl & _) _]. cbn in Hlv, Hfl.
  assert (Hrow : bucket_by_h3 (h3_index schema) (working w1) = Some row).
  { unfold bucket_by_h3. rewrite Hb. cbn.
    apply (filter_app_miss _ _ row Hexact). cbn. apply Z.eqb_refl. }
  unfold create_bucket, try_except, bind, session_add.
  fold w0.
  rewrite (save_changes_quiet _ w0 w1 row) by (assumption || exact Hf).
  unfold ret, from_model.
  eexists. split; [reflexivity|].
  rewrite saved_working, saved_faults, saved_pending, saved_level.
  rewrite Hb, Hpr, Hfl, Hp1, Hlv. auto.
Qed.

Lemma exact_rows_unique (w : World) (h : Z) :
  NoDup (map h3_index (geo_buckets (working w))) ->
  exact_rows h w = [] \/ exists b, exact_rows h w = [b].
Proof.
  intros Hnd. destruct (exact_rows h w) as [|b l] eqn:E; [now left|right].
  exists b.
  assert (Hb : In b (exact_rows h w)) by (rewrite E; now left).
  unfold exact_rows in Hb. apply List.filter_In in Hb as [Hin Hh].
  apply Z.eqb_eq in Hh.
  rewrite <- E. unfold exact_rows. rewrite <- Hh.
  now apply filter_unique.
Qed.

(** C5: an exact match is returned as stored, with the world (all
    tables included) unchanged; a second resolution of the same cell and
    name returns the same bucket and writes nothing, so that no
    duplicate is created; and under a store that answers and an [h3]
    library that knows the cell the first resolution does return. *)
Theorem resolve_exact_match_and_repeat
        (w : World) (h : Z) (name norm : text) (parent : Z) :
  faults w = [] ->
  pending w = [] ->
  NoDup (map h3_index (geo_buckets (working w))) ->
  (forall b,
      In b (geo_buckets (working w)) -> h3_index b = h ->
      find_or_create_bucket h name norm parent w = (Ok b, w))
  /\ (forall r w1,
         find_or_create_bucket h name norm parent w = (Ok r, w1) ->
         find_or_create_bucket h name norm parent w1 = (Ok r, w1))
  /\ (forall neighbors geometry,
         H3Utils.get_neighbor_h3s h 1 = Ok neighbors ->
         H3Utils.h3_to_geometry h = Ok geometry ->
         exists r w1, find_or_create_bucket h name norm parent w = (Ok r, w1)).
Proof.
  intros Hf Hp Hnd. split; [|split].
  - intros b Hin Hh. apply find_or_create_exact; [exact Hf|].
    unfold exact_rows. rewrite <- Hh. now apply filter_unique.
  - intros r w1 H1.
    destruct (exact_rows_unique w h Hnd) as [Hex | [b Hex]].
    2:{ rewrite (find_or_create_exact w h name norm parent b Hf Hex) in H1.
        inversion H1; subst r w1. now apply find_or_create_exact. }
    destruct (H3Utils.get_neighbor_h3s h 1) as [neighbors|e] eqn:Hn.
    2:{ exfalso. revert H1.
        unfold find_or_create_bucket, try_except, bind.
        rewrite (find_one_quiet _ _ _ Hf).
        fold (exact_rows h w). rewrite Hex. unfold lift. rewrite Hn.
        unfold handlers. destruct e; discriminate. }
    destruct (fuzzy_rows neighbors norm w) as [|b bs] eqn:Hfz.
    2:{ rewrite (find_or_create_fuzzy w h name norm parent neighbors b bs
                   Hf Hex Hn Hfz) in H1.
        inversion H1; subst r w1.
        now apply (find_or_create_fuzzy _ _ _ _ _ neighbors b bs). }
    destruct (H3Utils.h3_to_geometry h) as [geometry|e] eqn:Hg.
    2:{ exfalso. revert H1.
        unfold find_or_create_bucket, try_except, bind.
        rewrite (find_one_quiet _ _ _ Hf).
        fold (exact_rows h w). rewrite Hex. unfold lift.
        rewrite Hn, (execute_raw_quiet _ _ Hf).
        fold (fuzzy_rows neighbors norm w). rewrite Hfz, Hg.
        unfold handlers. destruct e; discriminate. }
    destruct (find_or_create_miss w h name norm parent neighbors geometry
                Hf Hp Hex Hn Hfz Hg)
      as (w' & E & Hb & _ & Hf' & _).
    rewrite E in H1. inversion H1; subst r w1.
    apply find_or_create_exact; [exact Hf'|].
    unfold exact_rows. rewrite Hb.
    apply (filter_app_miss _ _ _ Hex). cbn. apply Z.eqb_refl.
  - intros neighbors geometry Hn Hg.
    destruct (exact_rows_unique w h Hnd) as [Hex | [b Hex]].
    2:{ exists b, w. now apply find_or_create_exact. }
    destruct (fuzzy_rows neighbors norm w) as [|b bs] eqn:Hfz.
    2:{ exists b, w. now apply (find_or_create_fuzzy _ _ _ _ _ neighbors b bs). }
    destruct (find_or_create_miss w h name norm parent neighbors geometry
                Hf Hp Hex Hn Hfz Hg) as (w' & E & _).
    eauto.
Qed.

End Facts.
End ResolverFacts.



(* ===================================================================== *)
(** * The counter: [increment_property_count] *)
(* ===================================================================== *)

Module CounterFacts.
Import Str Py Models Database External Repository GeoBucketService DatabaseFacts.
Import Views.

Lemma update_single (i : Z) (b : GeoBucket) (rows : list GeoBucket) :
  List.filter (fun r => (id r =? i)%Z) rows = [b] ->
  map (fun r => if (id r =? id b)%Z
                then set_property_count (property_count b + 1) b else r) rows
  = incremented i rows
  /\ List.find (fun r => (id r =? i)%Z) (incremented i rows)
     = Some (set_property_count (property_count b + 1) b).
Proof.
  intros Hrows.
  assert (Hb : id b = i).
  { assert (Hin : In b (List.filter (fun r => (id r =? i)%Z) rows))
      by (rewrite Hrows; now left).
    apply List.filter_In in Hin as [_ Hin]. now apply Z.eqb_eq in Hin. }
  assert (Hall : forall r, In r rows -> id r = i -> r = b).
  { intros r Hin Hr.
    assert (Hin' : In r (List.filter (fun r => (id r =? i)%Z) rows)).
    { apply List.filter_In. split; [exact Hin | now apply Z.eqb_eq]. }
    rewrite Hrows in Hin'. destruct Hin' as [<- | []]. reflexivity. }
  rewrite Hb. split.
  - unfold incremented. apply map_ext_in. intros r Hin.
    destruct (Z.eqb_spec (id r) i) as [E|E]; [|reflexivity].
    now rewrite (Hall r Hin E).
  - clear Hb. revert Hrows Hall.
    induction rows as [|x rows IH]; intros Hrows Hall; [discriminate|].
    cbn in *. destruct (Z.eqb_spec (id x) i) as [E|E].
    + cbn. rewrite E, Z.eqb_refl. f_equal.
      now rewrite (Hall x (or_introl eq_refl) E).
    + rewrite (proj2 (Z.eqb_neq _ _) E). apply IH; [exact Hrows|].
      intros r Hin. apply Hall. now right.
Qed.

Section Facts.
Context `{H3 : H3Library} `{PG : Postgres}.

(** C2 (what the code does for a missing bucket): the exception that
    reports the missing bucket is caught by the method's own handler
    for unexpected exceptions; the caller receives the generic
    [AppException] of that handler, and no state changes. *)
Theorem increment_missing_bucket_is_masked (w : World) (i : Z) :
  faults w = [] ->
  id_rows i w = [] ->
  increment_property_count i w
  = (Raise (AppException
              "An unexpected error occurred while incrementing the property count."),
     w).
Proof.
  intros Hf Hrows.
  unfold increment_property_count, try_except, bind.
  rewrite (find_one_quiet _ _ _ Hf).
  fold (id_rows i w). rewrite Hrows. reflexivity.
Qed.

(** With the bucket present, one call adds exactly one to its count and
    changes no other column or row; the listings are untouched. *)
Lemma increment_existing_bucket (w : World) (i : Z) (b : GeoBucket) :
  faults w = [] ->
  pending w = [] ->
  id_rows i w = [b] ->
  exists w',
    increment_property_count i w = (Ok tt, w')
    /\ geo_buckets (working w') = incremented i (geo_buckets (working w))
    /\ properties (working w') = properties (working w)
    /\ faults w' = [] /\ pending w' = []
    /\ transaction_level w' = transaction_level w.
Proof.
  intros Hf Hp Hrows.
  destruct (update_single i b _ Hrows) as [Hmap Hfind].
  assert (Hb : id b = i).
  { assert (Hin : In b (id_rows i w)) by (rewrite Hrows; now left).
    apply List.filter_In in Hin as [_ Hin]. now apply Z.eqb_eq in Hin. }
  unfold increment_property_count, try_except, bind.
  rewrite (find_one_quiet _ _ _ Hf).
  fold (id_rows i w). rewrite Hrows. unfold session_add.
  set (b' := set_property_count (property_count b + 1) b).
  set (w0 := with_pending (pending w ++ [UpdateBucket b']) w).
  assert (Hw : exists w1,
             apply_writes (pending w0) (with_pending [] w0) = (Ok tt, w1)
             /\ geo_buckets (working w1) = incremented i (geo_buckets (working w))
             /\ properties (working w1) = properties (working w)
             /\ pending w1 = []).
  { subst w0. cbn. rewrite Hp. cbn.
    eexists. split; [reflexivity|]. cbn. subst b'. rewrite Hmap. auto. }
  destruct Hw as (w1 & Hw & Hbk & Hpr & Hp1).
  destruct (apply_writes_frame _ _ _ _ Hw) as [(_ & Hlv & Hfl & _) _].
  cbn in Hlv, Hfl.
  rewrite (save_changes_quiet _ w0 w1 b').
  - unfold ret. eexists. split; [reflexivity|].
    rewrite saved_working, saved_faults, saved_pending, saved_level.
    rewrite Hbk, Hpr, Hfl, Hp1, Hlv. auto.
  - exact Hf.
  - exact Hw.
  - unfold bucket_by_id. rewrite Hbk. cbn [id set_property_count b'].
    rewrite Hb. exact Hfind.
Qed.

End Facts.
End CounterFacts.



(* ===================================================================== *)
(** * Statistics: [get_stats] and [_get_coverage_stats] *)
(* ===================================================================== *)

Module StatsFacts.
Import Str Py Models Database External Repository GeoBucketService DatabaseFacts.
Import Views.

Section Facts.
Context `{H3 : H3Library} `{PG : Postgres}.

(** Without buckets and listings every counter of the report is zero,
    there is no bounding box and no area, and the density is zero. *)
Lemma get_stats_empty (w : World) :
  faults w = [] ->
  geo_buckets (working w) = [] ->
  properties (working w) = [] ->
  get_stats w
  = (Ok {| total_buckets := 0; total_properties := 0; top_buckets := [];
           empty_buckets := 0;
           coverage := {| total_area_km2 := None; bounding_box := None;
                          unique_locations := 0; avg_bucket_density := 0 |};
           resolution_stats := [] |}, w).
Proof.
  intros Hf Hb Hp.
  unfold get_stats, try_except, bind, _get_total_properties, _get_basic_stats,
    _get_top_buckets, _get_coverage_stats, _get_resolution_stats, bind,
    ret, lift, center_points.
  repeat (first [rewrite (session_exec_quiet _ _ Hf)
                | rewrite (execute_raw_quiet _ _ Hf)];
          rewrite ?Hb, ?Hp; cbn).
  reflexivity.
Qed.

(** An empty bucket population, in a store where every listing
    references a stored bucket, has no listing either. *)
Lemma get_stats_empty_population (w : World) :
  faults w = [] ->
  geo_buckets (working w) = [] ->
  attached (working w) ->
  exists stats,
    get_stats w = (Ok stats, w)
    /\ total_buckets stats = 0%Z /\ total_properties stats = 0%Z
    /\ top_buckets stats = [] /\ empty_buckets stats = 0%Z
    /\ bounding_box (coverage stats) = None
    /\ total_area_km2 (coverage stats) = None.
Proof.
  intros Hf Hb Ha.
  assert (Hp : properties (working w) = []).
  { destruct (properties (working w)) as [|p ps] eqn:E; [reflexivity|].
    destruct (Ha p) as (b & Hin & _); [rewrite E; now left|].
    rewrite Hb in Hin. destruct Hin. }
  eexists. split; [apply (get_stats_empty w Hf Hb Hp)|].
  cbn. repeat split; reflexivity.
Qed.

Lemma coverage_bounding_box (w : World) (n : Z) (c : GeoBucketCoverage) (w' : World) :
  _get_coverage_stats n w = (Ok c, w') ->
  faults w = [] ->
  bounding_box c = box_of (st_extent (center_points (working w))).
Proof.
  intros E Hf. revert E.
  unfold _get_coverage_stats, bind.
  rewrite (execute_raw_quiet _ _ Hf).
  unfold box_of, _calculate_bbox_area, bind.
  destruct (st_extent (center_points (working w))) as [a b c0 d]; cbn.
  destruct c0 as [mnlat|], d as [mxlat|], a as [mnlng|], b as [mxlng|];
    cbn; try (rewrite (execute_raw_quiet _ _ Hf); intros E; inversion E; reflexivity).
  destruct (negb (Qeq_bool mnlat 0) && negb (Qeq_bool mxlat 0)
            && negb (Qeq_bool mnlng 0) && negb (Qeq_bool mxlng 0)).
  - rewrite (session_exec_quiet _ _ Hf).
    destruct (st_area mnlng mnlat mxlng mxlat); cbn;
      rewrite (execute_raw_quiet _ _ Hf); intros E; inversion E; reflexivity.
  - cbn. rewrite (execute_raw_quiet _ _ Hf). intros E; inversion E; reflexivity.
Qed.

(** The box is present exactly when some bucket has a centre point and
    none of the four extents is zero. *)
Lemma box_of_extent (pts : list Point) :
  box_of (st_extent pts) <> None <->
  pts <> []
  /\ truthy (row_min_lat (st_extent pts)) = true
  /\ truthy (row_max_lat (st_extent pts)) = true
  /\ truthy (row_min_lng (st_extent pts)) = true
  /\ truthy (row_max_lng (st_extent pts)) = true.
Proof.
  unfold box_of. destruct pts as [|p ps]; cbn.
  - split; intros H; [now destruct H | destruct H as (H & _); now destruct H].
  - destruct (negb _); cbn; [destruct (negb _); cbn;
      [destruct (negb _); cbn; [destruct (negb _); cbn|]|]|];
      (split; intros H; [|destruct H as (?&?&?&?&?)]; try congruence;
       repeat split; congruence).
Qed.

End Facts.

(** C8 (failing input): with a single bucket whose centre point has
    longitude 0, [get_stats] reports one bucket and no bounding box,
    although a bucket with a centre point exists. *)
Theorem coverage_box_missing_on_zero_extent :
  exists stats w',
    get_stats (PG := StandIn.pg) meridian_world = (Ok stats, w')
    /\ total_buckets stats = 1%Z
    /\ center_points (working meridian_world) = [{| lng := 0; lat := 5 |}]
    /\ bounding_box (coverage stats) = None.
Proof. do 2 eexists. split; [reflexivity|]. cbn. auto. Qed.

End StatsFacts.



(* ===================================================================== *)
(** * Indexing: [calculate_h3_indexes] and the request schema *)
(* ===================================================================== *)

Module IndexerFacts.
Import Py Models External H3Utils.

Section Facts.
Context `{H3 : H3Library}.

(** C9 (as the code has it): [calculate_h3_indexes] is a function of
    its arguments that applies no range check: it returns the three
    cells exactly when the [h3] library indexes the pair at
    resolutions 7, 8 and 9, and an exception it raises is one the
    library raised.  The range of the coordinates is enforced before
    indexing, by the validation of the request body. *)
Theorem calculate_h3_indexes_defers_to_h3 (lat lng : Q) :
  (forall ix,
      calculate_h3_indexes lat lng = Ok ix <->
      latlng_to_cell lat lng 7 = Ok (h3_r7 ix)
      /\ latlng_to_cell lat lng 8 = Ok (h3_r8 ix)
      /\ latlng_to_cell lat lng 9 = Ok (h3_r9 ix))
  /\ (forall e,
         calculate_h3_indexes lat lng = Raise e ->
         exists res, In res [7; 8; 9] /\ latlng_to_cell lat lng res = Raise e)
  /\ (forall body p,
         Request.validate body = Ok p ->
         p = body
         /\ (-90 <= Request.lat p)%Q /\ (Request.lat p <= 90)%Q
         /\ (-180 <= Request.lng p)%Q /\ (Request.lng p <= 180)%Q).
Proof.
  unfold calculate_h3_indexes, rbind. split; [|split].
  - intros [r7 r8 r9]. cbn.
    destruct (latlng_to_cell lat lng 7) as [a|e];
      [|split; [discriminate | intros (E & _); discriminate]].
    destruct (latlng_to_cell lat lng 8) as [b|e];
      [|split; [discriminate | intros (_ & E & _); discriminate]].
    destruct (latlng_to_cell lat lng 9) as [c|e];
      [|split; [discriminate | intros (_ & _ & E); discriminate]].
    split.
    + intros E. inversion E. auto.
    + intros (E7 & E8 & E9). inversion E7; inversion E8; inversion E9.
      reflexivity.
  - intros e.
    destruct (latlng_to_cell lat lng 7) as [a|e7] eqn:E7.
    2:{ intros E. inversion E; subst. exists 7. split; [now left | exact E7]. }
    destruct (latlng_to_cell lat lng 8) as [b|e8] eqn:E8.
    2:{ intros E. inversion E; subst. exists 8.
        split; [right; now left | exact E8]. }
    destruct (latlng_to_cell lat lng 9) as [c|e9] eqn:E9.
    2:{ intros E. inversion E; subst. exists 9.
        split; [right; right; now left | exact E9]. }
    discriminate.
  - intros body p. unfold Request.validate, Request.valid_latitude,
      Request.valid_longitude.
    destruct (Qle_bool (-90) (Request.lat body)) eqn:E1; [|discriminate].
    destruct (Qle_bool (Request.lat body) 90) eqn:E2; [|discriminate].
    destruct (Qle_bool (-180) (Request.lng body)) eqn:E3; [|discriminate].
    destruct (Qle_bool (Request.lng body) 180) eqn:E4; [|discriminate].
    cbn. intros E. inversion E; subst.
    apply Qle_bool_iff in E1, E2, E3, E4. auto.
Qed.

End Facts.

(** C9 (counterexample): latitude 91 and longitude 181 lie outside the
    domain, and [calculate_h3_indexes] returns cell identifiers for them
    instead of failing. *)
Lemma calculate_h3_indexes_out_of_range :
  Request.valid_latitude 91 = false
  /\ Request.valid_longitude 181 = false
  /\ calculate_h3_indexes (H3 := StandIn.h3) 91 181
     = Ok {| h3_r7 := 7591681; h3_r8 := 8591681; h3_r9 := 9591681 |}.
Proof. repeat split. Qed.

Lemma calculate_h3_indexes_defers_to_h3_witness :
  calculate_h3_indexes (H3 := StandIn.h3) (13 # 2) (17 # 5)
  = Ok {| h3_r7 := 7506503; h3_r8 := 8506503; h3_r9 := 9506503 |}.
Proof.
  apply (proj1 (calculate_h3_indexes_defers_to_h3 (H3 := StandIn.h3) (13 # 2) (17 # 5))).
  cbn. repeat split.
Defined.

End IndexerFacts.



(* ===================================================================== *)
(** * Code that runs inside an open transaction, under any answers of the
      store *)
(* ===================================================================== *)

Module TransactionFacts.
Import Str Py Models Database External Repository DatabaseFacts.
Import Views.

Lemma frame_refl w : frame w w.
Proof. unfold frame. auto. Qed.

Lemma frame_trans w1 w2 w3 : frame w1 w2 -> frame w2 w3 -> frame w1 w3.
Proof. unfold frame. intros (?&?&?&?) (?&?&?&?). repeat split; congruence. Qed.

Lemma only_faults_refl w : only_faults w w.
Proof. unfold only_faults, frame. auto 10. Qed.

Lemma only_faults_trans w1 w2 w3 :
  only_faults w1 w2 -> only_faults w2 w3 -> only_faults w1 w3.
Proof.
  unfold only_faults. intros (F1&?&?&?&?) (F2&?&?&?&?).
  split; [exact (frame_trans _ _ _ F1 F2)|]. repeat split; congruence.
Qed.

Lemma only_faults_frame w w' : only_faults w w' -> frame w w'.
Proof. now intros [F _]. Qed.

Create HintDb tx.
#[export] Hint Resolve frame_refl only_faults_refl only_faults_frame : tx.

Lemma round_trip_inv w r w' : round_trip w = (r, w') -> only_faults w w'.
Proof.
  unfold round_trip. destruct (faults w) as [|[e|] f]; intros E;
    inversion E; subst; unfold only_faults, frame; cbn; auto 10.
Qed.

Lemma session_exec_inv {A} (q : Tables -> A) w r w' :
  session_exec q w = (r, w') ->
  only_faults w w' /\ (forall a, r = Ok a -> a = q (working w)).
Proof.
  unfold session_exec, bind. destruct (round_trip w) as [[u|e] w1] eqn:E1.
  - intros E. inversion E; subst. apply round_trip_inv in E1.
    split; [exact E1|]. intros a Ha. inversion Ha.
    destruct E1 as (_ & Hw & _). now rewrite Hw.
  - intros E. inversion E; subst. apply round_trip_inv in E1.
    split; [exact E1 | discriminate].
Qed.

Lemma wrap_sql_inv {A} message e w (r : result A) w' :
  wrap_sql message e w = (r, w') -> w' = w /\ exists e', r = Raise e'.
Proof.
  unfold wrap_sql, raise. destruct e; intros E; inversion E; eauto.
Qed.

Lemma execute_raw_inv {A} (q : Tables -> A) w r w' :
  execute_raw q w = (r, w') ->
  only_faults w w' /\ (forall a, r = Ok a -> a = q (working w)).
Proof.
  unfold execute_raw, try_except.
  destruct (session_exec q w) as [[a|e] w1] eqn:E1; intros E.
  - inversion E; subst. exact (session_exec_inv _ _ _ _ E1).
  - apply wrap_sql_inv in E as [-> [e' ->]].
    split; [exact (proj1 (session_exec_inv _ _ _ _ E1)) | discriminate].
Qed.

Lemma find_one_inv {R} (table : Tables -> list R) p w r w' :
  find_one_by_and_none table p w = (r, w') ->
  only_faults w w'
  /\ (forall x, r = Ok (Some x) -> List.filter p (table (working w)) = [x])
  /\ (r = Ok None -> List.filter p (table (working w)) = []).
Proof.
  unfold find_one_by_and_none, try_except, bind.
  destruct (session_exec _ w) as [[rows|e] w1] eqn:E1.
  - destruct (session_exec_inv _ _ _ _ E1) as [Hof Hrows].
    specialize (Hrows rows eq_refl). subst rows.
    unfold lift, one_or_none.
    destruct (List.filter p (table (working w))) as [|x [|y l]]; intros E.
    + inversion E; subst. split; [exact Hof | split; [discriminate | reflexivity]].
    + inversion E; subst. split; [exact Hof | split; [|discriminate]].
      intros x' Hx; now inversion Hx.
    + apply wrap_sql_inv in E as [-> [e' ->]].
      split; [exact Hof | split; discriminate].
  - intros E. apply wrap_sql_inv in E as [-> [e' ->]].
    split; [exact (proj1 (session_exec_inv _ _ _ _ E1)) | split; discriminate].
Qed.

Lemma apply_writes_frame' objs w r w' :
  apply_writes objs w = (r, w') ->
  frame w w' /\ pending w' = pending w /\ faults w' = faults w.
Proof.
  intros E. apply apply_writes_frame in E as [(?&?&?&?&?) ?].
  unfold frame. auto 10.
Qed.

Lemma session_flush_inv w r w' :
  session_flush w = (r, w') ->
  frame w w'
  /\ (r = Ok tt ->
      exists w0, only_faults w w0
                 /\ apply_writes (pending w) (with_pending [] w0) = (Ok tt, w')).
Proof.
  unfold session_flush, bind.
  destruct (round_trip w) as [[u|e] w0] eqn:E0; intros E.
  - apply round_trip_inv in E0.
    destruct (apply_writes_frame' _ _ _ _ E) as (F & _).
    split.
    + apply (frame_trans _ w0); [auto with tx|].
      destruct F as (?&?&?&?). unfold frame. cbn in *. auto.
    + intros ->. exists w0. split; [exact E0|].
      destruct E0 as (_ & _ & Hp & _). now rewrite <- Hp.
  - inversion E; subst. apply round_trip_inv in E0.
    split; [auto with tx | discriminate].
Qed.

Lemma session_refresh_inv {R} (row_of : Tables -> option R) w r w' :
  session_refresh row_of w = (r, w') ->
  only_faults w w' /\ (forall x, r = Ok x -> row_of (working w') = Some x).
Proof.
  unfold session_refresh, bind.
  destruct (round_trip w) as [[u|e] w0] eqn:E0; intros E.
  - apply round_trip_inv in E0.
    destruct (row_of (working w0)) as [x|] eqn:Hx; inversion E; subst.
    + split; [exact E0|]. intros y Hy. inversion Hy; subst. exact Hx.
    + split; [exact E0 | discriminate].
  - inversion E; subst. apply round_trip_inv in E0.
    split; [exact E0 | discriminate].
Qed.

(** Inside a transaction [save_changes] flushes and never commits. *)
Lemma save_changes_inv {R} (row_of : Tables -> option R) w r w' :
  0 < transaction_level w ->
  save_changes row_of w = (r, w') ->
  frame w w'
  /\ (forall x, r = Ok x ->
      exists w0 w1,
        only_faults w w0
        /\ apply_writes (pending w) (with_pending [] w0) = (Ok tt, w1)
        /\ only_faults w1 w'
        /\ row_of (working w') = Some x).
Proof.
  intros Hl. unfold save_changes, bind, in_transaction.
  apply Nat.ltb_lt in Hl. rewrite Hl.
  destruct (session_flush w) as [[[]|e] w1] eqn:E1; intros E.
  - destruct (session_flush_inv _ _ _ E1) as [F1 H1].
    destruct (H1 eq_refl) as (w0 & Hof & Hw).
    destruct (session_refresh_inv _ _ _ _ E) as [Hof' Hrow].
    split; [apply (frame_trans _ w1); auto with tx|].
    intros x ->. exists w0, w1. auto.
  - inversion E; subst.
    split; [exact (proj1 (session_flush_inv _ _ _ E1)) | discriminate].
Qed.

Lemma bind_inv {A B} (c : M A) (k : A -> M B) w r w' :
  bind c k w = (r, w') ->
  (exists a w1, c w = (Ok a, w1) /\ k a w1 = (r, w'))
  \/ (exists e, c w = (Raise e, w') /\ r = Raise e).
Proof.
  unfold bind. destruct (c w) as [[a|e] w1]; intros E.
  - left. eauto.
  - right. inversion E; subst. eauto.
Qed.

Lemma try_except_inv {A} (c : M A) h w r w' :
  translates h ->
  try_except c h w = (r, w') ->
  exists r0, c w = (r0, w') /\ (forall a, r = Ok a -> r0 = Ok a).
Proof.
  intros Hh. unfold try_except. destruct (c w) as [[a|e] w1]; intros E.
  - inversion E; subst. eauto.
  - destruct (Hh e w1) as [e' He]. rewrite He in E. inversion E; subst.
    eexists. split; [reflexivity | discriminate].
Qed.

Lemma wrap_sql_translates {A} message : translates (@wrap_sql A message).
Proof. intros e w. unfold wrap_sql, raise. destruct e; eauto. Qed.

Lemma has_h3_index_false h t :
  has_h3_index h t = false ->
  List.filter (fun b => (h3_index b =? h)%Z) (geo_buckets t) = [].
Proof.
  unfold has_h3_index. induction (geo_buckets t) as [|x l IH]; [reflexivity|].
  cbn. destruct (h3_index x =? h)%Z; [discriminate | exact IH].
Qed.

Lemma has_prop_id_false i t :
  has_prop_id i t = false ->
  List.filter (fun p => prop_id p =? i) (properties t) = [].
Proof.
  unfold has_prop_id. induction (properties t) as [|x l IH]; [reflexivity|].
  cbn. destruct (prop_id x =? i); [discriminate | exact IH].
Qed.

Lemma create_bucket_inv schema w r w' :
  0 < transaction_level w ->
  pending w = [] ->
  create_bucket schema w = (r, w') ->
  frame w w'
  /\ (forall b, r = Ok b ->
      b = set_id (bucket_id_seq w) schema
      /\ geo_buckets (working w') = geo_buckets (working w) ++ [b]
      /\ properties (working w') = properties (working w)
      /\ pending w' = []
      /\ List.filter (fun x => (h3_index x =? h3_index schema)%Z)
                     (geo_buckets (working w)) = []).
Proof.
  intros Hl Hp E. unfold create_bucket in E.
  apply try_except_inv in E as (r0 & E & Hr0); [|apply wrap_sql_translates].
  unfold bind, session_add in E.
  set (wa := with_pending (pending w ++ [InsertBucket schema]) w) in E.
  apply save_changes_inv in E as [F Hok]; [|exact Hl].
  split; [exact F|].
  intros b Hb. specialize (Hr0 b Hb). subst r0.
  destruct (Hok b eq_refl) as (w0 & w1 & Hof0 & Hw & Hof1 & Hrow).
  subst wa. cbn in Hw, Hof0. rewrite Hp in Hw. cbn in Hw.
  destruct Hof0 as (_ & Hwk0 & _ & Hseq0 & _). cbn in Hwk0, Hseq0.
  unfold apply_write in Hw. cbn in Hw. rewrite Hwk0 in Hw.
  destruct (has_h3_index (h3_index schema) (working w)) eqn:Hh; [discriminate|].
  apply has_h3_index_false in Hh.
  inversion Hw; subst w1. clear Hw.
  destruct Hof1 as (_ & Hwk1 & Hp1 & _). cbn in Hwk1, Hp1.
  rewrite Hseq0 in *.
  assert (Hfind : b = set_id (bucket_id_seq w) schema).
  { unfold bucket_by_h3 in Hrow. rewrite Hwk1 in Hrow. cbn in Hrow.
    destruct (filter_app_miss (fun x => (h3_index x =? h3_index schema)%Z)
                (geo_buckets (working w)) (set_id (bucket_id_seq w) schema) Hh)
      as [_ Hf]; [cbn; apply Z.eqb_refl|].
    rewrite Hf in Hrow. now inversion Hrow. }
  subst b. rewrite Hwk1, Hp1. cbn. auto.
Qed.

Lemma create_property_row_inv schema w r w' :
  0 < transaction_level w ->
  pending w = [] ->
  create_property_row schema w = (r, w') ->
  frame w w'
  /\ (forall p, r = Ok p ->
      p = schema (ulid_seq w)
      /\ properties (working w') = properties (working w) ++ [p]
      /\ geo_buckets (working w') = geo_buckets (working w)
      /\ pending w' = []).
Proof.
  intros Hl Hp E. unfold create_property_row in E.
  apply try_except_inv in E as (r0 & E & Hr0); [|apply wrap_sql_translates].
  unfold bind, new_ulid, session_add in E. cbv beta iota in E.
  match type of E with
  | save_changes _ ?x = _ => set (wa := x) in E
  end.
  apply save_changes_inv in E as [F Hok]; [|exact Hl].
  split; [exact F|].
  intros p Hpr. specialize (Hr0 p Hpr). subst r0.
  destruct (Hok p eq_refl) as (w0 & w1 & Hof0 & Hw & Hof1 & Hrow).
  subst wa. cbn in Hw, Hof0. rewrite Hp in Hw. cbn in Hw.
  destruct Hof0 as (_ & Hwk0 & _). cbn in Hwk0.
  unfold apply_write in Hw. cbn in Hw. rewrite Hwk0 in Hw.
  set (db_obj := schema (ulid_seq w)) in *.
  destruct (has_prop_id (prop_id db_obj) (working w)) eqn:Hh; [discriminate|].
  cbn in Hw.
  destruct (match geo_bucket_id db_obj with
            | Some i => negb (has_bucket_id i (working w))
            | None => false
            end); [discriminate|].
  apply has_prop_id_false in Hh.
  inversion Hw; subst w1. clear Hw.
  destruct Hof1 as (_ & Hwk1 & Hp1 & _). cbn in Hwk1, Hp1.
  assert (Hfind : p = db_obj).
  { unfold property_by_id in Hrow. rewrite Hwk1 in Hrow. cbn in Hrow.
    destruct (filter_app_miss (fun x => prop_id x =? prop_id db_obj)
                (properties (working w)) db_obj Hh) as [_ Hf];
      [apply Nat.eqb_refl|].
    rewrite Hf in Hrow. now inversion Hrow. }
  subst p. rewrite Hwk1, Hp1. cbn. auto.
Qed.

End TransactionFacts.



(* ===================================================================== *)
(** * Listing ingestion: [create_property] and
      [create_property_if_not_exists] *)
(* ===================================================================== *)

Module IngestionFacts.
Import Str Py Models Database External Repository DatabaseFacts TransactionFacts.
Import Views.
Import ResolverFacts CounterFacts.

Section Facts.
Context `{H3 : H3Library} `{PG : Postgres}.
Variable order : list ascii.

Lemma service_handlers_translate {A} failed unexpected :
  translates (@GeoBucketService.handlers A failed unexpected).
Proof.
  intros e w. unfold GeoBucketService.handlers, raise. destruct e; eauto.
Qed.

Lemma property_handlers_translate {A} : translates (@PropertyService.handlers A).
Proof.
  intros e w. unfold PropertyService.handlers, raise. destruct e; eauto.
Qed.

Lemma lift_inv {A} (x : result A) w r w' : lift x w = (r, w') -> r = x /\ w' = w.
Proof. unfold lift. intros E. now inversion E. Qed.

(** A resolution inside a transaction returns a stored bucket: one
    that was there, or the one it appended with a count of zero. *)
Lemma find_or_create_inv h name norm parent w r w' :
  0 < transaction_level w ->
  pending w = [] ->
  GeoBucketService.find_or_create_bucket h name norm parent w = (r, w') ->
  frame w w'
  /\ (forall b, r = Ok b ->
      properties (working w') = properties (working w)
      /\ pending w' = []
      /\ ((geo_buckets (working w') = geo_buckets (working w)
           /\ In b (geo_buckets (working w)))
          \/ (geo_buckets (working w') = geo_buckets (working w) ++ [b]
              /\ property_count b = 0%Z
              /\ id b = bucket_id_seq w))).
Proof.
  intros Hl Hp E. unfold GeoBucketService.find_or_create_bucket in E.
  apply try_except_inv in E as (r0 & E & Hr0);
    [|apply service_handlers_translate].
  apply bind_inv in E as [(found & w1 & E1 & E) | (e & E1 & ->)].
  2:{ split; [exact (only_faults_frame _ _ (proj1 (find_one_inv _ _ _ _ _ E1)))|].
      intros b Hb. now specialize (Hr0 b Hb). }
  destruct (find_one_inv _ _ _ _ _ E1) as (Hof1 & Hsome & Hnone).
  assert (Hof1' := Hof1).
  destruct Hof1' as (F1 & Hwk1 & Hp1 & Hseq1 & _).
  destruct found as [bucket|].
  { unfold ret, GeoBucketService.from_model in E. inversion E; subst.
    split; [exact F1|]. intros b Hb. specialize (Hr0 b Hb).
    inversion Hr0; subst. rewrite Hwk1, Hp1. repeat split; auto.
    left. split; [reflexivity|].
    specialize (Hsome b eq_refl).
    assert (Hin : In b (List.filter (fun b0 => (h3_index b0 =? h)%Z)
                                    (geo_buckets (working w))))
      by (rewrite Hsome; now left).
    now apply List.filter_In in Hin. }
  apply bind_inv in E as [(neighbors & w2 & E2 & E) | (e & E2 & ->)].
  2:{ apply lift_inv in E2 as [_ ->]. split; [exact F1|].
      intros b Hb. now specialize (Hr0 b Hb). }
  apply lift_inv in E2 as [_ ->].
  apply bind_inv in E as [(rows & w3 & E3 & E) | (e & E3 & ->)].
  2:{ destruct (execute_raw_inv _ _ _ _ E3) as [Hof3 _].
      split; [apply (frame_trans _ w1); auto with tx|].
      intros b Hb. now specialize (Hr0 b Hb). }
  destruct (execute_raw_inv _ _ _ _ E3) as [Hof3 Hrows].
  specialize (Hrows rows eq_refl).
  assert (Hof13 := only_faults_trans _ _ _ Hof1 Hof3).
  destruct Hof13 as (F3 & Hwk3 & Hp3 & Hseq3 & _).
  destruct rows as [|bucket rows].
  2:{ unfold ret, GeoBucketService.from_model in E. inversion E; subst r0 w'.
      split; [exact F3|]. intros b Hb. specialize (Hr0 b Hb).
      inversion Hr0; subst bucket. rewrite Hwk3, Hp3. repeat split; auto.
      left. split; [reflexivity|].
      assert (Hin : In b (b :: rows)) by now left.
      rewrite Hrows in Hin. apply List.filter_In in Hin as [Hin _].
      destruct Hof1 as (_ & Hw & _). now rewrite Hw in Hin. }
  apply bind_inv in E as [(geometry & w4 & E4 & E) | (e & E4 & ->)].
  2:{ apply lift_inv in E4 as [_ ->]. split; [exact F3|].
      intros b Hb. now specialize (Hr0 b Hb). }
  apply lift_inv in E4 as [_ ->].
  destruct geometry as [center_wkt hexagon_wkt].
  apply bind_inv in E as [(bucket & w5 & E5 & E) | (e & E5 & ->)].
  + unfold ret, GeoBucketService.from_model in E. inversion E; subst r0 w5.
    apply create_bucket_inv in E5 as [F5 Hok];
      [| destruct F3 as (_&_&_&Hlv); rewrite Hlv; exact Hl
       | rewrite Hp3; exact Hp].
    split; [apply (frame_trans _ w3); auto|].
    intros b Hb. specialize (Hr0 b Hb). inversion Hr0; subst bucket.
    destruct (Hok b eq_refl) as (Hbe & Hbk & Hpr & Hpe & _).
    rewrite Hpr, Hbk, Hwk3. repeat split; auto.
    right. split; [reflexivity|]. rewrite Hbe, Hseq3. cbn. auto.
  + apply create_bucket_inv in E5 as [F5 _];
      [| destruct F3 as (_&_&_&Hlv); rewrite Hlv; exact Hl
       | rewrite Hp3; exact Hp].
    split; [apply (frame_trans _ w3); auto|].
    intros b Hb. now specialize (Hr0 b Hb).
Qed.

Lemma increment_inv i w r w' :
  0 < transaction_level w ->
  pending w = [] ->
  GeoBucketService.increment_property_count i w = (r, w') ->
  frame w w'
  /\ (r = Ok tt ->
      (exists b0, id_rows i w = [b0])
      /\ geo_buckets (working w') = incremented i (geo_buckets (working w))
      /\ properties (working w') = properties (working w)
      /\ pending w' = []).
Proof.
  intros Hl Hp E. unfold GeoBucketService.increment_property_count in E.
  apply try_except_inv in E as (r0 & E & Hr0);
    [|apply service_handlers_translate].
  apply bind_inv in E as [(found & w1 & E1 & E) | (e & E1 & ->)].
  2:{ split; [exact (only_faults_frame _ _ (proj1 (find_one_inv _ _ _ _ _ E1)))|].
      intros Hb. now specialize (Hr0 tt Hb). }
  destruct (find_one_inv _ _ _ _ _ E1) as (Hof1 & Hsome & Hnone).
  destruct Hof1 as (F1 & Hwk1 & Hp1 & Hseq1 & _).
  destruct found as [b0|].
  2:{ unfold raise in E. inversion E; subst. split; [exact F1|].
      intros Hb. now specialize (Hr0 tt Hb). }
  specialize (Hsome b0 eq_refl). fold (id_rows i w) in Hsome.
  destruct (update_single i b0 _ Hsome) as [Hmap Hfind].
  assert (Hb0 : id b0 = i).
  { assert (Hin : In b0 (id_rows i w)) by (rewrite Hsome; now left).
    apply List.filter_In in Hin as [_ Hin]. now apply Z.eqb_eq in Hin. }
  unfold bind, session_add in E.
  set (b' := set_property_count (property_count b0 + 1) b0) in *.
  match type of E with
  | context [save_changes _ ?x] => set (wa := x) in E
  end.
  destruct (save_changes (bucket_by_id (id b')) wa) as [[x|e] w2] eqn:E2.
  2:{ inversion E; subst.
      apply save_changes_inv in E2 as [F2 _];
        [| subst wa; cbn; destruct F1 as (_&_&_&Hlv); rewrite Hlv; exact Hl].
      split; [apply (frame_trans _ w1); [exact F1|]|].
      - destruct F2 as (?&?&?&?). unfold frame. subst wa. cbn in *. auto.
      - intros Hb. now specialize (Hr0 tt Hb). }
  unfold ret in E. inversion E; subst r0 w2. clear E.
  apply save_changes_inv in E2 as [F2 Hok];
    [| subst wa; cbn; destruct F1 as (_&_&_&Hlv); rewrite Hlv; exact Hl].
  split.
  { apply (frame_trans _ w1); [exact F1|].
    destruct F2 as (?&?&?&?). unfold frame. subst wa. cbn in *. auto. }
  intros _. split; [eauto|].
  destruct (Hok x eq_refl) as (w0 & w3 & Hof0 & Hw & Hof3 & _).
  subst wa. cbn in Hw, Hof0. rewrite Hp1, Hp in Hw. cbn in Hw.
  destruct Hof0 as (_ & Hwk0 & _). cbn in Hwk0.
  inversion Hw; subst w3. clear Hw.
  destruct Hof3 as (_ & Hwk3 & Hp3 & _). cbn in Hwk3, Hp3.
  rewrite Hwk3, Hp3, Hwk0, Hwk1. subst b'. cbn. rewrite Hmap. auto.
Qed.

Lemma from_values_inv (p : Property) (read : Read.PropertyRead) :
  Read.from_values p = Ok read ->
  Read.id read = prop_id p /\ Read.title read = title p.
Proof.
  unfold Read.from_values, Read.build.
  destruct (H3Utils.extract_lat_lng_from_geometry (coordinates p)) as [lat lng].
  destruct (Request.valid_latitude lat && Request.valid_longitude lng).
  - intros E. inversion E. auto.
  - destruct (H3Utils.get_lat_lng_from_h3 _) as [[lat' lng']|e]; [|discriminate].
    destruct (Request.valid_latitude lat' && Request.valid_longitude lng');
      intros E; inversion E. auto.
Qed.

Lemma find_hd_filter {R} (p : R -> bool) (l : list R) :
  List.find p l = hd_error (List.filter p l).
Proof.
  induction l as [|x l IH]; [reflexivity|]. cbn. now destruct (p x).
Qed.

Lemma ingest_inv payload w r w' :
  0 < transaction_level w ->
  pending w = [] ->
  PropertyService.ingest order payload w = (r, w') ->
  frame w w'
  /\ (forall read, r = Ok read ->
      pending w' = []
      /\ stored_with_counted_bucket payload read (working w) (working w')).
Proof.
  intros Hl Hp E. unfold PropertyService.ingest in E.
  apply bind_inv in E as [(ix & w0 & E0 & E) | (e & E0 & ->)].
  2:{ apply lift_inv in E0 as [_ ->]. split; [auto with tx | discriminate]. }
  apply lift_inv in E0 as [_ ->].
  apply bind_inv in E as [(bucket & w1 & E1 & E) | (e & E1 & ->)].
  2:{ apply find_or_create_inv in E1 as [F1 _]; [|exact Hl|exact Hp].
      split; [exact F1 | discriminate]. }
  apply find_or_create_inv in E1 as [F1 H1]; [|exact Hl|exact Hp].
  destruct (H1 bucket eq_refl) as (Hpr1 & Hp1 & Hbk1).
  assert (Hl1 : 0 < transaction_level w1).
  { destruct F1 as (_&_&_&Hlv). now rewrite Hlv. }
  apply bind_inv in E as [(p & w2 & E2 & E) | (e & E2 & ->)].
  2:{ apply create_property_row_inv in E2 as [F2 _]; [|exact Hl1|exact Hp1].
      split; [exact (frame_trans _ _ _ F1 F2) | discriminate]. }
  apply create_property_row_inv in E2 as [F2 H2]; [|exact Hl1|exact Hp1].
  destruct (H2 p eq_refl) as (Hpe & Hpr2 & Hbk2 & Hp2).
  assert (Hl2 : 0 < transaction_level w2).
  { destruct F2 as (_&_&_&Hlv). now rewrite Hlv. }
  apply bind_inv in E as [([] & w3 & E3 & E) | (e & E3 & ->)].
  2:{ apply increment_inv in E3 as [F3 _]; [|exact Hl2|exact Hp2].
      split; [exact (frame_trans _ _ _ (frame_trans _ _ _ F1 F2) F3)
             | discriminate]. }
  apply increment_inv in E3 as [F3 H3']; [|exact Hl2|exact Hp2].
  destruct (H3' eq_refl) as ([b0 Hb0] & Hbk3 & Hpr3 & Hp3).
  apply lift_inv in E as [-> ->].
  split; [exact (frame_trans _ _ _ (frame_trans _ _ _ F1 F2) F3)|].
  intros read Hread. inversion Hread as [Hfv]. clear Hread.
  apply from_values_inv in Hfv as [Hid Htitle].
  split; [exact Hp3|].
  (* the resolved bucket is the one row with its key *)
  assert (Hin2 : In bucket (geo_buckets (working w2))).
  { rewrite Hbk2. destruct Hbk1 as [[-> Hin] | [-> _]]; [exact Hin|].
    apply in_or_app. right. now left. }
  assert (Hb0' : b0 = bucket).
  { assert (Hin : In bucket (id_rows (id bucket) w2)).
    { apply List.filter_In. split; [exact Hin2 | apply Z.eqb_refl]. }
    rewrite Hb0 in Hin. destruct Hin as [-> | []]. reflexivity. }
  subst b0.
  exists p, (set_property_count (property_count bucket + 1) bucket).
  rewrite Hpr3, Hpr2, Hpr1, Hbk3.
  split; [reflexivity|]. split; [now rewrite Hid|].
  split; [now rewrite Hpe|].
  split; [now rewrite Hpe|].
  split.
  { apply in_map_iff. exists bucket. split; [|exact Hin2].
    now rewrite Z.eqb_refl. }
  cbn [property_count id set_property_count]. f_equal.
  unfold count_before, bucket_by_id. rewrite find_hd_filter.
  unfold id_rows in Hb0. rewrite Hbk2 in Hb0.
  destruct Hbk1 as [[Hsame _] | [Happ [Hzero _]]].
  - rewrite Hsame in Hb0. now rewrite Hb0.
  - rewrite Happ, List.filter_app in Hb0. cbn in Hb0.
    rewrite Z.eqb_refl in Hb0.
    destruct (List.filter (fun b => (id b =? id bucket)%Z)
                          (geo_buckets (working w))) as [|x l].
    + cbn. now rewrite Hzero.
    + exfalso. cbn in Hb0. inversion Hb0 as [[Hx Hl']].
      destruct l; discriminate.
Qed.

End Facts.
End IngestionFacts.



(* ===================================================================== *)
(** * The outermost transaction of the ingestion methods *)
(* ===================================================================== *)

Module AtomicityFacts.
Import Str Py Models Database External Repository DatabaseFacts TransactionFacts.
Import Views.
Import IngestionFacts.

Lemma session_commit_inv w r w' :
  session_commit w = (r, w') ->
  transaction_level w' = transaction_level w
  /\ rollbacks w' = rollbacks w
  /\ (pending w = [] -> working w' = working w)
  /\ match r with
     | Ok _ => commits w' = S (commits w) /\ database w' = working w'
     | Raise _ => database w' = database w /\ commits w' = commits w
     end.
Proof.
  unfold session_commit, bind.
  destruct (session_flush w) as [[[]|e] w1] eqn:E1.
  - destruct (session_flush_inv _ _ _ E1) as [(Hd1 & Hc1 & Hr1 & Hl1) Hok].
    destruct (Hok eq_refl) as (w0 & Hof0 & Hw).
    assert (Hwk : pending w = [] -> working w1 = working w).
    { intros Hp. rewrite Hp in Hw. cbn in Hw. inversion Hw; subst w1. cbn.
      now destruct Hof0 as (_ & ? & _). }
    destruct (round_trip w1) as [[[]|e] w2] eqn:E2; intros E;
      inversion E; subst; apply round_trip_inv in E2;
      destruct E2 as ((Hd2 & Hc2 & Hr2 & Hl2) & Hw2 & _); cbn.
    + repeat split; try congruence. intros Hp. rewrite Hw2. auto.
    + repeat split; try congruence. intros Hp. rewrite Hw2. auto.
  - intros E. inversion E; subst.
    destruct (session_flush_inv _ _ _ E1) as [(Hd1 & Hc1 & Hr1 & Hl1) _].
    repeat split; try congruence.
    intros Hp. revert E1. unfold session_flush, bind.
    destruct (round_trip w) as [[[]|e'] w0] eqn:E0.
    + apply round_trip_inv in E0 as (_ & Hw0 & Hp0 & _).
      rewrite Hp0, Hp. cbn. intros E1. inversion E1.
    + apply round_trip_inv in E0 as (_ & Hw0 & _).
      intros E1. inversion E1; subst. exact Hw0.
Qed.

Lemma round_trip_raises w e w' :
  round_trip w = (Raise e, w') -> exists s, e = SQLAlchemyError s.
Proof.
  unfold round_trip. destruct (faults w) as [|[s|] f]; intros E; inversion E; eauto.
Qed.

Lemma apply_writes_raises objs w e w' :
  apply_writes objs w = (Raise e, w') -> exists s, e = SQLAlchemyError s.
Proof.
  revert w. induction objs as [|obj objs IH]; intros w; cbn; [discriminate|].
  destruct (apply_write obj w) as [[[]|e0] w1] eqn:E1; [apply IH|].
  intros E. inversion E; subst. clear E. revert E1. unfold apply_write.
  destruct obj as [b|p|b].
  - destruct (has_h3_index _ _); intros E; inversion E; eauto.
  - destruct (has_prop_id _ _ || _); intros E; inversion E; eauto.
  - discriminate.
Qed.

Lemma session_commit_raises w e w' :
  session_commit w = (Raise e, w') -> exists s, e = SQLAlchemyError s.
Proof.
  unfold session_commit, session_flush, bind.
  destruct (round_trip w) as [[[]|e0] w0] eqn:E0.
  - destruct (apply_writes (pending w0) (with_pending [] w0)) as [[[]|e1] w1] eqn:E1.
    + destruct (round_trip w1) as [[[]|e2] w2] eqn:E2; [discriminate|].
      intros E. inversion E; subst. exact (round_trip_raises _ _ _ E2).
    + intros E. inversion E; subst. exact (apply_writes_raises _ _ _ _ E1).
  - intros E. inversion E; subst. exact (round_trip_raises _ _ _ E0).
Qed.

Section Facts.
Context `{H3 : H3Library} `{PG : Postgres}.
Variable order : list ascii.

Lemma property_handlers_raise {A} (c : M A) w e w' :
  try_except c PropertyService.handlers w = (Raise e, w') ->
  (exists message, e = AppException message) \/ e = RequestValidationError.
Proof.
  unfold try_except. destruct (c w) as [[a|e0] w1]; [discriminate|].
  unfold PropertyService.handlers, raise.
  destruct e0; intros E; inversion E; eauto.
Qed.

(** C4: [create_property], entered outside of any transaction on a
    session without uncommitted work, opens the outermost transaction.
    Whatever step of its body fails and whatever the store answers,
    the failure reaches the caller as an [AppException] (or a
    [RequestValidationError]) after exactly one rollback: the session
    is back on the committed rows with nothing pending, and the
    committed rows and the commit count are as they were, so neither a
    listing without its counted bucket nor a bucket without its
    listing becomes visible.  The one other failure is that of the
    final COMMIT itself, an [SQLAlchemyError], which commits nothing
    either.  A success commits exactly once, without a rollback, and
    the committed rows then hold the new listing together with its
    bucket, whose count went up by one. *)
Theorem create_property_is_atomic
        (payload : Request.PropertyCreateRequest) (w : World)
        (r : result Read.PropertyRead) (w' : World) :
  transaction_level w = 0 ->
  working w = database w ->
  pending w = [] ->
  PropertyService.create_property order payload w = (r, w') ->
  transaction_level w' = 0
  /\ match r with
     | Raise e =>
         database w' = database w /\ commits w' = commits w
         /\ ((((exists message, e = AppException message)
               \/ e = RequestValidationError)
              /\ rollbacks w' = S (rollbacks w)
              /\ working w' = database w
              /\ pending w' = [])
             \/ ((exists s, e = SQLAlchemyError s)
                 /\ rollbacks w' = rollbacks w))
     | Ok read =>
         commits w' = S (commits w)
         /\ rollbacks w' = rollbacks w
         /\ stored_with_counted_bucket payload read (database w) (database w')
     end.
Proof.
  intros Hl Hclean Hp E.
  unfold PropertyService.create_property, transactional, bind, in_transaction in E.
  rewrite Hl in E. cbn [Nat.ltb Nat.leb] in E.
  unfold Transaction in E. rewrite Hl in E. cbn [Nat.eqb] in E.
  destruct (try_except (PropertyService.ingest order payload)
                       PropertyService.handlers (with_level 1 w))
    as [[read|e] w1] eqn:Eb.
  - apply try_except_inv in Eb as (r0 & Eb & Hr0);
      [|apply property_handlers_translate].
    specialize (Hr0 read eq_refl). subst r0.
    apply ingest_inv in Eb as [(Hd & Hc & Hr & Hlv) Hok];
      [| cbn; lia | exact Hp].
    destruct (Hok read eq_refl) as (Hp1 & Hstored). cbn in *.
    destruct (session_commit w1) as [[[]|e] w2] eqn:Ec;
      inversion E; subst; cbn;
      destruct (session_commit_inv _ _ _ Ec) as (Hl2 & Hr2 & Hw2 & Hres).
    + split; [reflexivity|]. destruct Hres as [Hc2 Hd2].
      split; [congruence|]. split; [congruence|].
      rewrite Hd2, (Hw2 Hp1), <- Hclean. exact Hstored.
    + split; [reflexivity|]. destruct Hres as [Hd2 Hc2].
      split; [congruence|]. split; [congruence|]. right.
      split; [exact (session_commit_raises _ _ _ Ec) | congruence].
  - assert (He := property_handlers_raise _ _ _ _ Eb).
    apply try_except_inv in Eb as (r0 & Eb & _);
      [|apply property_handlers_translate].
    apply ingest_inv in Eb as [(Hd & Hc & Hr & Hlv) _];
      [| cbn; lia | exact Hp].
    cbn in Hd, Hc, Hr. cbn in E. inversion E; subst; cbn.
    split; [reflexivity|]. split; [exact Hd|]. split; [exact Hc|]. left.
    split; [exact He|]. split; [now rewrite Hr|]. split; [exact Hd | reflexivity].
Qed.

Lemma if_not_exists_body_inv payload w r w' :
  title_rows payload w <> [] ->
  if_not_exists_body order payload w = (r, w') ->
  only_faults w w'
  /\ (forall read, r = Ok read ->
      exists p, title_rows payload w = [p] /\ Read.from_values p = Ok read)
  /\ (faults w = [] ->
      forall p read,
        title_rows payload w = [p] -> Read.from_values p = Ok read ->
        r = Ok read).
Proof.
  intros Hrows E. unfold if_not_exists_body in E.
  assert (Hquiet : faults w = [] ->
            forall p read,
              title_rows payload w = [p] -> Read.from_values p = Ok read ->
              r = Ok read).
  { intros Hf p read Hp Hfv. revert E.
    unfold try_except, bind. rewrite (find_one_quiet _ _ _ Hf).
    fold (title_rows payload w). rewrite Hp. unfold lift. rewrite Hfv.
    intros E. now inversion E. }
  apply try_except_inv in E as (r0 & E & Hr0);
    [|apply property_handlers_translate].
  apply bind_inv in E as [(found & w1 & E1 & E) | (e & E1 & ->)].
  - destruct (find_one_inv _ _ _ _ _ E1) as (Hof & Hsome & Hnone).
    destruct found as [p|].
    + apply lift_inv in E as [-> ->].
      split; [exact Hof|]. split; [|exact Hquiet].
      intros read Hread. specialize (Hr0 read Hread).
      exists p. split; [exact (Hsome p eq_refl) | exact Hr0].
    + exfalso. apply Hrows. exact (Hnone eq_refl).
  - destruct (find_one_inv _ _ _ _ _ E1) as (Hof & _).
    split; [exact Hof|]. split; [|exact Hquiet].
    intros read Hread. now specialize (Hr0 read Hread).
Qed.



End Facts.
End AtomicityFacts.



(* ===================================================================== *)
(** * Interleaved callers of [increment_property_count] *)
(* ===================================================================== *)

Module ConcurrentFacts.
Import Models Concurrent.
Import Views.

Lemma find_row_id i rows b : find_row i rows = Some b -> id b = i.
Proof.
  unfold find_row. intros E. apply List.find_some in E as [_ E].
  now apply Z.eqb_eq in E.
Qed.

Lemma find_row_update i rows r b :
  find_row i rows = Some r -> id b = i ->
  find_row i (update_row b rows) = Some b.
Proof.
  unfold find_row, update_row. intros E Hb. subst i.
  induction rows as [|x rows IH]; [discriminate|]. cbn in *.
  destruct (Z.eqb_spec (id x) (id b)) as [Hx|Hx].
  - cbn. now rewrite Z.eqb_refl.
  - cbn. rewrite (proj2 (Z.eqb_neq _ _) Hx). now apply IH.
Qed.

Lemma count_of_update i rows c b :
  count_of i rows = Some c -> id b = i ->
  count_of i (update_row b rows) = Some (property_count b).
Proof.
  unfold count_of. intros E Hb.
  destruct (find_row i rows) as [r|] eqn:Er; [|discriminate].
  now rewrite (find_row_update i rows r b Er Hb).
Qed.

Lemma finished_le cs : finished cs <= length cs.
Proof. induction cs as [|c cs IH]; cbn; [lia|]. destruct (is_finished c); lia. Qed.

Lemma finished_all cs : forallb is_finished cs = true -> finished cs = length cs.
Proof.
  induction cs as [|c cs IH]; cbn; [reflexivity|].
  destruct (is_finished c); cbn; [|discriminate]. intros H. now rewrite IH.
Qed.

Lemma finished_insert cs j c c' :
  cs !! j = Some c ->
  finished (<[j := c']> cs) + (if is_finished c then 1 else 0)
  = finished cs + (if is_finished c' then 1 else 0).
Proof.
  revert j. induction cs as [|x cs IH]; intros j E; [discriminate|].
  destruct j as [|j]; simpl in *.
  - inversion E; subst. lia.
  - specialize (IH j E). lia.
Qed.

Section Invariant.
Variable i : Z.       (* the bucket every caller increments *)
Variable c0 : Z.      (* its count before the first caller starts *)

Lemma invariant_start rows n :
  count_of i rows = Some c0 -> invariant i c0 (start rows n).
Proof.
  intros Hc. unfold invariant, start. cbn.
  assert (Hrep : forall j c, replicate n NotStarted !! j = Some c -> c = NotStarted).
  { intros j c E. apply lookup_replicate in E. tauto. }
  assert (Hfin : finished (replicate n NotStarted) = 0).
  { induction n as [|n IH]; cbn; [reflexivity|]. apply IH.
    intros j c E. apply (Hrep (S j)). exact E. }
  rewrite Hfin. split; [|split].
  - exists c0. split; [exact Hc|]. split; lia.
  - intros j b E. apply Hrep in E. discriminate.
  - intros j E. apply Hrep in E. discriminate.
Qed.

Lemma invariant_step s j : invariant i c0 s -> invariant i c0 (step i s j).
Proof.
  intros ((k & Hk & Hrange & Hlow) & Hloaded & Hnf). unfold step.
  destruct (callers s !! j) as [[|b| |]|] eqn:Ej;
    [| | split; eauto | split; eauto | split; eauto].
  - (* the caller loads the bucket *)
    unfold count_of in Hk.
    destruct (find_row i (rows s)) as [b|] eqn:Eb; [|discriminate].
    cbn in Hk. inversion Hk; subst k.
    assert (Hfin : finished (<[j := Loaded b]> (callers s)) = finished (callers s)).
    { pose proof (finished_insert _ j _ (Loaded b) Ej) as H. cbn in H. lia. }
    unfold invariant. cbn [rows callers]. rewrite Hfin. split; [|split].
    + exists (property_count b). unfold count_of. rewrite Eb. auto.
    + intros j' b' E'. destruct (decide (j = j')) as [<-|Hne].
      * rewrite list_lookup_insert_eq in E' by (eapply lookup_lt_Some; eauto).
        inversion E'; subst b'. split; [exact (find_row_id _ _ _ Eb) | exact Hrange].
      * rewrite list_lookup_insert_ne in E' by exact Hne. eauto.
    + intros j' E'. destruct (decide (j = j')) as [<-|Hne].
      * rewrite list_lookup_insert_eq in E' by (eapply lookup_lt_Some; eauto).
        discriminate.
      * rewrite list_lookup_insert_ne in E' by exact Hne. exact (Hnf j' E').
  - (* the caller writes its copy plus one *)
    destruct (Hloaded j b Ej) as [Hid Hb].
    assert (Hfin : finished (<[j := Finished]> (callers s))
                   = S (finished (callers s))).
    { pose proof (finished_insert _ j _ Finished Ej) as H. cbn in H. lia. }
    unfold invariant. cbn [rows callers]. rewrite Hfin. split; [|split].
    + exists (property_count b + 1)%Z. split.
      * apply (count_of_update i (rows s) k); [exact Hk | exact Hid].
      * split; lia.
    + intros j' b' E'. destruct (decide (j = j')) as [<-|Hne].
      * rewrite list_lookup_insert_eq in E' by (eapply lookup_lt_Some; eauto).
        discriminate.
      * rewrite list_lookup_insert_ne in E' by exact Hne.
        destruct (Hloaded j' b' E') as [? ?]. split; [assumption | lia].
    + intros j' E'. destruct (decide (j = j')) as [<-|Hne].
      * rewrite list_lookup_insert_eq in E' by (eapply lookup_lt_Some; eauto).
        discriminate.
      * rewrite list_lookup_insert_ne in E' by exact Hne. exact (Hnf j' E').
Qed.

Lemma invariant_run schedule s : invariant i c0 s -> invariant i c0 (run i schedule s).
Proof.
  revert s. induction schedule as [|j schedule IH]; intros s Hs; [exact Hs|].
  cbn. apply IH. now apply invariant_step.
Qed.

Lemma step_length s j : length (callers (step i s j)) = length (callers s).
Proof.
  unfold step. destruct (callers s !! j) as [[|b| |]|]; cbn; auto.
  - destruct (find_row i (rows s)); cbn; now rewrite length_insert.
  - now rewrite length_insert.
Qed.

Lemma run_length schedule s :
  length (callers (run i schedule s)) = length (callers s).
Proof.
  revert s. induction schedule as [|j schedule IH]; intros s; [reflexivity|].
  cbn. unfold run in IH. rewrite IH. apply step_length.
Qed.

Lemma step_twice s j b :
  callers s !! j = Some NotStarted ->
  find_row i (rows s) = Some b ->
  step i (step i s j) j
  = {| rows := update_row (set_property_count (property_count b + 1) b) (rows s);
       callers := <[j := Finished]> (callers s) |}.
Proof.
  intros Hj Hb.
  assert (Hlen : j < length (callers s)) by (eapply lookup_lt_Some; eauto).
  assert (H1 : step i s j
               = {| rows := rows s; callers := <[j := Loaded b]> (callers s) |}).
  { unfold step. now rewrite Hj, Hb. }
  rewrite H1. unfold step. cbn [rows callers].
  rewrite list_lookup_insert_eq by exact Hlen.
  now rewrite list_insert_insert_eq.
Qed.

(** One caller after the other: every call adds one. *)
Lemma run_sequential m : forall j rows c,
  count_of i rows = Some c ->
  let s' := run i (sequential_from j m)
                {| rows := rows;
                   callers := replicate j Finished ++ replicate m NotStarted |} in
  count_of i (Concurrent.rows s') = Some (c + Z.of_nat m)%Z
  /\ callers s' = replicate (j + m) Finished.
Proof.
  induction m as [|m IH]; intros j rows c Hc; cbn zeta.
  - cbn. rewrite app_nil_r, Nat.add_0_r, Z.add_0_r. auto.
  - cbn [sequential_from run fold_left].
    assert (Hj : (replicate j Finished ++ replicate (S m) NotStarted) !! j
                 = Some NotStarted).
    { rewrite lookup_app_r by (rewrite length_replicate; lia).
      rewrite length_replicate, Nat.sub_diag. reflexivity. }
    unfold count_of in Hc.
    destruct (find_row i rows) as [b|] eqn:Eb; [|discriminate].
    cbn in Hc. inversion Hc; subst c.
    rewrite (step_twice _ j b) by (cbn [callers Concurrent.rows]; assumption).
    cbn [callers Concurrent.rows].
    assert (Hcs : <[j := Finished]> (replicate j Finished ++ replicate (S m) NotStarted)
                  = replicate (S j) Finished ++ replicate m NotStarted).
    { rewrite insert_app_r_alt by (rewrite length_replicate; lia).
      rewrite length_replicate, Nat.sub_diag. simpl.
      clear. induction j as [|j IHj]; simpl; [reflexivity | now rewrite IHj]. }
    rewrite Hcs.
    set (b' := set_property_count (property_count b + 1) b).
    assert (Hc' : count_of i (update_row b' rows) = Some (property_count b + 1)%Z).
    { apply (count_of_update i rows (property_count b)).
      - unfold count_of. now rewrite Eb.
      - exact (find_row_id _ _ _ Eb). }
    destruct (IH (S j) (update_row b' rows) _ Hc') as [H1 H2].
    fold (run i (sequential_from (S j) m)
              {| rows := update_row b' rows;
                 callers := replicate (S j) Finished ++ replicate m NotStarted |}).
    rewrite H1, H2. split; [f_equal; lia | f_equal; lia].
Qed.

End Invariant.

(** C3 (as the code has it): [n] invocations on a bucket that run one
    after the other leave its count increased by exactly [n]; the
    increment is a load followed by a write of the loaded count plus
    one, so that under an arbitrary interleaving of [n >= 1] invocations
    that all complete the count is increased by at least one and at
    most [n]. *)
Theorem increments_sequential_exact_interleaved_bounded
        (i : Z) (rows : list GeoBucket) (c0 : Z) (n : nat) :
  count_of i rows = Some c0 ->
  1 <= n ->
  (all_finished (run i (sequential n) (start rows n)) = true
   /\ count_of i (Concurrent.rows (run i (sequential n) (start rows n)))
      = Some (c0 + Z.of_nat n)%Z)
  /\ (forall schedule,
         all_finished (run i schedule (start rows n)) = true ->
         exists k,
           count_of i (Concurrent.rows (run i schedule (start rows n))) = Some k
           /\ (c0 + 1 <= k <= c0 + Z.of_nat n)%Z).
Proof.
  intros Hc Hn. split.
  - destruct (run_sequential i n 0 rows c0 Hc) as [H1 H2]. cbn zeta in H1, H2.
    cbn [replicate app] in H1, H2. unfold sequential, start.
    split; [|exact H1].
    unfold all_finished. rewrite H2. cbn.
    clear. induction n as [|n IH]; [reflexivity | exact IH].
  - intros schedule Hall.
    pose proof (invariant_run i c0 schedule _ (invariant_start i c0 rows n Hc))
      as ((k & Hk & Hrange & Hlow) & _).
    unfold all_finished in Hall. apply finished_all in Hall.
    rewrite run_length in Hall. cbn in Hall. rewrite length_replicate in Hall.
    rewrite Hall in *. exists k. split; [exact Hk|]. split; [|lia].
    apply Hlow. exact Hn.
Qed.

End ConcurrentFacts.



(* ===================================================================== *)
(** * The ratio of [difflib] for a string against itself *)
(* ===================================================================== *)

Module DifflibFacts.
Import Chars Str Difflib Diagonal.

Lemma eqc_refl c : eqc c c = true.
Proof. unfold eqc. apply Ascii.eqb_refl. Qed.

Lemma eqc_eq a b : eqc a b = true -> a = b.
Proof. unfold eqc. apply Ascii.eqb_eq. Qed.

Section Self.
Variable pop : ascii -> bool.
Variable x : text.

Lemma run_step j y :
  x !! j = Some y ->
  run_ending_at pop x j = if pop y then 0 else S (run_before pop x j).
Proof.
  intros H. unfold run_before. destruct j; cbn [run_ending_at]; now rewrite H.
Qed.

Lemma run_le j : run_ending_at pop x j <= S j.
Proof.
  induction j as [|j IH]; cbn [run_ending_at];
    destruct (x !! _) as [y|]; try lia; destruct (pop y); lia.
Qed.

(** The entries of a row of the table of [find_longest_match]. *)
Lemma row_nth c b prev diag j y :
  b !! j = Some y ->
  nth j (row pop c b prev diag) 0
  = if eqc c y && negb (pop y) then S (nth j (diag :: prev) 0) else 0.
Proof.
  revert prev diag j. induction b as [|z b IH]; intros prev diag j H;
    [discriminate|].
  destruct j as [|j]; cbn in H.
  - inversion H; subst. reflexivity.
  - cbn [row nth]. rewrite (IH _ _ _ H).
    replace (nth j (hd 0 prev :: tail prev) 0) with (nth j prev 0);
      [reflexivity|].
    destruct prev as [|p ps]; [now destruct j as [|[|j]]|reflexivity].
Qed.

Lemma row_length c b prev diag : length (row pop c b prev diag) = length b.
Proof.
  revert prev diag. induction b as [|z b IH]; intros; cbn; [reflexivity|].
  now rewrite IH.
Qed.

Lemma row_before_next i c prev :
  x !! i = Some c ->
  row_before pop x i prev ->
  row_before pop x (S i) (row pop c x prev 0)
  /\ (forall j, nth j (row pop c x prev 0) 0 <= run_ending_at pop x j)
  /\ (forall j, nth j (row pop c x prev 0) 0 <= run_ending_at pop x i)
  /\ nth i (row pop c x prev 0) 0 = run_ending_at pop x i.
Proof.
  intros Hi (H1 & H2 & H3).
  assert (B : (forall j, nth j (row pop c x prev 0) 0 <= run_ending_at pop x j)
              /\ (forall j, nth j (row pop c x prev 0) 0 <= run_ending_at pop x i)
              /\ nth i (row pop c x prev 0) 0 = run_ending_at pop x i).
  { split; [|split].
    - intros j. destruct (x !! j) as [y|] eqn:Hj.
      + rewrite (row_nth _ _ _ _ _ _ Hj), (run_step _ _ Hj).
        destruct (eqc c y); cbn [andb]; [|lia].
        destruct (pop y); cbn [negb]; [lia|].
        specialize (H1 j). lia.
      + rewrite nth_overflow; [lia|]. rewrite row_length.
        now apply lookup_ge_None.
    - intros j. destruct (x !! j) as [y|] eqn:Hj.
      + rewrite (row_nth _ _ _ _ _ _ Hj), (run_step _ _ Hi).
        destruct (eqc c y) eqn:E; cbn [andb]; [|lia].
        apply eqc_eq in E. subst y.
        destruct (pop c); cbn [negb]; [lia|].
        specialize (H2 j). lia.
      + rewrite nth_overflow; [lia|]. rewrite row_length.
        now apply lookup_ge_None.
    - rewrite (row_nth _ _ _ _ _ _ Hi), (run_step _ _ Hi), eqc_refl.
      cbn [andb]. destruct (pop c); cbn [negb]; [reflexivity|].
      now rewrite H3. }
  split; [|exact B]. destruct B as (B1 & B2 & B3).
  split; [|split].
  - intros [|j]; cbn [nth run_before]; [lia | apply B1].
  - intros [|j]; cbn [nth run_before]; [lia | apply B2].
  - cbn [nth run_before]. exact B3.
Qed.

Lemma scan_row_diagonal i rs j best :
  (forall t, nth t rs 0 <= run_ending_at pop x (j + t)) ->
  (forall t, nth t rs 0 <= run_ending_at pop x i) ->
  (forall t, j + t = i -> t < length rs -> nth t rs 0 = run_ending_at pop x i) ->
  (let '(bi, bj, bk) := best in
   bi = bj /\ bi + bk <= S i
   /\ (forall r, r < i -> run_ending_at pop x r <= bk)
   /\ (i < j -> run_ending_at pop x i <= bk)) ->
  let '(bi, bj, bk) := scan_row i j rs best in
  bi = bj /\ bi + bk <= S i
  /\ (forall r, r < i -> run_ending_at pop x r <= bk)
  /\ (i < j + length rs -> run_ending_at pop x i <= bk).
Proof.
  revert j best. induction rs as [|k rs IH]; intros j [[bi bj] bk] H1 H2 H3 Hb.
  - cbn [scan_row length]. rewrite Nat.add_0_r. exact Hb.
  - cbn [scan_row]. destruct Hb as (E & Hle & Hruns & Hpast).
    assert (K1 := H1 0). assert (K2 := H2 0). cbn [nth] in K1, K2.
    rewrite Nat.add_0_r in K1.
    assert (Hnext :
              let '(bi', bj', bk') :=
                (if bk <? k then (S i - k, S j - k, k) else (bi, bj, bk)) in
              bi' = bj' /\ bi' + bk' <= S i
              /\ (forall r, r < i -> run_ending_at pop x r <= bk')
              /\ (i < S j -> run_ending_at pop x i <= bk')).
    { destruct (Nat.ltb_spec bk k) as [Hlt|Hge].
      - assert (j = i).
        { destruct (Nat.lt_trichotomy j i) as [L|[L|L]]; [|exact L|].
          - specialize (Hruns j L). lia.
          - specialize (Hpast L). lia. }
        subst j. assert (Hk := H3 0 (Nat.add_0_r i)). cbn in Hk.
        specialize (Hk ltac:(lia)). subst k.
        assert (Hd := run_le i).
        split; [reflexivity|]. split; [lia|]. split; [|lia].
        intros r Hr. specialize (Hruns r Hr). lia.
      - split; [exact E|]. split; [exact Hle|]. split; [exact Hruns|].
        intros L. destruct (Nat.eq_dec j i) as [->|N]; [|apply Hpast; lia].
        assert (Hk := H3 0 (Nat.add_0_r i)). cbn in Hk.
        specialize (Hk ltac:(lia)). lia. }
    specialize (IH (S j) (if bk <? k then (S i - k, S j - k, k) else (bi, bj, bk))).
    cbn [length]. replace (j + S (length rs)) with (S j + length rs) by lia.
    apply IH.
    + intros t. specialize (H1 (S t)). cbn [nth] in H1.
      now replace (S j + t) with (j + S t) by lia.
    + intros t. exact (H2 (S t)).
    + intros t Ht Hlen. apply (H3 (S t)); cbn [length]; lia.
    + exact Hnext.
Qed.

Lemma longest_from_diagonal a i prev best :
  drop i x = a ->
  i <= length x ->
  row_before pop x i prev ->
  best_before pop x i best ->
  let '(bi, bj, bk) := longest_from pop i a x prev best in
  bi = bj /\ bi + bk <= length x.
Proof.
  revert i prev best. induction a as [|c a IH]; intros i prev best Hd Hi Hp Hb.
  - cbn [longest_from]. destruct best as [[bi bj] bk].
    destruct Hb as (E & Hle & _). split; [exact E | lia].
  - cbn [longest_from].
    assert (Hc : x !! i = Some c).
    { rewrite <- (Nat.add_0_r i), <- lookup_drop, Hd. reflexivity. }
    assert (Hlt : i < length x) by (apply lookup_lt_is_Some; eauto).
    destruct (row_before_next i c prev Hc Hp) as (Hp' & B1 & B2 & B3).
    apply IH.
    + replace (S i) with (i + 1) by lia. rewrite <- drop_drop, Hd. reflexivity.
    + lia.
    + exact Hp'.
    + destruct best as [[bi bj] bk]. destruct Hb as (E & Hle & Hruns).
      assert (Hscan := scan_row_diagonal i (row pop c x prev 0) 0 (bi, bj, bk)).
      cbn [Nat.add] in Hscan.
      specialize (Hscan B1 B2).
      destruct (scan_row i 0 (row pop c x prev 0) (bi, bj, bk)) as [[bi' bj'] bk'].
      destruct Hscan as (E' & Hle' & Hruns' & Hdiag).
      * intros t Ht _. subst t. exact B3.
      * split; [exact E|]. split; [lia|]. split; [exact Hruns | lia].
      * rewrite row_length in Hdiag.
        split; [exact E'|]. split; [exact Hle'|].
        intros r Hr. destruct (Nat.eq_dec r i) as [->|N].
        -- apply Hdiag. lia.
        -- apply Hruns'. lia.
Qed.

Lemma extend_left_diagonal fuel i k :
  i <= fuel -> i + k <= length x ->
  extend_left fuel x x (i, i, k) = (0, 0, i + k).
Proof.
  revert i k. induction fuel as [|fuel IH]; intros i k Hf Hl.
  - assert (i = 0) by lia. subst. reflexivity.
  - destruct i as [|i]; [reflexivity|].
    cbn [extend_left].
    destruct (x !! i) as [c|] eqn:Hc.
    + rewrite eqc_refl. rewrite IH by lia. f_equal. lia.
    + apply lookup_ge_None in Hc. lia.
Qed.

Lemma extend_right_diagonal fuel k :
  length x - k <= fuel -> k <= length x ->
  extend_right fuel x x (0, 0, k) = (0, 0, length x).
Proof.
  revert k. induction fuel as [|fuel IH]; intros k Hf Hl.
  - assert (k = length x) by lia. subst. reflexivity.
  - cbn [extend_right Nat.add].
    destruct (x !! k) as [c|] eqn:Hc.
    + rewrite eqc_refl. apply IH; [lia|].
      apply lookup_lt_Some in Hc. lia.
    + apply lookup_ge_None in Hc. f_equal. lia.
Qed.

Lemma find_longest_match_self :
  find_longest_match pop x x = (0, 0, length x).
Proof.
  unfold find_longest_match.
  assert (H := longest_from_diagonal x 0 [] (0, 0, 0)).
  destruct (longest_from pop 0 x x [] (0, 0, 0)) as [[bi bj] bk].
  destruct H as [E Hle].
  - reflexivity.
  - lia.
  - split; [|split].
    + intros [|[|j]]; cbn; lia.
    + intros [|[|j]]; cbn; lia.
    + reflexivity.
  - split; [reflexivity|]. split; [lia|]. intros r Hr. lia.
  - subst bj. rewrite extend_left_diagonal by lia.
    apply extend_right_diagonal; lia.
Qed.

End Self.

(** A string matches itself entirely, whatever characters the junk
    heuristic drops from the index: the ratio of a string with itself
    is 1. *)
Lemma ratio_self (x : text) : (ratio x x == 1)%Q.
Proof.
  unfold ratio. destruct x as [|c x]; [reflexivity|].
  set (y := c :: x).
  assert (M : matches (length y) (popular y) y y = length y).
  { unfold y at 1. cbn [length matches]. rewrite find_longest_match_self.
    rewrite (proj2 (Nat.ltb_ge (0 + length y) (length y))) by lia.
    change (0 <? 0) with false. cbn [andb].
    unfold y. cbn [length]. lia. }
  rewrite M. unfold y. cbn [length Nat.add].
  unfold Qeq. cbn [Qnum Qden]. rewrite Zpos_P_of_succ_nat. lia.
Qed.

End DifflibFacts.

(* ===================================================================== *)
(** * Similarity of location names *)
(* ===================================================================== *)

Module SimilarityFacts.
Import Chars Str Re LocationUtils.

Lemma pymax_compat (a a' b : Q) : (a == a')%Q -> (pymax a b == pymax a' b)%Q.
Proof.
  intros E. unfold pymax.
  destruct (Qlt_le_dec a b) as [H|H], (Qlt_le_dec a' b) as [H'|H'];
    try reflexivity; try exact E.
  - rewrite E in H. exfalso. exact (Qlt_not_le _ _ H H').
  - rewrite <- E in H'. exfalso. exact (Qlt_not_le _ _ H' H).
Qed.

Lemma pymax_above (a b : Q) : (b <= a)%Q -> pymax a b = a.
Proof.
  intros H. unfold pymax. destruct (Qlt_le_dec a b) as [H'|H']; [|reflexivity].
  exfalso. exact (Qlt_not_le _ _ H' H).
Qed.

Lemma is_prefix_refl (s : text) : is_prefix s s = true.
Proof.
  induction s as [|c s IH]; [reflexivity|].
  cbn. unfold eqc. now rewrite Ascii.eqb_refl.
Qed.

Section Facts.
Variable order : list ascii.

(** The score of a name with itself, given the ratio of the library
    for its normalised form. *)
Lemma similarity_self_of_ratio (ratio : text -> text -> Q) (a : text) :
  normalize order a <> [] ->
  (ratio (normalize order a) (normalize order a) == 1)%Q ->
  (similarity ratio order a a == 1)%Q.
Proof.
  intros Hne Hr. unfold similarity.
  destruct (normalize order a) as [|c n] eqn:En; [contradiction|].
  cbn [is_empty orb].
  set (r := ratio (c :: n) (c :: n)) in *.
  assert (Hsub : is_substring (c :: n) (c :: n) = true).
  { cbn [is_substring]. now rewrite is_prefix_refl. }
  rewrite Hsub. cbn [orb].
  assert (H1 : pymax r (9 # 10) = r).
  { apply pymax_above. rewrite Hr. unfold Qle. simpl. lia. }
  rewrite H1.
  destruct (bool_decide _ && bool_decide _); [|exact Hr].
  rewrite pymax_above; [exact Hr|].
  rewrite Hr.
  set (tokens := list_to_set (words (c :: n)) : gset text).
  assert (Hi : tokens ∩ tokens = tokens) by apply intersection_idemp_L.
  rewrite Hi, Nat.min_id.
  destruct (size tokens) as [|k].
  + unfold Qle. simpl. lia.
  + unfold Qle, Qdiv, Qmult, Qinv, inject_Z. simpl. lia.
Qed.

(** C7 (as the code has it): the score of a name with itself is 1 when
    its normalised form is not empty, as the matcher of the library
    matches a string with itself entirely, and 0 when it is empty; the
    scores of [(a, b)] and [(b, a)] agree whenever the ratio of the
    two normalised names does not depend on their order, as the
    containment and the token overlap adjustments are symmetric. *)
Theorem similarity_self_and_symmetry (a b : text) :
  (normalize order a <> [] ->
   (similarity Difflib.ratio order a a == 1)%Q)
  /\ (normalize order a = [] ->
      similarity Difflib.ratio order a a = 0%Q)
  /\ (forall ratio : text -> text -> Q,
         (ratio (normalize order a) (normalize order b)
          == ratio (normalize order b) (normalize order a))%Q ->
         (similarity ratio order a b == similarity ratio order b a)%Q).
Proof.
  split; [|split].
  - intros Hne. apply similarity_self_of_ratio; [exact Hne|].
    apply DifflibFacts.ratio_self.
  - intros He. unfold similarity. now rewrite He.
  - intros ratio Hr. unfold similarity.
    rewrite (orb_comm (is_empty (normalize order b))).
    destruct (is_empty (normalize order a) || is_empty (normalize order b));
      [reflexivity|].
    rewrite (orb_comm (is_substring (normalize order b) (normalize order a))).
    rewrite (andb_comm (bool_decide (list_to_set (words (normalize order b)) ≠ ∅))).
    set (t1 := list_to_set (words (normalize order a)) : gset text).
    set (t2 := list_to_set (words (normalize order b)) : gset text).
    replace (t2 ∩ t1) with (t1 ∩ t2) by apply intersection_comm_L.
    rewrite (Nat.min_comm (size t2)).
    destruct (is_substring _ _ || is_substring _ _);
      destruct (bool_decide _ && bool_decide _);
      repeat apply pymax_compat; exact Hr.
Qed.

End Facts.

(** C7 (counterexample): the non-empty name [estate] normalises to the
    empty string, so its score with itself is 0; and the scores of
    [tide] against [diet] and of [diet] against [tide] differ, as the
    ratios 1/4 and 1/2 of the library do. *)
Lemma similarity_not_reflexive_not_symmetric :
  t "estate" <> []
  /\ similarity Difflib.ratio SEPARATORS (t "estate") (t "estate") = 0%Q
  /\ (similarity Difflib.ratio SEPARATORS (t "tide") (t "diet") == 1 # 4)%Q
  /\ (similarity Difflib.ratio SEPARATORS (t "diet") (t "tide") == 1 # 2)%Q.
Proof.
  split; [discriminate|]. split; [reflexivity|].
  split; vm_compute; reflexivity.
Qed.

Lemma similarity_self_and_symmetry_witness :
  (similarity Difflib.ratio SEPARATORS (t "Lekki Phase 1") (t "Lekki Phase 1") == 1)%Q
  /\ similarity Difflib.ratio SEPARATORS (t "estate") (t "estate") = 0%Q
  /\ (similarity Difflib.ratio SEPARATORS (t "Ikeja") (t "Lekki")
      == similarity Difflib.ratio SEPARATORS (t "Lekki") (t "Ikeja"))%Q.
Proof.
  split; [|split].
  - apply (proj1 (similarity_self_and_symmetry SEPARATORS
                    (t "Lekki Phase 1") (t "Lekki Phase 1"))).
    vm_compute. discriminate.
  - apply (proj1 (proj2 (similarity_self_and_symmetry SEPARATORS
                           (t "estate") (t "estate")))).
    reflexivity.
  - apply (proj2 (proj2 (similarity_self_and_symmetry SEPARATORS
                           (t "Ikeja") (t "Lekki"))) Difflib.ratio).
    vm_compute. reflexivity.
Defined.

End SimilarityFacts.



(* ===================================================================== *)
(** * Text primitives: trimming, splitting and word runs *)
(* ===================================================================== *)

Module TextFacts.
Import Chars Str Re.
Import Views.

Lemma within_refl s : within s s.
Proof. intros c H. exact H. Qed.

Lemma within_trans a b c : within a b -> within b c -> within a c.
Proof. intros H1 H2 x Hx. auto. Qed.

Lemma drop_while_within p s : within (drop_while p s) s.
Proof.
  induction s as [|c s IH]; intros x Hx; [exact Hx|]. cbn in Hx.
  destruct (p c); [right; now apply IH | exact Hx].
Qed.

Lemma rdrop_while_within p s : within (rdrop_while p s) s.
Proof.
  intros x Hx. unfold rdrop_while in Hx. apply in_rev in Hx.
  apply drop_while_within in Hx. now apply in_rev in Hx.
Qed.

Lemma strip_within s : within (strip s) s.
Proof.
  unfold strip. eapply within_trans; [apply rdrop_while_within|].
  apply drop_while_within.
Qed.

Lemma sub_edges_within s : within (sub_edges s) s.
Proof.
  unfold sub_edges. eapply within_trans; [apply rdrop_while_within|].
  apply drop_while_within.
Qed.

Lemma drop_while_head p s : head_not p (drop_while p s).
Proof.
  induction s as [|c s IH]; [exact I|]. cbn.
  destruct (p c) eqn:E; [exact IH | exact E].
Qed.

Lemma drop_while_id p s : head_not p s -> drop_while p s = s.
Proof. destruct s as [|c s]; [reflexivity|]. cbn. now intros ->. Qed.

Lemma rdrop_while_last p s : last_not p (rdrop_while p s).
Proof.
  unfold last_not, rdrop_while. rewrite rev_involutive. apply drop_while_head.
Qed.

Lemma rdrop_while_id p s : last_not p s -> rdrop_while p s = s.
Proof.
  unfold last_not, rdrop_while. intros H.
  rewrite (drop_while_id _ _ H). apply rev_involutive.
Qed.

(** Dropping at the end keeps a prefix. *)
Lemma drop_while_suffix p s : exists z, s = z ++ drop_while p s /\ forallb p z = true.
Proof.
  induction s as [|c s (z & Hz & Hp)]; [exists []; auto|]. cbn.
  destruct (p c) eqn:E.
  - exists (c :: z). cbn. rewrite E, Hp. split; [now f_equal | reflexivity].
  - exists []. auto.
Qed.

Lemma rdrop_while_prefix p s :
  exists z, s = rdrop_while p s ++ z /\ forallb p z = true.
Proof.
  unfold rdrop_while.
  destruct (drop_while_suffix p (rev s)) as (z & Hz & Hp).
  exists (rev z). split.
  - rewrite <- rev_app_distr, <- Hz. now rewrite rev_involutive.
  - rewrite forallb_forall in *. intros x Hx. apply Hp. now apply in_rev.
Qed.

Lemma rdrop_while_head p s : head_not p s -> head_not p (rdrop_while p s).
Proof.
  destruct (rdrop_while_prefix p s) as (z & Hz & _).
  destruct (rdrop_while p s) as [|c r]; [intros; exact I|].
  rewrite Hz. cbn. auto.
Qed.

Lemma head_not_weaken (p q : ascii -> bool) s :
  (forall c, q c = true -> p c = true) -> head_not p s -> head_not q s.
Proof.
  intros Hpq. destruct s as [|c s]; [auto|]. cbn. intros Hp.
  destruct (q c) eqn:E; [|reflexivity]. apply Hpq in E. congruence.
Qed.

Lemma space_is_edge c : is_space c = true -> is_edge c = true.
Proof. unfold is_edge. intros ->. now rewrite orb_true_r. Qed.

(** After the edges are trimmed, [strip] has nothing to remove. *)
Lemma strip_sub_edges s : strip (sub_edges s) = sub_edges s.
Proof.
  unfold strip.
  assert (Hh : head_not is_edge (sub_edges s)).
  { unfold sub_edges. apply rdrop_while_head, drop_while_head. }
  assert (Hl : last_not is_edge (sub_edges s)).
  { unfold sub_edges. apply rdrop_while_last. }
  rewrite (drop_while_id is_space).
  - apply rdrop_while_id. unfold last_not in *.
    exact (head_not_weaken _ _ _ space_is_edge Hl).
  - exact (head_not_weaken _ _ _ space_is_edge Hh).
Qed.

Lemma sub_edges_idem s : sub_edges (sub_edges s) = sub_edges s.
Proof.
  assert (Hh : head_not is_edge (sub_edges s)).
  { unfold sub_edges. apply rdrop_while_head, drop_while_head. }
  assert (Hl : last_not is_edge (sub_edges s)).
  { unfold sub_edges. apply rdrop_while_last. }
  unfold sub_edges at 1. rewrite (drop_while_id _ _ Hh).
  now apply rdrop_while_id.
Qed.

Lemma sub_quotes_spec s c :
  In c (sub_quotes s) -> In c s /\ is_quote c = false.
Proof.
  induction s as [|x s IH]; [intros []|]. cbn.
  destruct (is_quote x) eqn:E.
  - intros H. destruct (IH H). auto.
  - intros [<- | H]; [auto|]. destruct (IH H). auto.
Qed.

Lemma sub_quotes_id s :
  (forall c, In c s -> is_quote c = false) -> sub_quotes s = s.
Proof.
  induction s as [|x s IH]; [reflexivity|]. intros H. cbn.
  rewrite (H x (or_introl eq_refl)). f_equal. apply IH.
  intros c Hc. apply H. now right.
Qed.

Lemma sub_spaces_spec b s c :
  In c (sub_spaces_from b s) ->
  c = " "%char \/ (In c s /\ is_space c = false).
Proof.
  revert b. induction s as [|x s IH]; intros b; [intros []|]. cbn.
  destruct (is_space x) eqn:E.
  - destruct b.
    + intros H. destruct (IH _ H) as [?|[? ?]]; auto.
    + intros [<- | H]; [auto|]. destruct (IH _ H) as [?|[? ?]]; auto.
  - intros [<- | H]; [auto|]. destruct (IH _ H) as [?|[? ?]]; auto.
Qed.

Lemma sub_spaces_id s :
  (forall c, In c s -> is_space c = true -> c = " "%char) ->
  adjacent_spaces s = false ->
  head_not is_space s ->
  sub_spaces s = s.
Proof.
  unfold sub_spaces. intros Hsp Hadj Hh.
  assert (G : forall b, (b = true -> head_not is_space s) ->
                        sub_spaces_from b s = s).
  { clear Hh. induction s as [|x s IH]; intros b Hb; [reflexivity|]. cbn.
    assert (Hadj' : adjacent_spaces s = false).
    { destruct s as [|y s]; [reflexivity|]. cbn in Hadj.
      now apply orb_false_iff in Hadj. }
    assert (Hsp' : forall c, In c s -> is_space c = true -> c = " "%char).
    { intros c Hc. apply Hsp. now right. }
    destruct (is_space x) eqn:E.
    - destruct b; [specialize (Hb eq_refl); cbn in Hb; congruence|].
      rewrite (Hsp x (or_introl eq_refl) E). f_equal.
      apply (IH Hsp' Hadj'). intros _.
      destruct s as [|y s]; [exact I|]. cbn. cbn in Hadj.
      apply orb_false_iff in Hadj as [Hadj _]. rewrite E in Hadj.
      exact Hadj.
    - f_equal. apply (IH Hsp' Hadj'). discriminate. }
  apply G. auto.
Qed.

End TextFacts.



(* ===================================================================== *)
(** * Word runs: [tokens], deletions of runs and their fixed points *)
(* ===================================================================== *)

Module TokenFacts.
Import Chars Str Re TextFacts.
Import Views.

Lemma untokens_tokens s : untokens (tokens s) = s.
Proof.
  induction s as [|c s IH]; [reflexivity|]. cbn.
  destruct (is_word c).
  - destruct (tokens s) as [|[w|d] ts]; cbn in *; now rewrite <- IH.
  - cbn. unfold untokens in IH. now rewrite IH.
Qed.

Lemma tokens_well_formed s : well_formed (tokens s).
Proof.
  induction s as [|c s IH]; [exact I|]. cbn.
  destruct (is_word c) eqn:E.
  - destruct (tokens s) as [|[w|d] ts]; cbn in *; rewrite E; cbn.
    + repeat split; auto; discriminate.
    + destruct IH as (? & ? & ? & ?). repeat split; auto; discriminate.
    + destruct IH as (? & ?). repeat split; auto; discriminate.
  - cbn. auto.
Qed.

Lemma tokens_word_app w rest :
  w <> [] -> forallb is_word w = true ->
  starts_with_word (tokens rest) = false ->
  tokens (w ++ rest) = Word w :: tokens rest.
Proof.
  induction w as [|c w IH]; [congruence|]. intros _ Hw Hrest.
  cbn in Hw. apply andb_true_iff in Hw as [Hc Hw]. cbn. rewrite Hc.
  destruct w as [|d w].
  - cbn. destruct (tokens rest) as [|[v|e] ts]; [reflexivity|discriminate|reflexivity].
  - rewrite IH; [reflexivity | discriminate | exact Hw | exact Hrest].
Qed.

Lemma tokens_untokens ts : well_formed ts -> tokens (untokens ts) = ts.
Proof.
  induction ts as [|[w|c] ts IH]; [reflexivity| |].
  - intros (Hne & Hw & Hs & Hwf). unfold untokens. cbn.
    fold (untokens ts). rewrite tokens_word_app; auto.
    + now rewrite IH.
    + rewrite IH by exact Hwf. exact Hs.
  - intros (Hc & Hwf). unfold untokens. cbn. fold (untokens ts).
    rewrite Hc. now rewrite IH.
Qed.

(** Deleting runs keeps the list well formed whenever what is dropped
    between two kept tokens does not bring two runs together. *)
Lemma delete_words_well_formed p ts :
  well_formed ts -> well_formed (delete_words p ts).
Proof.
  induction ts as [|[w|c] ts IH]; [auto| |].
  - intros (Hne & Hw & Hs & Hwf). cbn.
    destruct (p w); [now apply IH|]. cbn.
    repeat split; auto.
    destruct ts as [|[v|d] ts']; [reflexivity | discriminate | reflexivity].
  - intros (Hc & Hwf). cbn. auto.
Qed.

Lemma delete_words_in p ts x : In x (delete_words p ts) -> In x ts.
Proof.
  induction ts as [|[w|c] ts IH]; [auto| |]; cbn.
  - destruct (p w); [intros H; right; now apply IH|].
    intros [<- | H]; [now left | right; now apply IH].
  - intros [<- | H]; [now left | right; now apply IH].
Qed.

Lemma delete_words_none p ts x w :
  In x (delete_words p ts) -> x = Word w -> p w = false.
Proof.
  induction ts as [|[v|c] ts IH]; [intros []| |]; cbn.
  - destruct (p v) eqn:E; [exact IH|].
    intros [<- | H] Hx; [inversion Hx; now subst | now apply IH].
  - intros [<- | H] Hx; [discriminate | now apply IH].
Qed.

Lemma delete_words_id p ts :
  (forall w, In (Word w) ts -> p w = false) -> delete_words p ts = ts.
Proof.
  induction ts as [|[w|c] ts IH]; [reflexivity| |]; intros H; cbn.
  - rewrite (H w (or_introl eq_refl)). f_equal. apply IH.
    intros v Hv. apply H. now right.
  - f_equal. apply IH. intros v Hv. apply H. now right.
Qed.

Lemma in_untokens ts c :
  In c (untokens ts) <-> exists x, In x ts /\ In c (token_text x).
Proof.
  unfold untokens. rewrite in_concat. split.
  - intros (l & Hl & Hc). apply in_map_iff in Hl as (x & <- & Hx). eauto.
  - intros (x & Hx & Hc). exists (token_text x). split; [|exact Hc].
    now apply in_map.
Qed.

Lemma sub_words_within p s : within (sub_words p s) s.
Proof.
  intros c Hc. unfold sub_words in Hc. apply in_untokens in Hc as (x & Hx & Hc).
  apply delete_words_in in Hx.
  rewrite <- (untokens_tokens s). apply in_untokens. eauto.
Qed.

Lemma delete_spans_in span k ts x : In x (delete_spans span k ts) -> In x ts.
Proof.
  revert k. induction ts as [|y ts IH]; intros k; [auto|]. cbn.
  destruct k as [|k].
  - destruct (span (y :: ts)) as [|k'].
    + intros [<- | H]; [now left | right; now apply (IH 0)].
    + intros H. right. now apply (IH k').
  - intros H. right. now apply (IH k).
Qed.

Lemma sub_keyword_numbers_within kws s : within (sub_keyword_numbers kws s) s.
Proof.
  intros c Hc. unfold sub_keyword_numbers in Hc.
  apply in_untokens in Hc as (x & Hx & Hc).
  apply delete_spans_in in Hx.
  rewrite <- (untokens_tokens s). apply in_untokens. eauto.
Qed.

Lemma span_without_keywords kws ts :
  (forall w, In (Word w) ts -> one_of kws w = false) ->
  keyword_number_span kws ts
  = match ts with
    | Word w :: _ => if numbered kws w then 1 else 0
    | _ => 0
    end.
Proof.
  intros H. destruct ts as [|[w|c] ts]; [reflexivity| |reflexivity].
  cbn. unfold numbered. destruct (existsb _ kws); [reflexivity|].
  now rewrite (H w (or_introl eq_refl)).
Qed.

Lemma delete_spans_without_keywords kws ts :
  (forall w, In (Word w) ts -> one_of kws w = false) ->
  delete_spans (keyword_number_span kws) 0 ts = delete_words (numbered kws) ts.
Proof.
  induction ts as [|x ts IH]; [reflexivity|]. intros H.
  cbn [delete_spans]. rewrite (span_without_keywords kws (x :: ts) H).
  assert (H' : forall w, In (Word w) ts -> one_of kws w = false).
  { intros w Hw. apply H. now right. }
  destruct x as [w|c]; cbn.
  - destruct (numbered kws w); now rewrite IH.
  - now rewrite IH.
Qed.

End TokenFacts.



(* ===================================================================== *)
(** * Normalisation of location names *)
(* ===================================================================== *)

Module NormalizeFacts.
Import Chars Str Re LocationUtils TextFacts TokenFacts.
Import Views.

(** *** Characters of a normalised name *)

Lemma lower_char_not_upper c : is_upper (lower_char c) = false.
Proof. destruct c as [[] [] [] [] [] [] [] []]; reflexivity. Qed.

Lemma lower_char_id c : is_upper c = false -> lower_char c = c.
Proof. unfold lower_char. now intros ->. Qed.

Lemma lower_id s : (forall c, In c s -> is_upper c = false) -> lower s = s.
Proof.
  induction s as [|x s IH]; [reflexivity|]. intros H. cbn.
  rewrite (lower_char_id x (H x (or_introl eq_refl))). f_equal. apply IH.
  intros c Hc. apply H. now right.
Qed.

Lemma plain_after_quotes s c :
  In c (sub_quotes (sub_spaces (_remove_accents (strip (lower s))))) -> plain c.
Proof.
  intros H. apply sub_quotes_spec in H as [H Hq].
  unfold sub_spaces in H. apply sub_spaces_spec in H as [-> | [H Hs]].
  - repeat split; reflexivity.
  - unfold _remove_accents in H. apply strip_within in H.
    unfold lower in H. apply in_map_iff in H as (x & <- & _).
    repeat split; [apply lower_char_not_upper | exact Hq | congruence].
Qed.

Lemma split_within sep s p : In p (split sep s) -> within p s.
Proof.
  revert p. induction s as [|c s IH]; intros p; cbn.
  - intros [<- | []]. apply within_refl.
  - destruct (eqc c sep).
    + intros [<- | H]; [intros x [] |]. intros x Hx. right. exact (IH p H x Hx).
    + destruct (split sep s) as [|q ps] eqn:E.
      * intros [<- | []]. intros x [<- | []]. now left.
      * intros [<- | H].
        -- intros x [<- | Hx]; [now left | right].
           exact (IH q (or_introl eq_refl) x Hx).
        -- intros x Hx. right. exact (IH p (or_intror H) x Hx).
Qed.

Lemma non_blank_in parts q :
  In q (non_blank parts) -> exists p, In p parts /\ q = strip p.
Proof.
  induction parts as [|p parts IH]; [intros []|]. cbn.
  destruct (strip p) as [|c r] eqn:E.
  - intros H. destruct (IH H) as (p' & ? & ?). eauto.
  - intros [<- | H]; [eauto|]. destruct (IH H) as (p' & ? & ?). eauto.
Qed.

Lemma extract_within order s : within (_extract_primary_location order s) s.
Proof.
  induction order as [|sep order IH]; [apply within_refl|]. cbn.
  destruct (contains_char sep s); [|exact IH].
  destruct (non_blank (split sep s)) as [|q qs] eqn:E; [exact IH|].
  assert (Hq : In q (non_blank (split sep s))) by (rewrite E; now left).
  apply non_blank_in in Hq as (p & Hp & ->).
  eapply within_trans; [apply strip_within | exact (split_within sep s p Hp)].
Qed.

Lemma extract_id order s :
  forallb (fun sep => negb (contains_char sep s)) order = true ->
  _extract_primary_location order s = s.
Proof.
  induction order as [|sep order IH]; [reflexivity|]. cbn.
  intros H. apply andb_true_iff in H as [H1 H2].
  apply negb_true_iff in H1. rewrite H1. now apply IH.
Qed.

(** *** The word runs the patterns leave *)

Lemma numbered_words_are_location_words w :
  one_of LOCATION_WORDS w = false -> one_of NUMBERED_WORDS w = false.
Proof.
  unfold one_of, LOCATION_WORDS, NUMBERED_WORDS. cbn.
  intros H. repeat (apply orb_false_iff in H as [? H]).
  repeat (apply orb_false_iff; split); auto.
Qed.

Lemma sub_words_untokens p ts :
  well_formed ts -> sub_words p (untokens ts) = untokens (delete_words p ts).
Proof. intros H. unfold sub_words. now rewrite tokens_untokens. Qed.

Lemma remove_patterns_tokens x :
  _remove_location_patterns x = strip (untokens (surviving (tokens x))).
Proof.
  unfold _remove_location_patterns, surviving. f_equal.
  set (t1 := delete_words (one_of LOCATION_WORDS) (tokens x)).
  assert (W1 : well_formed t1)
    by apply delete_words_well_formed, tokens_well_formed.
  assert (E2 : sub_keyword_numbers NUMBERED_WORDS
                 (sub_words (one_of LOCATION_WORDS) x)
               = untokens (delete_words (numbered NUMBERED_WORDS) t1)).
  { unfold sub_keyword_numbers, sub_words. fold t1.
    rewrite (tokens_untokens t1 W1). f_equal.
    apply delete_spans_without_keywords. intros w Hw.
    apply numbered_words_are_location_words.
    exact (delete_words_none _ _ _ w Hw eq_refl). }
  rewrite E2.
  rewrite sub_words_untokens by (apply delete_words_well_formed; exact W1).
  rewrite sub_words_untokens
    by (do 2 apply delete_words_well_formed; exact W1).
  reflexivity.
Qed.

Lemma surviving_settled ts : settled (surviving ts).
Proof.
  intros w Hw. unfold surviving in Hw.
  assert (H4 := delete_words_none _ _ _ w Hw eq_refl).
  apply delete_words_in in Hw.
  assert (H3 := delete_words_none _ _ _ w Hw eq_refl).
  apply delete_words_in in Hw.
  assert (H2 := delete_words_none _ _ _ w Hw eq_refl).
  apply delete_words_in in Hw.
  assert (H1 := delete_words_none _ _ _ w Hw eq_refl).
  auto.
Qed.

Lemma surviving_well_formed ts : well_formed ts -> well_formed (surviving ts).
Proof. intros H. unfold surviving. now do 4 apply delete_words_well_formed. Qed.

Lemma surviving_id ts : settled ts -> surviving ts = ts.
Proof.
  intros H. unfold surviving.
  rewrite (delete_words_id (one_of LOCATION_WORDS)) by (intros w Hw; apply H, Hw).
  rewrite (delete_words_id (numbered NUMBERED_WORDS)) by (intros w Hw; apply H, Hw).
  rewrite (delete_words_id (one_of LGA_WORDS)) by (intros w Hw; apply H, Hw).
  apply delete_words_id. intros w Hw. apply H, Hw.
Qed.

(** On a name whose runs are settled the patterns only strip. *)
Lemma remove_patterns_settled x :
  settled (tokens x) -> _remove_location_patterns x = strip x.
Proof.
  intros H. rewrite remove_patterns_tokens, (surviving_id _ H).
  now rewrite untokens_tokens.
Qed.

Lemma remove_patterns_within x : within (_remove_location_patterns x) x.
Proof.
  rewrite remove_patterns_tokens.
  eapply within_trans; [apply strip_within|].
  intros c Hc. apply in_untokens in Hc as (tok & Hx & Hc).
  unfold surviving in Hx. repeat apply delete_words_in in Hx.
  rewrite <- (untokens_tokens x). apply in_untokens. eauto.
Qed.

(** *** Trimming non-word characters keeps the runs *)

Lemma tokens_drop_while p x w :
  (forall c, p c = true -> is_word c = false) ->
  In (Word w) (tokens (drop_while p x)) -> In (Word w) (tokens x).
Proof.
  intros Hp. induction x as [|c x IH]; [auto|]. cbn [drop_while].
  destruct (p c) eqn:E; [|auto].
  intros H. cbn. rewrite (Hp c E). right. now apply IH.
Qed.

Lemma tokens_others z :
  forallb (fun c => negb (is_word c)) z = true -> tokens z = map Other z.
Proof.
  induction z as [|c z IH]; [reflexivity|]. cbn.
  intros H. apply andb_true_iff in H as [Hc Hz].
  apply negb_true_iff in Hc. rewrite Hc. now rewrite IH.
Qed.

Lemma tokens_app_others y z :
  forallb (fun c => negb (is_word c)) z = true ->
  tokens (y ++ z) = tokens y ++ map Other z.
Proof.
  intros Hz. induction y as [|c y IH]; [now apply tokens_others|].
  cbn. rewrite IH. destruct (is_word c); [|reflexivity].
  destruct (tokens y) as [|[w|d] ts]; cbn; try reflexivity.
  destruct z as [|e z]; reflexivity.
Qed.

Lemma tokens_rdrop_while p x w :
  (forall c, p c = true -> is_word c = false) ->
  In (Word w) (tokens (rdrop_while p x)) -> In (Word w) (tokens x).
Proof.
  intros Hp H.
  destruct (rdrop_while_prefix p x) as (z & Hz & Hpz).
  rewrite Hz, tokens_app_others.
  - apply in_or_app. now left.
  - rewrite forallb_forall in *. intros c Hc.
    apply negb_true_iff, Hp, Hpz, Hc.
Qed.

Lemma space_not_word c : is_space c = true -> is_word c = false.
Proof. destruct c as [[] [] [] [] [] [] [] []]; vm_compute; congruence. Qed.

Lemma edge_not_word c : is_edge c = true -> is_word c = false.
Proof. destruct c as [[] [] [] [] [] [] [] []]; vm_compute; congruence. Qed.

Lemma strip_settled x : settled (tokens x) -> settled (tokens (strip x)).
Proof.
  intros H w Hw. apply H. unfold strip in Hw.
  apply (tokens_rdrop_while _ _ _ space_not_word) in Hw.
  now apply (tokens_drop_while _ _ _ space_not_word) in Hw.
Qed.

Lemma sub_edges_settled x : settled (tokens x) -> settled (tokens (sub_edges x)).
Proof.
  intros H w Hw. apply H. unfold sub_edges in Hw.
  apply (tokens_rdrop_while _ _ _ edge_not_word) in Hw.
  now apply (tokens_drop_while _ _ _ edge_not_word) in Hw.
Qed.

(** *** Idempotence *)

Section Idempotence.
Variable order : list ascii.

Lemma normalize_unfold location :
  location <> [] -> normalize order location = sub_edges (primary order location).
Proof.
  intros H. destruct location as [|c l]; [contradiction|].
  unfold normalize, primary. apply strip_sub_edges.
Qed.

Lemma primary_plain location c : In c (primary order location) -> plain c.
Proof.
  intros H. unfold primary in H.
  apply remove_patterns_within, extract_within in H.
  exact (plain_after_quotes _ _ H).
Qed.

Lemma primary_settled location : settled (tokens (primary order location)).
Proof.
  unfold primary. rewrite remove_patterns_tokens.
  apply strip_settled. rewrite tokens_untokens.
  - apply surviving_settled.
  - apply surviving_well_formed, tokens_well_formed.
Qed.

(** C6 (as the code has it): normalising a normalised name changes
    nothing when the normalised name holds no two adjacent blanks and
    none of the separator characters. *)
Theorem normalize_idempotent_on_settled_names (s : text) :
  adjacent_spaces (normalize order s) = false ->
  forallb (fun sep => negb (contains_char sep (normalize order s))) order = true ->
  normalize order (normalize order s) = normalize order s.
Proof.
  intros Hadj Hsep.
  destruct s as [|c0 s0]; [reflexivity|].
  set (s := c0 :: s0) in *.
  assert (Hs : s <> []) by discriminate.
  rewrite (normalize_unfold s Hs) in *.
  set (n := sub_edges (primary order s)) in *.
  destruct n as [|c1 n1] eqn:En; [reflexivity|].
  rewrite <- En in *.
  assert (Hn : n <> []) by (rewrite En; discriminate).
  assert (Hplain : forall c, In c n -> plain c).
  { intros c Hc. apply sub_edges_within in Hc. exact (primary_plain s c Hc). }
  assert (Hset : settled (tokens n)) by apply sub_edges_settled, primary_settled.
  assert (Hstrip : strip n = n) by apply strip_sub_edges.
  assert (Hhead : head_not is_space n).
  { apply (head_not_weaken is_edge); [exact space_is_edge|].
    unfold n, sub_edges. apply rdrop_while_head, drop_while_head. }
  rewrite (normalize_unfold n Hn). unfold primary.
  rewrite (lower_id n) by (intros c Hc; apply (Hplain c Hc)).
  rewrite Hstrip. unfold _remove_accents.
  rewrite (sub_spaces_id n);
    [| intros c Hc; apply (Hplain c Hc) | exact Hadj | exact Hhead].
  rewrite (sub_quotes_id n) by (intros c Hc; apply (Hplain c Hc)).
  rewrite (extract_id order n Hsep).
  rewrite (remove_patterns_settled n Hset), Hstrip.
  apply sub_edges_idem.
Qed.

End Idempotence.

(** The separator set plays no part in a name without separators: in
    whatever order the set is iterated, the removal of [estate] leaves
    two adjacent spaces and a second pass collapses them. *)
Lemma normalize_estate_any_order (order : list ascii) :
  (forall c, In c order -> In c SEPARATORS) ->
  normalize order (t "a estate b") = t "a  b"
  /\ normalize order (t "a  b") = t "a b".
Proof.
  intros H.
  assert (E : forall s,
             forallb (fun c => negb (contains_char c s)) SEPARATORS = true ->
             _extract_primary_location order s = s).
  { intros s Hs. apply extract_id. apply List.forallb_forall.
    intros c Hc. exact (proj1 (List.forallb_forall _ _) Hs c (H c Hc)). }
  split.
  - rewrite normalize_unfold by (vm_compute; discriminate).
    unfold primary. rewrite E by (vm_compute; reflexivity).
    vm_compute. reflexivity.
  - rewrite normalize_unfold by (vm_compute; discriminate).
    unfold primary. rewrite E by (vm_compute; reflexivity).
    vm_compute. reflexivity.
Qed.

(** The example of the docstring of [_extract_primary_location], and a
    name with a numbered phase. *)
Example normalize_examples :
  _extract_primary_location SEPARATORS (t "sangotedo, ajah") = t "sangotedo"
  /\ normalize SEPARATORS (t "Sangotedo, Ajah") = t "sangotedo"
  /\ normalize SEPARATORS (t "  Lekki Phase 1 ") = t "lekki"
  /\ normalize SEPARATORS (t "Victoria Island LGA") = t "victoria island".
Proof. repeat split; reflexivity. Qed.

(** C6 (counterexample): the removal of [estate] leaves two adjacent
    spaces, which a second normalisation collapses (in any iteration
    order of the separators); and of a composite name the first pass
    keeps the part before the comma, the second the part before the
    slash (when the comma is tried first). *)
Lemma normalize_not_idempotent :
  normalize SEPARATORS (t "a estate b") = t "a  b"
  /\ normalize SEPARATORS (normalize SEPARATORS (t "a estate b")) = t "a b"
  /\ normalize SEPARATORS (t "ikoyi/lekki, lagos") = t "ikoyi/lekki"
  /\ normalize SEPARATORS (normalize SEPARATORS (t "ikoyi/lekki, lagos")) = t "ikoyi".
Proof. repeat split; reflexivity. Qed.

Lemma normalize_idempotent_on_settled_names_witness :
  normalize SEPARATORS (normalize SEPARATORS (t "Lekki Phase 1, Lagos"))
  = normalize SEPARATORS (t "Lekki Phase 1, Lagos").
Proof.
  apply (normalize_idempotent_on_settled_names SEPARATORS (t "Lekki Phase 1, Lagos"));
    reflexivity.
Defined.

End NormalizeFacts.



(* ===================================================================== *)
(** * Concrete runs of the services *)
(* ===================================================================== *)

Module Scenarios.
Import Str Py Models Database External Repository.
Import Views.
Import ResolverFacts CounterFacts IngestionFacts AtomicityFacts ConcurrentFacts.

(** C1 (counterexample): both lookups miss, the INSERT fails with the
    unique-key conflict, and the caller receives an exception instead of
    the bucket of the cell. *)
Lemma find_or_create_conflict_surfaces :
  exact_rows 8506503 conflicting_store = []
  /\ fuzzy_rows (PG := StandIn.pg) [8506503; 8506502; 8506504; 8505503; 8507503]%Z
       (t "lagos") conflicting_store = []
  /\ fst (GeoBucketService.find_or_create_bucket (H3 := StandIn.h3) (PG := StandIn.pg)
            8506503 (t "Lagos") (t "lagos") 7506503 conflicting_store)
     = Raise (AppException "Failed to find or create geo bucket").
Proof. repeat split. Qed.

Lemma find_or_create_conflict_raises_witness :
  exists w',
    GeoBucketService.find_or_create_bucket (H3 := StandIn.h3) (PG := StandIn.pg)
      8506503 (t "Lagos") (t "lagos") 7506503
      (StandIn.fresh_world [None; None; Some IntegrityError] empty_tables)
    = (Raise (AppException "Failed to find or create geo bucket"), w')
    /\ working w' = empty_tables
    /\ database w' = empty_tables
    /\ faults w' = [].
Proof.
  apply (find_or_create_conflict_raises (H3 := StandIn.h3) (PG := StandIn.pg)
           (StandIn.fresh_world [None; None; Some IntegrityError] empty_tables)
           8506503 (t "Lagos") (t "lagos") 7506503
           [8506503; 8506502; 8506504; 8505503; 8507503]%Z
           ({| lng := 3; lat := 6 |}, [])
           []); reflexivity.
Defined.

(** C2 (failing input): no bucket has key 7. *)
Lemma increment_missing_bucket_is_masked_witness :
  GeoBucketService.increment_property_count 7
    (StandIn.fresh_world [] {| geo_buckets := [lagos]; properties := [] |})
  = (Raise (AppException
              "An unexpected error occurred while incrementing the property count."),
     StandIn.fresh_world [] {| geo_buckets := [lagos]; properties := [] |}).
Proof.
  apply (increment_missing_bucket_is_masked
           (StandIn.fresh_world [] {| geo_buckets := [lagos]; properties := [] |}) 7);
    reflexivity.
Defined.

Lemma resolve_exact_match_and_repeat_witness :
  GeoBucketService.find_or_create_bucket (H3 := StandIn.h3) (PG := StandIn.pg)
    8506503 (t "Lagos Island") (t "lagos island") 7506503 two_buckets
  = (Ok lagos, two_buckets).
Proof.
  assert (Hnd : NoDup (map h3_index (geo_buckets (working two_buckets)))).
  { apply (bool_decide_unpack _). vm_compute. exact I. }
  apply (proj1 (resolve_exact_match_and_repeat (H3 := StandIn.h3) (PG := StandIn.pg)
                  two_buckets 8506503 (t "Lagos Island") (t "lagos island") 7506503
                  eq_refl eq_refl Hnd)
               lagos); [now left | reflexivity].
Defined.

(** C3 (counterexample): two callers both load the bucket (count 5)
    before either writes; both complete, and the count is 6, not 7. *)
Lemma interleaved_increments_lose_an_update :
  Concurrent.all_finished
    (Concurrent.run 1 [0; 1; 0; 1] (Concurrent.start [lagos; ikeja] 2)) = true
  /\ Concurrent.count_of 1
       (Concurrent.rows
          (Concurrent.run 1 [0; 1; 0; 1] (Concurrent.start [lagos; ikeja] 2)))
     = Some 6%Z.
Proof. split; reflexivity. Qed.

Lemma increments_sequential_exact_interleaved_bounded_witness :
  Concurrent.count_of 1
    (Concurrent.rows
       (Concurrent.run 1 (Concurrent.sequential 3) (Concurrent.start [lagos; ikeja] 3)))
  = Some 8%Z.
Proof.
  apply (proj2 (proj1 (increments_sequential_exact_interleaved_bounded
                         1 [lagos; ikeja] 5 3 eq_refl
                         (le_S _ _ (le_S _ _ (le_n 1)))))).
Defined.

Lemma create_property_is_atomic_witness :
  fst (PropertyService.create_property (H3 := StandIn.h3) (PG := StandIn.pg)
         LocationUtils.SEPARATORS (request "3 Bedroom Flat") failing_store)
  = Raise (AppException "Failed to increment property count")
  /\ database
       (snd (PropertyService.create_property (H3 := StandIn.h3) (PG := StandIn.pg)
               LocationUtils.SEPARATORS (request "3 Bedroom Flat") failing_store))
     = database failing_store
  /\ commits
       (snd (PropertyService.create_property (H3 := StandIn.h3) (PG := StandIn.pg)
               LocationUtils.SEPARATORS (request "3 Bedroom Flat") failing_store))
     = 0
  /\ rollbacks
       (snd (PropertyService.create_property (H3 := StandIn.h3) (PG := StandIn.pg)
               LocationUtils.SEPARATORS (request "3 Bedroom Flat") failing_store))
     = 1
  /\ working
       (snd (PropertyService.create_property (H3 := StandIn.h3) (PG := StandIn.pg)
               LocationUtils.SEPARATORS (request "3 Bedroom Flat") failing_store))
     = database failing_store.
Proof.
  split; [reflexivity|].
  destruct (proj2 (create_property_is_atomic (H3 := StandIn.h3) (PG := StandIn.pg)
                     LocationUtils.SEPARATORS (request "3 Bedroom Flat") failing_store
                     (Raise (AppException "Failed to increment property count"))
                     _ eq_refl eq_refl eq_refl eq_refl))
    as (Hd & Hc & [(_ & Hr & Hw & _) | ((s & Hs) & _)]); [|discriminate Hs].
  split; [exact Hd|]. split; [exact Hc|]. split; [exact Hr | exact Hw].
Defined.



End Scenarios.



(* ===================================================================== *)
(** * What a normalised name looks like *)
(* ===================================================================== *)

Module NormalizedNames.
Import Chars Str Re LocationUtils TextFacts TokenFacts NormalizeFacts.
Import Views Measures.

Lemma is_space_lower_char c : is_space (lower_char c) = is_space c.
Proof. destruct c as [[] [] [] [] [] [] [] []]; reflexivity. Qed.

Lemma lower_drop_while_space s :
  lower (drop_while is_space s) = drop_while is_space (lower s).
Proof.
  induction s as [|c s IH]; [reflexivity|]. cbn.
  rewrite is_space_lower_char. now destruct (is_space c).
Qed.

Lemma lower_rev s : lower (rev s) = rev (lower s).
Proof. unfold lower. now rewrite map_rev. Qed.

Lemma lower_strip s : lower (strip s) = strip (lower s).
Proof.
  unfold strip, rdrop_while.
  now rewrite lower_rev, lower_drop_while_space, lower_rev, lower_drop_while_space.
Qed.

Lemma drop_while_idem p s : drop_while p (drop_while p s) = drop_while p s.
Proof. apply drop_while_id, drop_while_head. Qed.

Lemma strip_idem s : strip (strip s) = strip s.
Proof.
  unfold strip.
  rewrite (drop_while_id is_space (rdrop_while is_space (drop_while is_space s))).
  - apply rdrop_while_id, rdrop_while_last.
  - apply rdrop_while_head, drop_while_head.
Qed.

Lemma extract_nil order : _extract_primary_location order [] = [].
Proof. induction order as [|sep order IH]; [reflexivity | exact IH]. Qed.

Section Facts.
Variable order : list ascii.

(** The steps of [normalize] after the first trimming. *)
Lemma normalize_steps s :
  normalize order s
  = strip (sub_edges (_remove_location_patterns
             (_extract_primary_location order
                (sub_quotes (sub_spaces (_remove_accents (strip (lower s))))))))
.
Proof.
  destruct s as [|c s]; [|reflexivity].
  cbn. now rewrite extract_nil.
Qed.

(** X1: a normalised name holds no upper-case letter and no quote, its
    only blank character is the space, and it neither starts nor ends
    with a blank, a comma or a hyphen. *)
Theorem normalize_output_is_clean (s : text) :
  (forall c, In c (normalize order s) ->
             is_upper c = false /\ is_quote c = false
             /\ (is_space c = true -> c = " "%char))
  /\ head_not is_edge (normalize order s)
  /\ last_not is_edge (normalize order s).
Proof.
  destruct s as [|c0 s0];
    [split; [intros c [] | split; exact I]|].
  set (s := c0 :: s0).
  rewrite (normalize_unfold order s) by discriminate.
  split; [|split].
  - intros c Hc. apply sub_edges_within in Hc.
    exact (primary_plain order s c Hc).
  - unfold sub_edges. apply rdrop_while_head, drop_while_head.
  - unfold sub_edges. apply rdrop_while_last.
Qed.

(** X2: for a name in plain ASCII, no word of its normalised form is
    one of the location keywords (area, estate, phase, ..., lga), a
    keyword directly followed by digits, or a number. *)
Theorem normalize_drops_location_words (s : text) (w : text) :
  ascii_text s = true ->
  In (Word w) (tokens (normalize order s)) ->
  one_of LOCATION_WORDS w = false
  /\ numbered NUMBERED_WORDS w = false
  /\ one_of LGA_WORDS w = false
  /\ all_digits w = false.
Proof.
  intros _. destruct s as [|c0 s0]; [intros []|].
  set (s := c0 :: s0).
  rewrite (normalize_unfold order s) by discriminate.
  apply (sub_edges_settled _ (primary_settled order s)).
Qed.

(** X3: on a name in plain ASCII, normalisation only deletes and
    lower-cases: every character of the result is a character of the
    lower-cased input, or the space that stands for a run of blanks. *)
Theorem normalize_only_deletes (s : text) (c : ascii) :
  ascii_text s = true ->
  In c (normalize order s) -> c = " "%char \/ In c (lower s).
Proof.
  intros _. destruct s as [|c0 s0]; [intros []|].
  set (s := c0 :: s0).
  rewrite (normalize_unfold order s) by discriminate.
  intros Hc. apply sub_edges_within in Hc. unfold primary in Hc.
  apply remove_patterns_within, extract_within in Hc.
  apply sub_quotes_spec in Hc as [Hc _].
  unfold sub_spaces in Hc. apply sub_spaces_spec in Hc as [-> | [Hc _]];
    [now left | right].
  unfold _remove_accents in Hc. exact (strip_within _ _ Hc).
Qed.

(** X4: names in plain ASCII that differ only in the case of their
    letters and in the blanks around them have the same normalised
    form. *)
Theorem normalize_ignores_case_and_margins (a b : text) :
  ascii_text a = true -> ascii_text b = true ->
  lower (strip a) = lower (strip b) ->
  normalize order a = normalize order b.
Proof.
  intros _ _ E. rewrite !normalize_steps.
  rewrite !lower_strip in E.
  assert (E' : strip (lower a) = strip (lower b)).
  { rewrite <- (strip_idem (lower a)), <- (strip_idem (lower b)).
    now rewrite E. }
  now rewrite E'.
Qed.

End Facts.

Lemma normalize_drops_location_words_witness :
  one_of LOCATION_WORDS (t "lekki") = false
  /\ numbered NUMBERED_WORDS (t "lekki") = false
  /\ one_of LGA_WORDS (t "lekki") = false
  /\ all_digits (t "lekki") = false.
Proof.
  apply (normalize_drops_location_words SEPARATORS (t "Lekki Phase 1 Estate"));
    [reflexivity|].
  vm_compute. now left.
Defined.

Lemma normalize_only_deletes_witness :
  "k"%char = " "%char \/ In "k"%char (lower (t "LEKKI Phase 1")).
Proof.
  apply (normalize_only_deletes SEPARATORS (t "LEKKI Phase 1")); [reflexivity|].
  vm_compute. auto.
Defined.

Lemma normalize_ignores_case_and_margins_witness :
  normalize SEPARATORS (t "  VICTORIA Island ")
  = normalize SEPARATORS (t "victoria island").
Proof.
  apply (normalize_ignores_case_and_margins SEPARATORS); reflexivity.
Defined.

End NormalizedNames.



(* ===================================================================== *)
(** * Bounds of the similarity score *)
(* ===================================================================== *)

Module SimilarityBounds.
Import Chars Str Re LocationUtils TextFacts NormalizedNames.
Import Views.

Lemma pymax_between (lo hi a b : Q) :
  (lo <= a)%Q -> (a <= hi)%Q -> (lo <= b)%Q -> (b <= hi)%Q ->
  (lo <= pymax a b)%Q /\ (pymax a b <= hi)%Q.
Proof. intros. unfold pymax. destruct (Qlt_le_dec a b); auto. Qed.

Lemma pymax_ge_right (a b : Q) : (b <= pymax a b)%Q.
Proof.
  unfold pymax. destruct (Qlt_le_dec a b) as [H|H]; [apply Qle_refl | exact H].
Qed.

Lemma pymax_ge_left (a b : Q) : (a <= pymax a b)%Q.
Proof.
  unfold pymax. destruct (Qlt_le_dec a b) as [H|H];
    [apply Qlt_le_weak, H | apply Qle_refl].
Qed.

(** The share of common tokens lies between 0 and 1. *)
Lemma overlap_between (k m : nat) :
  k <= m ->
  (0 <= inject_Z (Z.of_nat k) / inject_Z (Z.of_nat m) * (19 # 20))%Q
  /\ (inject_Z (Z.of_nat k) / inject_Z (Z.of_nat m) * (19 # 20) <= 1)%Q.
Proof.
  intros Hkm. destruct m as [|m].
  - unfold Qle, Qdiv, Qmult, Qinv, inject_Z. simpl. split; lia.
  - unfold Qle, Qdiv, Qmult, Qinv, inject_Z.
    cbn [Qnum Qden Z.of_nat]. simpl Qnum. simpl Qden. split; simpl; lia.
Qed.

Lemma overlap_full (m : nat) :
  0 < m ->
  (inject_Z (Z.of_nat m) / inject_Z (Z.of_nat m) * (19 # 20) == 19 # 20)%Q.
Proof.
  intros Hm. destruct m as [|m]; [lia|].
  unfold Qeq, Qdiv, Qmult, Qinv, inject_Z. simpl. lia.
Qed.

Lemma words_from_nonempty cur s : cur <> [] -> words_from cur s <> [].
Proof.
  revert cur. induction s as [|c s IH]; intros cur Hcur; cbn.
  - destruct cur; [contradiction | discriminate].
  - destruct (is_space c).
    + destruct cur; [contradiction | discriminate].
    + apply IH. discriminate.
Qed.

Lemma words_nonempty s : s <> [] -> head_not is_space s -> words s <> [].
Proof.
  destruct s as [|c s]; [contradiction|]. intros _ Hh. cbn in Hh.
  unfold words. cbn. rewrite Hh. apply words_from_nonempty. discriminate.
Qed.

Lemma head_not_space_strip s : head_not is_space (strip s).
Proof. unfold strip. apply rdrop_while_head, drop_while_head. Qed.

Lemma tokens_of_name order s :
  normalize order s <> [] ->
  (list_to_set (words (normalize order s)) : gset text) <> ∅.
Proof.
  intros Hne.
  assert (Hw : words (normalize order s) <> []).
  { apply words_nonempty; [exact Hne|].
    rewrite normalize_steps. apply head_not_space_strip. }
  destruct (words (normalize order s)) as [|w ws]; [contradiction|].
  intros E. apply (not_elem_of_empty (C := gset text) w).
  rewrite <- E. set_solver.
Qed.

Section Facts.
Variable ratio : text -> text -> Q.
Variable order : list ascii.

(** X5: the score lies between 0 and 1 whenever the ratio of the
    library for the two normalised names does. *)
Theorem similarity_between_0_and_1 (a b : text) :
  (0 <= ratio (normalize order a) (normalize order b))%Q ->
  (ratio (normalize order a) (normalize order b) <= 1)%Q ->
  (0 <= similarity ratio order a b)%Q /\ (similarity ratio order a b <= 1)%Q.
Proof.
  intros H0 H1. unfold similarity.
  destruct (is_empty (normalize order a) || is_empty (normalize order b)).
  { split; unfold Qle; simpl; lia. }
  set (r := ratio (normalize order a) (normalize order b)) in *.
  assert (Hb : (0 <= (if is_substring (normalize order a) (normalize order b)
                         || is_substring (normalize order b) (normalize order a)
                      then pymax r (9 # 10) else r))%Q
               /\ ((if is_substring (normalize order a) (normalize order b)
                       || is_substring (normalize order b) (normalize order a)
                    then pymax r (9 # 10) else r) <= 1)%Q).
  { destruct (is_substring _ _ || is_substring _ _); [|auto].
    apply pymax_between; auto; unfold Qle; simpl; lia. }
  destruct Hb as [Hb0 Hb1].
  destruct (bool_decide _ && bool_decide _); [|auto].
  set (t1 := list_to_set (words (normalize order a)) : gset text).
  set (t2 := list_to_set (words (normalize order b)) : gset text).
  assert (Hk : size (t1 ∩ t2) <= Nat.min (size t1) (size t2)).
  { apply Nat.min_glb; apply subseteq_size;
      [apply intersection_subseteq_l | apply intersection_subseteq_r]. }
  destruct (overlap_between _ _ Hk) as [Ho0 Ho1].
  apply pymax_between; auto.
Qed.

(** The score when the tokens of one name all occur in the other. *)
Lemma similarity_of_subset_tokens (a b : text) :
  normalize order a <> [] -> normalize order b <> [] ->
  (list_to_set (words (normalize order a)) : gset text)
    ⊆ list_to_set (words (normalize order b))
  \/ (list_to_set (words (normalize order b)) : gset text)
       ⊆ list_to_set (words (normalize order a)) ->
  (19 # 20 <= similarity ratio order a b)%Q.
Proof.
  intros Ha Hb Hsub. unfold similarity.
  destruct (normalize order a) as [|ca na] eqn:Ea; [contradiction|].
  destruct (normalize order b) as [|cb nb] eqn:Eb; [contradiction|].
  cbn [is_empty orb].
  assert (Ht1 := tokens_of_name order a). rewrite Ea in Ht1.
  assert (Ht2 := tokens_of_name order b). rewrite Eb in Ht2.
  specialize (Ht1 ltac:(discriminate)). specialize (Ht2 ltac:(discriminate)).
  set (t1 := list_to_set (words (ca :: na)) : gset text) in *.
  set (t2 := list_to_set (words (cb :: nb)) : gset text) in *.
  rewrite (bool_decide_eq_true_2 _ Ht1), (bool_decide_eq_true_2 _ Ht2).
  cbn [andb].
  assert (Hfull : size (t1 ∩ t2) = Nat.min (size t1) (size t2)
                  /\ 0 < Nat.min (size t1) (size t2)).
  { assert (0 < size t1).
    { destruct (size t1) eqn:E; [|lia]. apply size_empty_inv in E.
      exfalso. apply Ht1. now apply leibniz_equiv. }
    assert (0 < size t2).
    { destruct (size t2) eqn:E; [|lia]. apply size_empty_inv in E.
      exfalso. apply Ht2. now apply leibniz_equiv. }
    destruct Hsub as [Hs | Hs].
    - assert (E : t1 ∩ t2 = t1) by (now apply subseteq_intersection_1_L).
      rewrite E. apply subseteq_size in Hs. split; lia.
    - assert (E : t1 ∩ t2 = t2)
        by (rewrite intersection_comm_L; now apply subseteq_intersection_1_L).
      rewrite E. apply subseteq_size in Hs. split; lia. }
  destruct Hfull as [-> Hpos].
  eapply Qle_trans; [|apply pymax_ge_right].
  rewrite (overlap_full _ Hpos). apply Qle_refl.
Qed.

(** X6: when one normalised name is contained in the other, the score
    is at least 0.9, whatever the ratio of the library, and the two
    names count as the same location at the default threshold 0.85. *)
Theorem contained_names_are_the_same_location (a b : text) :
  normalize order a <> [] -> normalize order b <> [] ->
  is_substring (normalize order a) (normalize order b)
  || is_substring (normalize order b) (normalize order a) = true ->
  (9 # 10 <= similarity ratio order a b)%Q
  /\ are_same_location ratio order (17 # 20) a b = true.
Proof.
  intros Ha Hb Hsub.
  assert (H9 : (9 # 10 <= similarity ratio order a b)%Q).
  { unfold similarity.
    destruct (normalize order a) as [|ca na] eqn:Ea; [contradiction|].
    destruct (normalize order b) as [|cb nb] eqn:Eb; [contradiction|].
    cbn [is_empty orb]. rewrite Hsub.
    destruct (bool_decide _ && bool_decide _).
    - eapply Qle_trans; [apply pymax_ge_right | apply pymax_ge_left].
    - apply pymax_ge_right. }
  split; [exact H9|].
  unfold are_same_location.
  destruct (Qlt_le_dec (similarity ratio order a b) (17 # 20)) as [H|H];
    [|reflexivity].
  exfalso. apply (Qlt_not_le _ _ H).
  eapply Qle_trans; [|exact H9]. unfold Qle. simpl. lia.
Qed.

(** X7: when every word of one normalised name is a word of the other,
    in whatever order, the score is at least 0.95 in both directions
    and the names count as the same location at the default
    threshold. *)
Theorem names_with_shared_words_are_the_same_location (a b : text) :
  normalize order a <> [] -> normalize order b <> [] ->
  (forall w, In w (words (normalize order a)) ->
             In w (words (normalize order b))) ->
  (19 # 20 <= similarity ratio order a b)%Q
  /\ (19 # 20 <= similarity ratio order b a)%Q
  /\ are_same_location ratio order (17 # 20) a b = true
  /\ are_same_location ratio order (17 # 20) b a = true.
Proof.
  intros Ha Hb Hw.
  assert (Hs : (list_to_set (words (normalize order a)) : gset text)
                 ⊆ list_to_set (words (normalize order b))).
  { intros w Hin. apply elem_of_list_to_set in Hin.
    apply elem_of_list_to_set. apply list_elem_of_In.
    apply Hw. now apply list_elem_of_In. }
  assert (H1 := similarity_of_subset_tokens a b Ha Hb (or_introl Hs)).
  assert (H2 := similarity_of_subset_tokens b a Hb Ha (or_intror Hs)).
  assert (Hsame : forall x y,
             (19 # 20 <= similarity ratio order x y)%Q ->
             are_same_location ratio order (17 # 20) x y = true).
  { intros x y H. unfold are_same_location.
    destruct (Qlt_le_dec (similarity ratio order x y) (17 # 20)) as [H'|H'];
      [|reflexivity].
    exfalso. apply (Qlt_not_le _ _ H').
    eapply Qle_trans; [|exact H]. unfold Qle. simpl. lia. }
  auto.
Qed.

End Facts.

Lemma similarity_between_0_and_1_witness :
  (0 <= similarity Difflib.ratio SEPARATORS (t "Ikeja GRA") (t "Lekki Phase 1"))%Q
  /\ (similarity Difflib.ratio SEPARATORS (t "Ikeja GRA") (t "Lekki Phase 1") <= 1)%Q.
Proof.
  apply (similarity_between_0_and_1 Difflib.ratio SEPARATORS
           (t "Ikeja GRA") (t "Lekki Phase 1")).
  - vm_compute. discriminate.
  - vm_compute. discriminate.
Defined.

Lemma contained_names_are_the_same_location_witness :
  (9 # 10 <= similarity Difflib.ratio SEPARATORS (t "Sangotedo") (t "sangotedo lagos"))%Q
  /\ are_same_location Difflib.ratio SEPARATORS (17 # 20)
       (t "Sangotedo") (t "sangotedo lagos") = true.
Proof.
  apply (contained_names_are_the_same_location Difflib.ratio SEPARATORS
           (t "Sangotedo") (t "sangotedo lagos")).
  - vm_compute. discriminate.
  - vm_compute. discriminate.
  - vm_compute. reflexivity.
Defined.

Lemma names_with_shared_words_are_the_same_location_witness :
  (19 # 20 <= similarity Difflib.ratio SEPARATORS (t "Ajah Lagos") (t "lagos ajah"))%Q
  /\ (19 # 20 <= similarity Difflib.ratio SEPARATORS (t "lagos ajah") (t "Ajah Lagos"))%Q
  /\ are_same_location Difflib.ratio SEPARATORS (17 # 20)
       (t "Ajah Lagos") (t "lagos ajah") = true
  /\ are_same_location Difflib.ratio SEPARATORS (17 # 20)
       (t "lagos ajah") (t "Ajah Lagos") = true.
Proof.
  apply (names_with_shared_words_are_the_same_location Difflib.ratio SEPARATORS
           (t "Ajah Lagos") (t "lagos ajah")).
  - vm_compute. discriminate.
  - vm_compute. discriminate.
  - vm_compute. intros w [<- | [<- | []]]; auto.
Defined.

End SimilarityBounds.



(* ===================================================================== *)
(** * The canonical form of a group of names: [get_canonical_form] *)
(* ===================================================================== *)

Module CanonicalFacts.
Import Chars Str Py LocationUtils Canonical.
Import Measures.

Lemma text_eqb_eq (a b : text) : text_eqb a b = true <-> a = b.
Proof.
  revert b. induction a as [|x a IH]; intros [|y b]; cbn; split;
    try discriminate; try reflexivity.
  - intros H. apply andb_true_iff in H as [Hx Hab].
    apply Ascii.eqb_eq in Hx. apply IH in Hab. congruence.
  - intros H. inversion H; subst. apply andb_true_iff. split.
    + apply Ascii.eqb_refl.
    + now apply IH.
Qed.

Lemma text_eqb_refl (a : text) : text_eqb a a = true.
Proof. now apply text_eqb_eq. Qed.

Lemma text_eqb_sym (a b : text) : text_eqb a b = text_eqb b a.
Proof.
  destruct (text_eqb a b) eqn:E.
  - apply text_eqb_eq in E. subst. symmetry. apply text_eqb_refl.
  - destruct (text_eqb b a) eqn:E'; [|reflexivity].
    apply text_eqb_eq in E'. subst. now rewrite text_eqb_refl in E.
Qed.

Lemma held_counter_add y x c :
  held y (counter_add x c) = held y c + (if text_eqb y x then 1 else 0).
Proof.
  induction c as [|[k n] c IH]; cbn.
  - now destruct (text_eqb y x).
  - destruct (text_eqb x k) eqn:Exk; cbn.
    + apply text_eqb_eq in Exk. subst k.
      destruct (text_eqb y x); lia.
    + destruct (text_eqb y k) eqn:Eyk; [|exact IH].
      apply text_eqb_eq in Eyk. subst k.
      rewrite (text_eqb_sym y x), Exk. lia.
Qed.

Lemma count_in_app y l x :
  count_in y (l ++ [x]) = count_in y l + (if text_eqb y x then 1 else 0).
Proof.
  unfold count_in. rewrite List.filter_app, length_app. cbn.
  now destruct (text_eqb y x).
Qed.

Lemma Counter_app l x : Counter (l ++ [x]) = counter_add x (Counter l).
Proof. unfold Counter. now rewrite fold_left_app. Qed.

Lemma held_Counter y l : held y (Counter l) = count_in y l.
Proof.
  induction l as [|x l IH] using rev_ind; [reflexivity|].
  now rewrite Counter_app, held_counter_add, count_in_app, IH.
Qed.

Lemma counter_add_keys x c :
  map fst (counter_add x c)
  = if existsb (text_eqb x) (map fst c) then map fst c else map fst c ++ [x].
Proof.
  induction c as [|[k n] c IH]; [reflexivity|]. cbn.
  destruct (text_eqb x k) eqn:E; cbn; [reflexivity|].
  rewrite IH. now destruct (existsb (text_eqb x) (map fst c)).
Qed.

Lemma existsb_text_eqb x l : existsb (text_eqb x) l = false -> ~ In x l.
Proof.
  intros H Hin.
  assert (E : existsb (text_eqb x) l = true).
  { apply existsb_exists. exists x. split; [exact Hin | apply text_eqb_refl]. }
  congruence.
Qed.

Lemma Counter_keys l :
  List.NoDup (map fst (Counter l))
  /\ (forall k, In k (map fst (Counter l)) -> In k l).
Proof.
  induction l as [|x l [IH1 IH2]] using rev_ind.
  - split; [constructor | intros k []].
  - rewrite Counter_app, counter_add_keys.
    destruct (existsb (text_eqb x) (map fst (Counter l))) eqn:E.
    + split; [exact IH1|]. intros k Hk. apply in_or_app. left. now apply IH2.
    + split.
      * apply List.NoDup_app; [exact IH1 | repeat constructor; intros [] |].
        intros k Hk [<- | []]. exact (existsb_text_eqb _ _ E Hk).
      * intros k Hk. apply in_app_or in Hk as [Hk | [<- | []]];
          apply in_or_app; [left; now apply IH2 | right; now left].
Qed.

Lemma held_in k n c :
  List.NoDup (map fst c) -> In (k, n) c -> held k c = n.
Proof.
  induction c as [|[k' n'] c IH]; [intros _ []|].
  cbn. intros Hnd Hin. apply List.NoDup_cons_iff in Hnd as [Hk Hnd].
  destruct Hin as [E | Hin].
  - inversion E; subst. now rewrite text_eqb_refl.
  - destruct (text_eqb k k') eqn:E; [|now apply IH].
    apply text_eqb_eq in E. subst k'. exfalso. apply Hk.
    apply in_map_iff. exists (k, n). auto.
Qed.

Lemma held_positive y c : 0 < held y c -> In (y, held y c) c.
Proof.
  induction c as [|[k n] c IH]; cbn; [lia|].
  destruct (text_eqb y k) eqn:E.
  - apply text_eqb_eq in E. subst k. now left.
  - intros H. right. now apply IH.
Qed.

Lemma max_from_spec {A} (key : A -> nat) (best : A) (l : list A) :
  In (max_from key best l) (best :: l)
  /\ (forall x, In x (best :: l) -> key x <= key (max_from key best l)).
Proof.
  revert best. induction l as [|y l IH]; intros best.
  - split; [now left | intros x [<- | []]; cbn; lia].
  - cbn [max_from].
    set (b := if key best <? key y then y else best).
    assert (Hb : (b = best \/ b = y) /\ key best <= key b /\ key y <= key b).
    { subst b. destruct (Nat.ltb_spec (key best) (key y)); split; auto; lia. }
    destruct Hb as (Hb & Hb1 & Hb2).
    destruct (IH b) as [Hin Hmax].
    split.
    + destruct Hin as [E | Hin]; [|right; now right].
      rewrite <- E. destruct Hb as [-> | ->]; [now left | right; now left].
    + intros x [<- | [<- | Hx]].
      * etransitivity; [exact Hb1 | apply Hmax; now left].
      * etransitivity; [exact Hb2 | apply Hmax; now left].
      * apply Hmax. now right.
Qed.

Lemma count_in_positive y l : In y l -> 0 < count_in y l.
Proof.
  unfold count_in. induction l as [|x l IH]; [intros []|].
  intros [<- | Hin]; cbn.
  - rewrite text_eqb_refl. cbn. lia.
  - destruct (text_eqb y x); cbn; [lia | now apply IH].
Qed.

Section Facts.
Variable order : list ascii.

Lemma originals_filter (cn : text) (locations : list text) :
  map fst (List.filter (fun item => text_eqb (snd item) cn)
             (map (fun loc => (loc, normalize order loc)) locations))
  = List.filter (fun loc => text_eqb (normalize order loc) cn) locations.
Proof.
  induction locations as [|y ys IH]; [reflexivity|].
  cbn. destruct (text_eqb (normalize order y) cn); cbn; now rewrite IH.
Qed.

(** What [get_canonical_form] computes for a list that is not empty:
    the most frequent normalised form and the originals that have
    it. *)
Lemma canonical_unfold (first : text) (rest : list text) :
  let locations := first :: rest in
  let norms := map (normalize order) locations in
  exists canonical_normalized x l,
    In canonical_normalized norms
    /\ (forall n, In n norms ->
                  count_in n norms <= count_in canonical_normalized norms)
    /\ List.filter (fun loc => text_eqb (normalize order loc) canonical_normalized)
                   locations = x :: l
    /\ get_canonical_form order locations
       = Ok (max_from (@length ascii) x l, locations).
Proof.
  intros locations norms.
  assert (Hnorms : map snd (map (fun loc => (loc, normalize order loc)) locations)
                   = norms).
  { unfold norms. rewrite map_map. reflexivity. }
  assert (Hfilter := fun cn => originals_filter cn locations).
  unfold get_canonical_form. fold locations. cbv zeta.
  rewrite Hnorms.
  destruct (Counter_keys norms) as [Hnd Hkeys].
  assert (Hne : Counter norms <> []).
  { intros E.
    assert (H := held_Counter (normalize order first) norms).
    rewrite E in H. cbn [held] in H.
    assert (0 < count_in (normalize order first) norms).
    { apply count_in_positive. unfold norms, locations. cbn. now left. }
    lia. }
  destruct (Counter norms) as [|item c'] eqn:Ec; [contradiction|].
  cbn [most_common_1].
  destruct (max_from_spec snd item c') as [Hin Hmax].
  destruct (max_from snd item c') as [cn m] eqn:Em.
  rewrite <- Ec in Hin, Hmax, Hnd, Hkeys.
  assert (Hm : m = count_in cn norms).
  { rewrite <- held_Counter. symmetry. now apply held_in. }
  assert (Hcn : In cn norms).
  { apply Hkeys. apply in_map_iff. exists (cn, m). auto. }
  rewrite Hfilter.
  assert (Hpos : exists x l,
             List.filter (fun loc => text_eqb (normalize order loc) cn) locations
             = x :: l).
  { unfold norms in Hcn. apply in_map_iff in Hcn as (loc & Hloc & Hl).
    destruct (List.filter (fun loc => text_eqb (normalize order loc) cn) locations)
      as [|x l] eqn:Ef; [|eauto].
    exfalso.
    assert (Hx : In loc (List.filter
                           (fun loc => text_eqb (normalize order loc) cn) locations)).
    { apply List.filter_In. split; [exact Hl | now apply text_eqb_eq]. }
    now rewrite Ef in Hx. }
  destruct Hpos as (x & l & Ef). rewrite Ef.
  exists cn, x, l. split; [exact Hcn|]. split; [|split; [exact Ef|reflexivity]].
  intros n Hn.
  assert (Hn' : In (n, held n (Counter norms)) (Counter norms)).
  { apply held_positive. rewrite held_Counter. now apply count_in_positive. }
  assert (H1 := Hmax _ Hn'). cbn [snd] in H1. rewrite held_Counter in H1. lia.
Qed.

(** X8: [get_canonical_form] never raises and hands the list of
    locations back as it received it; the canonical form of the empty
    list is the empty string, and otherwise it is one of the
    locations. *)
Theorem get_canonical_form_returns_a_member (locations : list text) :
  exists c,
    get_canonical_form order locations = Ok (c, locations)
    /\ (locations = [] -> c = [])
    /\ (locations <> [] -> In c locations).
Proof.
  destruct locations as [|first rest].
  - exists []. split; [reflexivity|]. split; [reflexivity|].
    intros H. now destruct H.
  - destruct (canonical_unfold first rest) as (cn & x & l & _ & _ & Ef & E).
    eexists. split; [exact E|]. split; [discriminate|]. intros _.
    destruct (max_from_spec (@length ascii) x l) as [Hin _].
    rewrite <- Ef in Hin. now apply List.filter_In in Hin.
Qed.

(** X9: the canonical form belongs to the most frequent normalised
    form of the group, and among the locations that share its
    normalised form none is longer. *)
Theorem canonical_form_is_most_frequent_and_longest
        (locations : list text) (c : text) (l : list text) (loc : text) :
  get_canonical_form order locations = Ok (c, l) ->
  In loc locations ->
  occurrences order locations (normalize order loc)
  <= occurrences order locations (normalize order c)
  /\ (normalize order loc = normalize order c -> length loc <= length c).
Proof.
  intros E Hloc. destruct locations as [|first rest]; [destruct Hloc|].
  destruct (canonical_unfold first rest) as (cn & x & xs & Hcn & Hmost & Ef & E').
  rewrite E' in E. inversion E; subst c l. clear E.
  destruct (max_from_spec (@length ascii) x xs) as [Hin Hmax].
  set (c := max_from (@length ascii) x xs) in *.
  assert (Hc : normalize order c = cn).
  { rewrite <- Ef in Hin. apply List.filter_In in Hin as [_ Hin].
    now apply text_eqb_eq. }
  split.
  - rewrite Hc. apply Hmost. now apply in_map.
  - intros En. apply Hmax. rewrite <- Ef. apply List.filter_In.
    split; [exact Hloc|]. apply text_eqb_eq. congruence.
Qed.

End Facts.

Lemma canonical_form_is_most_frequent_and_longest_witness :
  occurrences SEPARATORS
    [t "Ikeja"; t "lekki"; t "Lekki Phase 1"; t "LEKKI"] (normalize SEPARATORS (t "Ikeja"))
  <= occurrences SEPARATORS
       [t "Ikeja"; t "lekki"; t "Lekki Phase 1"; t "LEKKI"]
       (normalize SEPARATORS (t "Lekki Phase 1"))
  /\ (normalize SEPARATORS (t "Ikeja") = normalize SEPARATORS (t "Lekki Phase 1") ->
      length (t "Ikeja") <= length (t "Lekki Phase 1")).
Proof.
  apply (canonical_form_is_most_frequent_and_longest SEPARATORS
           [t "Ikeja"; t "lekki"; t "Lekki Phase 1"; t "LEKKI"]
           (t "Lekki Phase 1")
           [t "Ikeja"; t "lekki"; t "Lekki Phase 1"; t "LEKKI"]
           (t "Ikeja")).
  - vm_compute. reflexivity.
  - now left.
Defined.

End CanonicalFacts.



(* ===================================================================== *)
(** * The ring size of a search radius: [get_h3_ring_for_radius] *)
(* ===================================================================== *)

Module RingFacts.
Import Py Rings.
Import Measures.

(** Truncation towards zero is monotone. *)
Lemma truncate_mono (x y : Q) :
  (x <= y)%Q ->
  (Z.quot (Qnum x) (Zpos (Qden x)) <= Z.quot (Qnum y) (Zpos (Qden y)))%Z.
Proof.
  destruct x as [a b], y as [c d]. unfold Qle. cbn [Qnum Qden].
  intros H.
  rewrite <- (Z.quot_mul_cancel_r a (Zpos b) (Zpos d)) by lia.
  rewrite <- (Z.quot_mul_cancel_r c (Zpos d) (Zpos b)) by lia.
  rewrite (Z.mul_comm (Zpos d) (Zpos b)).
  apply Z.quot_le_mono; lia.
Qed.

Lemma edge_of_positive resolution : (0 < edge_of resolution * 2)%Q.
Proof.
  unfold edge_of, PROPERTY_EDGE_SPECS. cbn [dict_get].
  destruct (7 =? resolution)%Z; [reflexivity|].
  destruct (8 =? resolution)%Z; [reflexivity|].
  destruct (9 =? resolution)%Z; [reflexivity|].
  destruct (10 =? resolution)%Z; reflexivity.
Qed.

(** A radius of at most [10^300] divided by twice an edge length of the
    table is well inside the range of a float. *)
Lemma edge_of_in_range resolution :
  (inject_Z (10 ^ 300) <= inject_Z (2 ^ 1023) * (edge_of resolution * 2))%Q
  /\ (- inject_Z (2 ^ 1023) * (edge_of resolution * 2) <= - inject_Z (10 ^ 300))%Q.
Proof.
  unfold edge_of, PROPERTY_EDGE_SPECS. cbn [dict_get].
  destruct (7 =? resolution)%Z;
    [split; apply Qle_bool_imp_le; vm_compute; reflexivity|].
  destruct (8 =? resolution)%Z;
    [split; apply Qle_bool_imp_le; vm_compute; reflexivity|].
  destruct (9 =? resolution)%Z;
    [split; apply Qle_bool_imp_le; vm_compute; reflexivity|].
  destruct (10 =? resolution)%Z;
    split; apply Qle_bool_imp_le; vm_compute; reflexivity.
Qed.

Lemma quotient_in_range radius_km resolution :
  (- inject_Z (10 ^ 300) <= radius_km)%Q ->
  (radius_km <= inject_Z (10 ^ 300))%Q ->
  (- inject_Z (2 ^ 1023) <= radius_km / (edge_of resolution * 2))%Q
  /\ (radius_km / (edge_of resolution * 2) <= inject_Z (2 ^ 1023))%Q.
Proof.
  intros Hlo Hhi. destruct (edge_of_in_range resolution) as [Hup Hdown].
  assert (Hpos := edge_of_positive resolution).
  split.
  - apply Qle_shift_div_l; [exact Hpos|].
    exact (Qle_trans _ _ _ Hdown Hlo).
  - apply Qle_shift_div_r; [exact Hpos|].
    exact (Qle_trans _ _ _ Hhi Hup).
Qed.

(** The stand-in arithmetic has the two properties assumed of the
    division of floats. *)
Lemma exact_floats_in_range : division_in_range (H := exact_floats).
Proof.
  intros x y _ Hlo Hhi. unfold truediv, exact_floats.
  assert (Hbig : (inject_Z (2 ^ 1023) < inject_Z (2 ^ 1024))%Q)
    by (vm_compute; reflexivity).
  destruct (Qle_bool (inject_Z (2 ^ 1024)) (x / y)) eqn:E1.
  { apply Qle_bool_iff in E1. exfalso.
    apply (Qlt_not_le _ _ Hbig). exact (Qle_trans _ _ _ E1 Hhi). }
  destruct (Qle_bool (x / y) (- inject_Z (2 ^ 1024))) eqn:E2.
  { apply Qle_bool_iff in E2. exfalso.
    assert (Hneg : (- inject_Z (2 ^ 1024) < - inject_Z (2 ^ 1023))%Q)
      by (vm_compute; reflexivity).
    apply (Qlt_not_le _ _ Hneg). exact (Qle_trans _ _ _ Hlo E2). }
  eauto.
Qed.

Lemma exact_floats_monotone : division_monotone (H := exact_floats).
Proof.
  intros x x' y q q' Hy Hle. unfold truediv, exact_floats.
  destruct (Qle_bool _ (x / y)); [discriminate|].
  destruct (Qle_bool (x / y) _); [discriminate|].
  destruct (Qle_bool _ (x' / y)); [discriminate|].
  destruct (Qle_bool (x' / y) _); [discriminate|].
  intros E E'. inversion E; inversion E'; subst.
  unfold Qdiv. apply Qmult_le_compat_r; [exact Hle|].
  apply Qlt_le_weak, Qinv_lt_0_compat, Hy.
Qed.

Section Facts.
Context `{FA : FloatArithmetic}.

Lemma ring_unfold radius_km resolution :
  get_h3_ring_for_radius radius_km resolution
  = match int_of_float (truediv radius_km (edge_of resolution * 2)%Q) with
    | Raise e => Raise e
    | Ok i => Ok (Z.min (Z.max 1 i) 5)
    end.
Proof. reflexivity. Qed.

(** X10: for a radius of at most [10^300] km either way, whatever the
    resolution, the ring size is an integer between 1 and 5; it does
    not shrink when the radius grows; and a resolution without an
    entry in the table of edge lengths is treated as resolution 8.
    For any radius at all, a ring size that is returned lies between
    1 and 5, and the one exception is the [OverflowError] of [int]
    on a quotient that is out of the range of a float. *)
Theorem ring_between_1_and_5 (radius_km : Q) (resolution : Z) :
  division_in_range ->
  division_monotone ->
  (- inject_Z (10 ^ 300) <= radius_km)%Q ->
  (radius_km <= inject_Z (10 ^ 300))%Q ->
  (exists k,
      get_h3_ring_for_radius radius_km resolution = Ok k
      /\ (1 <= k <= 5)%Z
      /\ (forall larger k',
             (radius_km <= larger)%Q ->
             get_h3_ring_for_radius larger resolution = Ok k' -> (k <= k')%Z)
      /\ (dict_get resolution PROPERTY_EDGE_SPECS = None ->
          get_h3_ring_for_radius radius_km 8 = Ok k))
  /\ (forall any k,
         get_h3_ring_for_radius any resolution = Ok k -> (1 <= k <= 5)%Z)
  /\ (forall any e,
         get_h3_ring_for_radius any resolution = Raise e ->
         e = OtherException "OverflowError").
Proof.
  intros Hrange Hmono Hlo Hhi.
  assert (Hpos := edge_of_positive resolution).
  destruct (quotient_in_range radius_km resolution Hlo Hhi) as [Qlo Qhi].
  destruct (Hrange radius_km _ Hpos Qlo Qhi) as [q Eq].
  split; [|split].
  - rewrite ring_unfold, Eq. cbn [int_of_float]. eexists.
    split; [reflexivity|]. split; [lia|]. split.
    + intros larger k' Hle E. rewrite ring_unfold in E.
      destruct (truediv larger _) as [q'|neg] eqn:Eq'; [|discriminate].
      cbn [int_of_float] in E. inversion E; subst k'.
      assert (H := truncate_mono q q' (Hmono _ _ _ _ _ Hpos Hle Eq Eq')).
      lia.
    + intros Hnone. rewrite ring_unfold.
      replace (edge_of 8) with (edge_of resolution)
        by (unfold edge_of; now rewrite Hnone).
      now rewrite Eq.
  - intros any k. rewrite ring_unfold.
    destruct (int_of_float _) as [i|e]; [|discriminate].
    intros E. inversion E. lia.
  - intros any e. rewrite ring_unfold.
    destruct (truediv any _) as [q'|neg]; cbn [int_of_float]; [discriminate|].
    intros E. now inversion E.
Qed.

End Facts.

Lemma ring_between_1_and_5_witness :
  exists k,
    get_h3_ring_for_radius (FA := exact_floats) (13 # 10) 8 = Ok k
    /\ (1 <= k <= 5)%Z.
Proof.
  destruct (proj1 (ring_between_1_and_5 (FA := exact_floats) (13 # 10) 8
                     exact_floats_in_range exact_floats_monotone
                     ltac:(apply Qle_bool_imp_le; vm_compute; reflexivity)
                     ltac:(apply Qle_bool_imp_le; vm_compute; reflexivity)))
    as (k & E & Hk & _).
  exists k. split; [exact E | exact Hk].
Defined.

End RingFacts.



(* ===================================================================== *)
(** * The repository: lookups of one row and [save_changes] *)
(* ===================================================================== *)

Module RepositoryFacts.
Import Str Py Models Database External Repository DatabaseFacts TransactionFacts.
Import AtomicityFacts.
Import Views.

(** X11: [find_one_by_and_none], when the store answers its query,
    returns nothing when no row satisfies the condition, the row when
    exactly one does, and raises [DatabaseException] when several do,
    picking none of them; when the store fails it raises the same
    [DatabaseException].  Conversely an answer of nothing means that no
    row satisfies the condition and an answer of a row that this is the
    one row that does.  It writes nothing. *)
Theorem find_one_by_and_none_outcomes
        {R} (table : Tables -> list R) (p : R -> bool)
        (w : World) (r : result (option R)) (w' : World) :
  find_one_by_and_none table p w = (r, w') ->
  only_faults w w'
  /\ match r with
     | Ok None => List.filter p (table (working w)) = []
     | Ok (Some x) => List.filter p (table (working w)) = [x]
     | Raise e => e = DatabaseException "Failed to find record"
     end
  /\ (hd None (faults w) = None ->
      match List.filter p (table (working w)) with
      | [] => r = Ok None
      | [x] => r = Ok (Some x)
      | _ => r = Raise (DatabaseException "Failed to find record")
      end)
  /\ (forall failure,
         hd None (faults w) = Some failure ->
         r = Raise (DatabaseException "Failed to find record")).
Proof.
  unfold find_one_by_and_none, try_except, bind, session_exec, bind, round_trip,
    lift, one_or_none.
  destruct (faults w) as [|[e|] f] eqn:Hf; cbn [working with_faults hd];
    try (destruct (List.filter p (table (working w))) as [|x [|y l]]);
    cbn; intros E; inversion E; subst; clear E;
    (split; [unfold only_faults, frame; cbn; auto 10|]);
    (split; [reflexivity || auto|]);
    (split; [try discriminate; auto | try discriminate; auto]).
Qed.

(** X12: [save_changes] commits only outside of a transaction.  Inside
    one it flushes: the committed rows and the number of commits stay as
    they were.  Outside, a call that returns has committed exactly once
    and the committed rows are those of the session.  It never rolls
    back and never changes the transaction level. *)
Theorem save_changes_commits_only_outside_transaction
        {R} (row_of : Tables -> option R)
        (w : World) (r : result R) (w' : World) :
  save_changes row_of w = (r, w') ->
  (0 < transaction_level w ->
   commits w' = commits w /\ database w' = database w)
  /\ (transaction_level w = 0 ->
      forall x, r = Ok x ->
                commits w' = S (commits w)
                /\ database w' = working w'
                /\ row_of (working w') = Some x)
  /\ rollbacks w' = rollbacks w
  /\ transaction_level w' = transaction_level w.
Proof.
  intros E.
  destruct (Nat.ltb_spec 0 (transaction_level w)) as [Hl | Hl].
  - destruct (save_changes_inv _ _ _ _ Hl E) as [(Hd & Hc & Hr & Hlv) _].
    split; [auto|]. split; [intros H0; lia | auto].
  - assert (Hl0 : transaction_level w = 0) by lia.
    revert E. unfold save_changes, bind, in_transaction.
    rewrite Hl0. cbn [Nat.ltb Nat.leb].
    destruct (session_commit w) as [[[]|e] w1] eqn:Ec;
      destruct (session_commit_inv _ _ _ Ec) as (Hl1 & Hr1 & _ & Hres).
    + intros E. destruct (session_refresh_inv _ _ _ _ E) as [Hof Hrow].
      destruct Hof as ((Hd & Hc & Hr & Hlv) & Hw & _).
      destruct Hres as [Hc1 Hd1].
      split; [intros H0; lia|]. split; [|split; congruence].
      intros _ x Hx. split; [congruence|]. split; [congruence | now apply Hrow].
    + intros E. inversion E; subst. split; [intros H0; lia|].
      split; [discriminate | split; congruence].
Qed.

Lemma find_one_by_and_none_outcomes_witness :
  fst (find_one_by_and_none properties
         (fun p => text_eqb (title p) (t "3 Bedroom Flat")) twice_listed)
  = Raise (DatabaseException "Failed to find record")
  /\ fst (find_one_by_and_none properties
            (fun p => text_eqb (title p) (t "3 Bedroom Flat")) once_listed)
     = Ok (Some (listing 0 "3 Bedroom Flat"))
  /\ fst (find_one_by_and_none properties
            (fun p => text_eqb (title p) (t "Studio Apartment")) once_listed)
     = Ok None.
Proof.
  split; [|split].
  - exact (proj1 (proj2 (proj2 (find_one_by_and_none_outcomes properties
                                  (fun p => text_eqb (title p) (t "3 Bedroom Flat"))
                                  twice_listed _ _ (surjective_pairing _))))
             eq_refl).
  - exact (proj1 (proj2 (proj2 (find_one_by_and_none_outcomes properties
                                  (fun p => text_eqb (title p) (t "3 Bedroom Flat"))
                                  once_listed _ _ (surjective_pairing _))))
             eq_refl).
  - exact (proj1 (proj2 (proj2 (find_one_by_and_none_outcomes properties
                                  (fun p => text_eqb (title p) (t "Studio Apartment"))
                                  once_listed _ _ (surjective_pairing _))))
             eq_refl).
Defined.

Lemma save_changes_commits_only_outside_transaction_witness :
  commits (snd (save_changes (bucket_by_id 1) two_buckets)) = 1
  /\ database (snd (save_changes (bucket_by_id 1) two_buckets))
     = working (snd (save_changes (bucket_by_id 1) two_buckets))
  /\ bucket_by_id 1 (working (snd (save_changes (bucket_by_id 1) two_buckets)))
     = Some lagos.
Proof.
  exact (proj1 (proj2 (save_changes_commits_only_outside_transaction
                         (bucket_by_id 1) two_buckets (Ok lagos) _ eq_refl))
               eq_refl lagos eq_refl).
Defined.

End RepositoryFacts.



(* ===================================================================== *)
(** * The paths of [find_or_create_bucket] and the exceptions of the
      bucket service *)
(* ===================================================================== *)

Module ResolutionPaths.
Import Str Py Models Database External Repository GeoBucketService DatabaseFacts.
Import TransactionFacts ResolverFacts.
Import Views.

Lemma handlers_raise {A} (c : M A) (failed unexpected : string) w e w' :
  try_except c (handlers failed unexpected) w = (Raise e, w') ->
  e = AppException failed \/ e = AppException unexpected.
Proof.
  unfold try_except. destruct (c w) as [[a|e0] w1]; [discriminate|].
  unfold handlers, raise. destruct e0; intros E; inversion E; auto.
Qed.

Section Facts.
Context `{H3 : H3Library} `{PG : Postgres}.

(** The world after the miss path: the new row was written and saved. *)
Lemma find_or_create_miss_saved (w : World) (h : Z) (name norm : text) (parent : Z)
      (neighbors : list Z) (geometry : Point * Polygon) :
  faults w = [] ->
  pending w = [] ->
  exact_rows h w = [] ->
  H3Utils.get_neighbor_h3s h 1 = Ok neighbors ->
  fuzzy_rows neighbors norm w = [] ->
  H3Utils.h3_to_geometry h = Ok geometry ->
  exists w1,
    find_or_create_bucket h name norm parent w
    = (Ok (new_bucket w h name norm parent geometry),
       saved (transaction_level w) w1)
    /\ same_frame w w1
    /\ geo_buckets (working w1)
       = geo_buckets (working w) ++ [new_bucket w h name norm parent geometry]
    /\ properties (working w1) = properties (working w).
Proof.
  intros Hf Hp Hexact Hn Hfuzzy Hg.
  unfold find_or_create_bucket, try_except at 1, bind.
  rewrite (find_one_quiet _ _ _ Hf).
  fold (exact_rows h w). rewrite Hexact.
  unfold lift. rewrite Hn, (execute_raw_quiet _ _ Hf).
  fold (fuzzy_rows neighbors norm w). rewrite Hfuzzy, Hg.
  destruct geometry as [center_wkt hexagon_wkt].
  assert (Hmiss : has_h3_index h (working w) = false).
  { unfold has_h3_index. unfold exact_rows in Hexact.
    induction (geo_buckets (working w)) as [|x l IH]; [reflexivity|].
    cbn in *. destruct (h3_index x =? h)%Z; [discriminate|]. now apply IH. }
  set (schema := {| id := 0; h3_index := h; h3_resolution := 8;
                    parent_h3 := Some parent; canonical_name := name;
                    canonical_name_normalized := norm;
                    center_point := Some center_wkt;
                    hexagon_boundary := Some hexagon_wkt;
                    property_count := 0 |}).
  set (row := new_bucket w h name norm parent (center_wkt, hexagon_wkt)).
  set (w0 := with_pending (pending w ++ [InsertBucket schema]) w).
  assert (Hw : exists w1,
             apply_writes (pending w0) (with_pending [] w0) = (Ok tt, w1)
             /\ geo_buckets (working w1) = geo_buckets (working w) ++ [row]
             /\ properties (working w1) = properties (working w)).
  { subst w0. cbn. rewrite Hp. cbn. unfold apply_write. cbn. rewrite Hmiss.
    eexists. split; [reflexivity|]. cbn. auto. }
  destruct Hw as (w1 & Hw & Hb & Hpr).
  assert (Hframe := apply_writes_frame _ _ _ _ Hw).
  destruct Hframe as [Hsame _].
  assert (Hrow : bucket_by_h3 (h3_index schema) (working w1) = Some row).
  { unfold bucket_by_h3. rewrite Hb. cbn.
    apply (filter_app_miss _ _ row Hexact). cbn. apply Z.eqb_refl. }
  unfold create_bucket, try_except, bind, session_add.
  fold w0.
  rewrite (save_changes_quiet _ w0 w1 row) by (assumption || exact Hf).
  unfold ret, from_model.
  exists w1. split; [reflexivity|]. split; [|auto].
  destruct Hsame as (?&?&?&?&?). unfold same_frame. cbn in *. auto.
Qed.

(** X13: when no bucket has the cell but a bucket of a neighbouring
    cell has a similar enough name, that bucket is returned and nothing
    is written: the listing joins a bucket of a different cell, the
    first one in the table whose cell is a neighbour and whose name
    scores above 0.7. *)
Theorem find_or_create_reuses_similar_neighbor
        (w : World) (h : Z) (name norm : text) (parent : Z)
        (neighbors : list Z) (b : GeoBucket) (bs : list GeoBucket) :
  faults w = [] ->
  exact_rows h w = [] ->
  H3Utils.get_neighbor_h3s h 1 = Ok neighbors ->
  fuzzy_rows neighbors norm w = b :: bs ->
  find_or_create_bucket h name norm parent w = (Ok b, w)
  /\ In b (geo_buckets (working w))
  /\ In (h3_index b) neighbors
  /\ h3_index b <> h
  /\ (7 # 10 < pg_similarity (canonical_name_normalized b) norm)%Q.
Proof.
  intros Hf Hexact Hn Hfuzzy.
  split; [now apply (find_or_create_fuzzy w h name norm parent neighbors b bs)|].
  assert (Hin : In b (fuzzy_rows neighbors norm w)) by (rewrite Hfuzzy; now left).
  unfold fuzzy_rows in Hin. apply List.filter_In in Hin as [Hin Hc].
  apply andb_true_iff in Hc as [Hnb Hsim].
  split; [exact Hin|]. split; [|split].
  - apply existsb_exists in Hnb as (x & Hx & E).
    apply Z.eqb_eq in E. now rewrite E.
  - intros E.
    assert (Hb : In b (exact_rows h w)).
    { apply List.filter_In. split; [exact Hin | now apply Z.eqb_eq]. }
    now rewrite Hexact in Hb.
  - apply negb_true_iff in Hsim. apply Qnot_le_lt. intros Hle.
    apply Qle_bool_iff in Hle. congruence.
Qed.

(** X14: when neither lookup finds a bucket, one row is appended to the
    bucket table: it carries the next key of the sequence, the cell at
    resolution 8, the given names and parent, the centre and the
    boundary of the cell, and a count of zero.  No listing is touched.
    Outside of a transaction the row is committed at once; inside one it
    is only flushed. *)
Theorem find_or_create_creates_an_empty_bucket
        (w : World) (h : Z) (name norm : text) (parent : Z)
        (neighbors : list Z) (geometry : Point * Polygon) :
  faults w = [] ->
  pending w = [] ->
  exact_rows h w = [] ->
  H3Utils.get_neighbor_h3s h 1 = Ok neighbors ->
  fuzzy_rows neighbors norm w = [] ->
  H3Utils.h3_to_geometry h = Ok geometry ->
  exists w',
    find_or_create_bucket h name norm parent w
    = (Ok (new_bucket w h name norm parent geometry), w')
    /\ geo_buckets (working w')
       = geo_buckets (working w) ++ [new_bucket w h name norm parent geometry]
    /\ properties (working w') = properties (working w)
    /\ (0 < transaction_level w ->
        database w' = database w /\ commits w' = commits w)
    /\ (transaction_level w = 0 ->
        database w' = working w' /\ commits w' = S (commits w)).
Proof.
  intros Hf Hp Hexact Hn Hfuzzy Hg.
  destruct (find_or_create_miss_saved w h name norm parent neighbors geometry
              Hf Hp Hexact Hn Hfuzzy Hg) as (w1 & E & Hsame & Hb & Hpr).
  destruct Hsame as (Hd & Hl & _ & Hc & _).
  exists (saved (transaction_level w) w1). split; [exact E|].
  rewrite saved_working. split; [exact Hb|]. split; [exact Hpr|].
  unfold saved. split.
  - intros H0. apply Nat.ltb_lt in H0. rewrite H0. auto.
  - intros H0. rewrite H0. cbn. split; [reflexivity | congruence].
Qed.

(** X15: an exception of the [h3] library, raised for the neighbours
    of the cell or for its geometry, reaches the caller as the
    [AppException] for unexpected errors, and nothing is written. *)
Theorem find_or_create_reports_h3_failure
        (w : World) (h : Z) (name norm : text) (parent : Z) (e : exn) :
  faults w = [] ->
  exact_rows h w = [] ->
  (forall message, e <> DatabaseException message) ->
  H3Utils.get_neighbor_h3s h 1 = Raise e
  \/ (exists neighbors,
         H3Utils.get_neighbor_h3s h 1 = Ok neighbors
         /\ fuzzy_rows neighbors norm w = []
         /\ H3Utils.h3_to_geometry h = Raise e) ->
  find_or_create_bucket h name norm parent w
  = (Raise (AppException
              "An unexpected error occurred while trying find the geobucket."),
     w).
Proof.
  intros Hf Hexact He Hfail.
  unfold find_or_create_bucket, try_except, bind.
  rewrite (find_one_quiet _ _ _ Hf).
  fold (exact_rows h w). rewrite Hexact. unfold lift.
  destruct Hfail as [Hn | (neighbors & Hn & Hfuzzy & Hg)].
  - rewrite Hn. unfold handlers, raise.
    destruct e; try reflexivity. now destruct (He message).
  - rewrite Hn, (execute_raw_quiet _ _ Hf).
    fold (fuzzy_rows neighbors norm w). rewrite Hfuzzy, Hg.
    unfold handlers, raise.
    destruct e; try reflexivity. now destruct (He message).
Qed.

(** X16: whatever fails inside them, the four public methods of the
    bucket service raise nothing but [AppException], with one of the
    two messages of the method. *)
Theorem bucket_service_raises_app_exceptions :
  (forall h name norm parent w e w',
      find_or_create_bucket h name norm parent w = (Raise e, w') ->
      e = AppException "Failed to find or create geo bucket"
      \/ e = AppException
               "An unexpected error occurred while trying find the geobucket.")
  /\ (forall i w e w',
         increment_property_count i w = (Raise e, w') ->
         e = AppException "Failed to increment property count"
         \/ e = AppException
                  "An unexpected error occurred while incrementing the property count.")
  /\ (forall name limit w e w',
         FuzzySearch.get_fuzzy_buckets name limit w = (Raise e, w') ->
         e = AppException "Failed to retrieve fuzzy buckets"
         \/ e = AppException
                  "An unexpected error occurred while retrieving fuzzy geo buckets.")
  /\ (forall w e w',
         get_stats w = (Raise e, w') ->
         e = AppException "Failed to retrieve geo bucket stats"
         \/ e = AppException
                  "An unexpected error occurred while retrieving geo bucket statistics.").
Proof.
  repeat split; intros; eapply handlers_raise; eassumption.
Qed.

End Facts.

Lemma find_or_create_reuses_similar_neighbor_witness :
  GeoBucketService.find_or_create_bucket (H3 := StandIn.h3) (PG := StandIn.pg)
    8506502 (t "Lagos") (t "lagos") 7506502 two_buckets
  = (Ok lagos, two_buckets)
  /\ In lagos (geo_buckets (working two_buckets))
  /\ In (h3_index lagos) [8506502; 8506501; 8506503; 8505502; 8507502]%Z
  /\ h3_index lagos <> 8506502%Z
  /\ (7 # 10 < @pg_similarity StandIn.pg
                 (canonical_name_normalized lagos) (t "lagos"))%Q.
Proof.
  apply (find_or_create_reuses_similar_neighbor (H3 := StandIn.h3) (PG := StandIn.pg)
           two_buckets 8506502 (t "Lagos") (t "lagos") 7506502
           [8506502; 8506501; 8506503; 8505502; 8507502]%Z lagos []);
    reflexivity.
Defined.

Lemma find_or_create_creates_an_empty_bucket_witness :
  exists w',
    GeoBucketService.find_or_create_bucket (H3 := StandIn.h3) (PG := StandIn.pg)
      8507510 (t "Epe") (t "epe") 7507510 two_buckets
    = (Ok (new_bucket two_buckets 8507510 (t "Epe") (t "epe") 7507510
             ({| lng := 10; lat := 7 |}, [])), w')
    /\ geo_buckets (working w')
       = geo_buckets (working two_buckets)
         ++ [new_bucket two_buckets 8507510 (t "Epe") (t "epe") 7507510
               ({| lng := 10; lat := 7 |}, [])]
    /\ properties (working w') = properties (working two_buckets)
    /\ (0 < transaction_level two_buckets ->
        database w' = database two_buckets /\ commits w' = commits two_buckets)
    /\ (transaction_level two_buckets = 0 ->
        database w' = working w' /\ commits w' = S (commits two_buckets)).
Proof.
  apply (find_or_create_creates_an_empty_bucket (H3 := StandIn.h3) (PG := StandIn.pg)
           two_buckets 8507510 (t "Epe") (t "epe") 7507510
           [8507510; 8507509; 8507511; 8506510; 8508510]%Z
           ({| lng := 10; lat := 7 |}, []));
    reflexivity.
Defined.

Lemma find_or_create_reports_h3_failure_witness :
  GeoBucketService.find_or_create_bucket
    (H3 := {| latlng_to_cell := fun _ _ _ => Ok 0%Z;
              cell_to_latlng := fun _ => Raise (ValueError "invalid cell");
              cell_to_boundary := fun _ => Raise (ValueError "invalid cell");
              cell_to_parent := fun _ _ => Raise (ValueError "invalid cell");
              grid_disk := fun _ _ => Raise (ValueError "invalid cell") |})
    (PG := StandIn.pg)
    0 (t "Nowhere") (t "nowhere") 0 two_buckets
  = (Raise (AppException
              "An unexpected error occurred while trying find the geobucket."),
     two_buckets).
Proof.
  apply (find_or_create_reports_h3_failure
           (H3 := {| latlng_to_cell := fun _ _ _ => Ok 0%Z;
                     cell_to_latlng := fun _ => Raise (ValueError "invalid cell");
                     cell_to_boundary := fun _ => Raise (ValueError "invalid cell");
                     cell_to_parent := fun _ _ => Raise (ValueError "invalid cell");
                     grid_disk := fun _ _ => Raise (ValueError "invalid cell") |})
           (PG := StandIn.pg)
           two_buckets 0 (t "Nowhere") (t "nowhere") 0 (ValueError "invalid cell")).
  - reflexivity.
  - reflexivity.
  - discriminate.
  - left. reflexivity.
Defined.

End ResolutionPaths.



(* ===================================================================== *)
(** * The statistics report: [get_stats] under any answers of the store *)
(* ===================================================================== *)

Module ReportFacts.
Import Str Py Models Database External Repository GeoBucketService DatabaseFacts.
Import TransactionFacts IngestionFacts.
Import Views Measures.

(** *** Lists *)

Lemma strongly_sorted_app {A} (R : A -> A -> Prop) (l1 l2 : list A) :
  StronglySorted R (l1 ++ l2) ->
  forall x y, In x l1 -> In y l2 -> R x y.
Proof.
  induction l1 as [|a l1 IH]; [intros _ x y []|].
  cbn. intros H x y Hx Hy. apply StronglySorted_inv in H as [Hs Hall].
  destruct Hx as [<- | Hx]; [|now apply IH].
  rewrite Forall_forall in Hall. apply Hall.
  apply list_elem_of_In, in_or_app. now right.
Qed.

Lemma insert_desc_in b l x : In x (insert_desc b l) <-> x = b \/ In x l.
Proof.
  induction l as [|y l IH]; cbn; [intuition|].
  destruct (property_count y <? property_count b)%Z; cbn; [intuition|].
  rewrite IH. intuition.
Qed.

Lemma insert_desc_sorted b l :
  StronglySorted fuller l -> StronglySorted fuller (insert_desc b l).
Proof.
  induction l as [|y l IH]; intros H; cbn.
  - repeat constructor.
  - apply StronglySorted_inv in H as [Hs Hall].
    destruct (Z.ltb_spec (property_count y) (property_count b)) as [Hlt | Hge].
    + constructor; [constructor; assumption|].
      constructor; [unfold fuller; lia|].
      rewrite Forall_forall in *. intros x Hx. specialize (Hall x Hx).
      unfold fuller in *. lia.
    + constructor; [now apply IH|].
      rewrite Forall_forall in *. intros x Hx.
      apply list_elem_of_In, insert_desc_in in Hx as [-> | Hx].
      * exact Hge.
      * apply Hall. now apply list_elem_of_In.
Qed.

Lemma order_by_count_desc_in l x : In x (order_by_count_desc l) <-> In x l.
Proof.
  unfold order_by_count_desc. induction l as [|y l IH]; cbn; [reflexivity|].
  rewrite insert_desc_in, IH. intuition.
Qed.

Lemma order_by_count_desc_sorted l : StronglySorted fuller (order_by_count_desc l).
Proof.
  unfold order_by_count_desc. induction l as [|y l IH]; cbn; [constructor|].
  now apply insert_desc_sorted.
Qed.

Lemma strongly_sorted_take {A} (R : A -> A -> Prop) n (l : list A) :
  StronglySorted R l -> StronglySorted R (take n l).
Proof.
  revert n. induction l as [|a l IH]; intros [|n] H; cbn; try constructor.
  - apply IH. now apply StronglySorted_inv in H.
  - apply StronglySorted_inv in H as [_ Hall].
    rewrite Forall_forall in *. intros x Hx. apply Hall.
    apply list_elem_of_In in Hx. apply list_elem_of_In.
    rewrite <- (take_drop n l). apply in_or_app. now left.
Qed.

Lemma descending_of_sorted (l : list GeoBucket) :
  StronglySorted fuller l -> descending (map property_count l).
Proof.
  induction l as [|a [|b l] IH]; intros H; cbn; auto.
  apply StronglySorted_inv in H as [Hs Hall]. split; [|now apply IH].
  rewrite Forall_forall in Hall. apply Hall. left.
Qed.

Section Facts.
Context `{H3 : H3Library} `{PG : Postgres}.

(** *** The rows of the report *)

Lemma distributions_inv (buckets : list GeoBucket) ds :
  distributions buckets = Ok ds ->
  map dist_property_count ds = map property_count buckets
  /\ Forall2 (fun d b => bucket_id d = id b
                        /\ dist_h3_index d = h3_index b
                        /\ dist_canonical_name d = canonical_name b
                        /\ dist_property_count d = property_count b
                        /\ center_point b
                           = Some {| lng := center_lng d; lat := center_lat d |})
             ds buckets.
Proof.
  revert ds. induction buckets as [|b buckets IH]; intros ds; cbn.
  - intros E. inversion E. split; [reflexivity | constructor].
  - destruct (center_point b) as [[x y]|] eqn:Ec; [|discriminate].
    cbn. unfold H3Utils.rbind.
    destruct (distributions buckets) as [rest|e]; [|discriminate].
    intros E. inversion E; subst ds. clear E.
    destruct (IH rest eq_refl) as [Hc Hall]. cbn. split; [now rewrite Hc|].
    constructor; [cbn; auto 6 | exact Hall].
Qed.

(** A bucket without a centre point stops the report: its cell is
    handed to the package as an integer. *)
Lemma distributions_null (buckets : list GeoBucket) b :
  In b buckets -> center_point b = None ->
  distributions buckets = Raise (OtherException "TypeError").
Proof.
  intros Hin Hnull. induction buckets as [|x buckets IH]; [destruct Hin|].
  cbn. destruct (center_point x) as [p|] eqn:Ec; [|reflexivity].
  destruct Hin as [-> | Hin]; [congruence|].
  cbn. now rewrite (IH Hin).
Qed.

Lemma insert_desc_length b l : length (insert_desc b l) = S (length l).
Proof.
  induction l as [|x l IH]; cbn; [reflexivity|].
  destruct (property_count x <? property_count b)%Z; cbn; [reflexivity|].
  now rewrite IH.
Qed.

Lemma order_by_count_desc_length l : length (order_by_count_desc l) = length l.
Proof.
  induction l as [|b l IH]; cbn; [reflexivity|].
  fold (order_by_count_desc l). now rewrite insert_desc_length, IH.
Qed.

Lemma total_properties_inv w n w' :
  _get_total_properties w = (Ok n, w') ->
  only_faults w w' /\ n = count (properties (working w)).
Proof.
  intros E. destruct (session_exec_inv _ _ _ _ E) as [Hof Hv].
  split; [exact Hof | now apply Hv].
Qed.

Lemma basic_stats_inv w s w' :
  _get_basic_stats w = (Ok s, w') ->
  only_faults w w'
  /\ fst s = count (geo_buckets (working w))
  /\ snd s = count (List.filter (fun b => (property_count b =? 0)%Z)
                                (geo_buckets (working w))).
Proof.
  unfold _get_basic_stats. intros E.
  apply bind_inv in E as [(a & w1 & E1 & E) | (e & _ & ?)]; [|discriminate].
  apply bind_inv in E as [(b & w2 & E2 & E) | (e & _ & ?)]; [|discriminate].
  unfold ret in E. inversion E; subst. clear E.
  destruct (execute_raw_inv _ _ _ _ E1) as [Hof1 Hv1].
  destruct (execute_raw_inv _ _ _ _ E2) as [Hof2 Hv2].
  split; [exact (only_faults_trans _ _ _ Hof1 Hof2)|].
  cbn. split; [now apply Hv1|].
  rewrite (Hv2 b eq_refl). destruct Hof1 as (_ & Hw & _). now rewrite Hw.
Qed.

Lemma top_buckets_inv limit w top w' :
  _get_top_buckets limit w = (Ok top, w') ->
  only_faults w w'
  /\ distributions
       (take limit
          (order_by_count_desc
             (List.filter (fun b => (0 <? property_count b)%Z)
                          (geo_buckets (working w))))) = Ok top.
Proof.
  unfold _get_top_buckets. intros E.
  apply bind_inv in E as [(a & w1 & E1 & E) | (e & _ & ?)]; [|discriminate].
  apply lift_inv in E as [E ->].
  destruct (execute_raw_inv _ _ _ _ E1) as [Hof1 Hv1].
  split; [exact Hof1|]. now rewrite <- (Hv1 a eq_refl).
Qed.

Lemma calculate_bbox_area_inv a b c d w r w' :
  _calculate_bbox_area a b c d w = (r, w') -> only_faults w w'.
Proof.
  unfold _calculate_bbox_area. intros E.
  apply bind_inv in E as [(x & w1 & E1 & E) | (e & E1 & _)].
  - destruct (session_exec_inv _ _ _ _ E1) as [Hof _].
    destruct x; unfold ret in E; inversion E; subst; exact Hof.
  - exact (proj1 (session_exec_inv _ _ _ _ E1)).
Qed.

Lemma coverage_inv n w c w' :
  _get_coverage_stats n w = (Ok c, w') ->
  only_faults w w'
  /\ bounding_box c = box_of (st_extent (center_points (working w)))
  /\ unique_locations c
     = count (distinct (map canonical_name_normalized (geo_buckets (working w))))
  /\ ((bounding_box c = None /\ total_area_km2 c = None
       /\ avg_bucket_density c = 0%Q)
      \/ (exists area,
             bounding_box c <> None
             /\ total_area_km2 c = Some area
             /\ avg_bucket_density c
                = if negb (Qeq_bool area 0) && negb (Qle_bool area 0)
                  then (inject_Z n / area)%Q else 0%Q)).
Proof.
  unfold _get_coverage_stats. intros E.
  apply bind_inv in E as [(bbox & w1 & E1 & E) | (e & _ & ?)]; [|discriminate].
  destruct (execute_raw_inv _ _ _ _ E1) as [Hof1 Hv1].
  specialize (Hv1 bbox eq_refl).
  apply bind_inv in E as [([box area] & w2 & E2 & E) | (e & _ & ?)]; [|discriminate].
  apply bind_inv in E as [(u & w3 & E3 & E) | (e & _ & ?)]; [|discriminate].
  destruct (execute_raw_inv _ _ _ _ E3) as [Hof3 Hv3].
  specialize (Hv3 u eq_refl).
  unfold ret in E. inversion E; subst c w3. clear E. cbn.
  assert (H2 : only_faults w1 w2
               /\ box = box_of bbox
               /\ (box = None -> area = None)
               /\ (area = None -> box = None)).
  { revert E2. unfold box_of.
    destruct (row_min_lat bbox) as [mnlat|],
             (row_max_lat bbox) as [mxlat|],
             (row_min_lng bbox) as [mnlng|],
             (row_max_lng bbox) as [mxlng|];
      try (unfold ret; intros E; inversion E; subst;
           split; [apply only_faults_refl | auto]).
    destruct (truthy _ && truthy _ && truthy _ && truthy _).
    - intros E.
      apply bind_inv in E as [(a & w1' & Ea & E) | (e & _ & ?)]; [|discriminate].
      unfold ret in E. inversion E; subst.
      split; [exact (calculate_bbox_area_inv _ _ _ _ _ _ _ Ea)|].
      split; [reflexivity | split; discriminate].
    - unfold ret. intros E. inversion E; subst.
      split; [apply only_faults_refl | auto]. }
  destruct H2 as (Hof2 & Hbox & Hba & Hab).
  assert (Hof12 := only_faults_trans _ _ _ Hof1 Hof2).
  split; [exact (only_faults_trans _ _ _ Hof12 Hof3)|].
  split; [now rewrite Hbox, Hv1|].
  split.
  { rewrite Hv3. destruct Hof12 as (_ & Hw & _). now rewrite Hw. }
  destruct area as [area|].
  - right. exists area. split; [|auto].
    intros Hn. specialize (Hba Hn). discriminate.
  - left. rewrite (Hab eq_refl). auto.
Qed.

Lemma resolution_stats_inv w rs w' :
  _get_resolution_stats w = (Ok rs, w') ->
  only_faults w w'
  /\ rs = map (resolution_group (working w))
              (fold_right insert_asc [] (map h3_resolution (geo_buckets (working w)))).
Proof.
  intros E. destruct (execute_raw_inv _ _ _ _ E) as [Hof Hv].
  split; [exact Hof | now apply Hv].
Qed.

(** Everything [get_stats] reads, it reads from the rows of the session
    as they were at the call. *)
Lemma get_stats_inv w stats w' :
  get_stats w = (Ok stats, w') ->
  only_faults w w'
  /\ total_properties stats = count (properties (working w))
  /\ total_buckets stats = count (geo_buckets (working w))
  /\ empty_buckets stats
     = count (List.filter (fun b => (property_count b =? 0)%Z)
                          (geo_buckets (working w)))
  /\ distributions
       (take 10
          (order_by_count_desc
             (List.filter (fun b => (0 <? property_count b)%Z)
                          (geo_buckets (working w))))) = Ok (top_buckets stats)
  /\ (exists w0, working w0 = working w
                 /\ fst (_get_coverage_stats (total_properties stats) w0)
                    = Ok (coverage stats))
  /\ resolution_stats stats
     = map (resolution_group (working w))
           (fold_right insert_asc [] (map h3_resolution (geo_buckets (working w)))).
Proof.
  unfold get_stats. intros E.
  apply try_except_inv in E as (r0 & E & Hr0);
    [|apply service_handlers_translate].
  specialize (Hr0 stats eq_refl). subst r0.
  apply bind_inv in E as [(n & w1 & E1 & E) | (e & _ & ?)]; [|discriminate].
  apply bind_inv in E as [(s & w2 & E2 & E) | (e & _ & ?)]; [|discriminate].
  apply bind_inv in E as [(top & w3 & E3 & E) | (e & _ & ?)]; [|discriminate].
  apply bind_inv in E as [(c & w4 & E4 & E) | (e & _ & ?)]; [|discriminate].
  apply bind_inv in E as [(rs & w5 & E5 & E) | (e & _ & ?)]; [|discriminate].
  unfold ret in E. inversion E; subst stats w5. clear E. cbn.
  destruct (total_properties_inv _ _ _ E1) as [Hof1 Hn].
  destruct (basic_stats_inv _ _ _ E2) as (Hof2 & Hs1 & Hs2).
  destruct (top_buckets_inv _ _ _ _ E3) as [Hof3 Htop].
  destruct (coverage_inv _ _ _ _ E4) as (Hof4 & _).
  destruct (resolution_stats_inv _ _ _ E5) as [Hof5 Hrs].
  assert (Hof12 := only_faults_trans _ _ _ Hof1 Hof2).
  assert (Hof13 := only_faults_trans _ _ _ Hof12 Hof3).
  assert (Hof14 := only_faults_trans _ _ _ Hof13 Hof4).
  assert (Hw1 : working w1 = working w) by now destruct Hof1 as (_ & ? & _).
  assert (Hw2 : working w2 = working w) by now destruct Hof12 as (_ & ? & _).
  assert (Hw3 : working w3 = working w) by now destruct Hof13 as (_ & ? & _).
  assert (Hw4 : working w4 = working w) by now destruct Hof14 as (_ & ? & _).
  split; [exact (only_faults_trans _ _ _ Hof14 Hof5)|].
  split; [exact Hn|].
  split; [now rewrite Hs1, Hw1|].
  split; [now rewrite Hs2, Hw1|].
  split; [now rewrite <- Htop, Hw2|].
  split; [exists w3; split; [exact Hw3 | now rewrite E4]|].
  now rewrite Hrs, Hw4.
Qed.

(** *** Counters *)

Lemma distinct_length (l : list text) : length (distinct l) <= length l.
Proof.
  induction l as [|x l IH]; [reflexivity|]. cbn.
  destruct (existsb (text_eqb x) l); cbn; lia.
Qed.

(** X17: [get_stats] writes nothing, and its counters are those of the
    tables: the number of buckets, of listings and of buckets with a
    count of zero; the number of empty buckets and the number of
    distinct normalised names never exceed the number of buckets. *)
Theorem get_stats_counts_the_rows (w : World) (stats : GeoBucketStats) (w' : World) :
  get_stats w = (Ok stats, w') ->
  only_faults w w'
  /\ total_buckets stats = count (geo_buckets (working w))
  /\ total_properties stats = count (properties (working w))
  /\ empty_buckets stats
     = count (List.filter (fun b => (property_count b =? 0)%Z)
                          (geo_buckets (working w)))
  /\ (0 <= empty_buckets stats <= total_buckets stats)%Z
  /\ (0 <= unique_locations (coverage stats) <= total_buckets stats)%Z.
Proof.
  intros E.
  destruct (get_stats_inv _ _ _ E)
    as (Hof & Hn & Hb & He & _ & (w0 & Hw0 & Hc) & _).
  split; [exact Hof|]. split; [exact Hb|]. split; [exact Hn|].
  split; [exact He|]. rewrite He, Hb. unfold count. split.
  - split; [lia|]. apply inj_le. apply List.filter_length_le.
  - destruct (_get_coverage_stats (total_properties stats) w0) as [r w1] eqn:Ec.
    cbn in Hc. subst r.
    destruct (coverage_inv _ _ _ _ Ec) as (_ & _ & Hu & _).
    rewrite Hu, Hw0. unfold count. split; [lia|].
    apply inj_le. etransitivity; [apply distinct_length|].
    now rewrite length_map.
Qed.

(** *** The fullest buckets *)

Lemma forall2_in_right {A B} (P : A -> B -> Prop) la lb b :
  Forall2 P la lb -> In b lb -> exists a, In a la /\ P a b.
Proof.
  induction 1 as [|x y la lb Hxy Hall IH]; [intros []|].
  intros [<- | Hin]; [exists x; split; [now left | exact Hxy]|].
  destruct (IH Hin) as (a & Ha & Hp). exists a. split; [now right | exact Hp].
Qed.

Lemma forall2_in_left {A B} (P : A -> B -> Prop) la lb a :
  Forall2 P la lb -> In a la -> exists b, In b lb /\ P a b.
Proof.
  induction 1 as [|x y la lb Hxy Hall IH]; [intros []|].
  intros [<- | Hin]; [exists y; split; [now left | exact Hxy]|].
  destruct (IH Hin) as (b & Hb & Hp). exists b. split; [now right | exact Hp].
Qed.

(** X18: the report lists at most ten buckets, fullest first; each of
    them is a stored bucket with a positive count and a centre point,
    whose coordinates it shows; and a stored bucket with a positive
    count that is not listed is no fuller than any listed one, the
    list then being full.  A bucket with a positive count and without
    a centre point, in a store with at most ten buckets of positive
    count, makes [get_stats] fail with the [AppException] for
    unexpected errors: its cell is handed to the [h3] package as an
    integer. *)
Theorem top_buckets_are_the_fullest (w : World) :
  (forall stats w',
      get_stats w = (Ok stats, w') ->
      length (top_buckets stats) <= 10
      /\ descending (map dist_property_count (top_buckets stats))
      /\ (forall d, In d (top_buckets stats) ->
            (0 < dist_property_count d)%Z
            /\ exists b, In b (geo_buckets (working w))
                         /\ id b = bucket_id d
                         /\ canonical_name b = dist_canonical_name d
                         /\ property_count b = dist_property_count d
                         /\ center_point b
                            = Some {| lng := center_lng d; lat := center_lat d |})
      /\ (forall b, In b (geo_buckets (working w)) ->
            (0 < property_count b)%Z ->
            (exists d, In d (top_buckets stats)
                       /\ bucket_id d = id b
                       /\ dist_property_count d = property_count b
                       /\ center_point b
                          = Some {| lng := center_lng d; lat := center_lat d |})
            \/ (length (top_buckets stats) = 10
                /\ forall d, In d (top_buckets stats) ->
                             (property_count b <= dist_property_count d)%Z)))
  /\ (forall b,
         faults w = [] ->
         In b (geo_buckets (working w)) ->
         (0 < property_count b)%Z ->
         center_point b = None ->
         length (List.filter (fun b => (0 <? property_count b)%Z)
                             (geo_buckets (working w))) <= 10 ->
         get_stats w
         = (Raise (AppException
                     "An unexpected error occurred while retrieving geo bucket statistics."),
            w)).
Proof.
  set (positive := List.filter (fun b => (0 <? property_count b)%Z)
                               (geo_buckets (working w))).
  set (sorted := order_by_count_desc positive).
  split.
  - intros stats w' E.
    destruct (get_stats_inv _ _ _ E) as (_ & _ & _ & _ & Htop & _).
    fold positive in Htop. fold sorted in Htop.
    destruct (distributions_inv _ _ Htop) as [Hcounts Hall].
    assert (Hsorted : StronglySorted fuller sorted)
      by apply order_by_count_desc_sorted.
    assert (Hlen : length (top_buckets stats) = length (take 10 sorted)).
    { rewrite <- (length_map dist_property_count), Hcounts. apply length_map. }
    assert (Hin : forall b, In b (take 10 sorted) ->
                            In b (geo_buckets (working w))
                            /\ (0 < property_count b)%Z).
    { intros b Hb.
      assert (Hb' : In b sorted).
      { rewrite <- (take_drop 10 sorted). apply in_or_app. now left. }
      unfold sorted in Hb'.
      apply (proj1 (order_by_count_desc_in positive b)) in Hb'.
      unfold positive in Hb'. apply List.filter_In in Hb' as [? Hp].
      apply Z.ltb_lt in Hp. auto. }
    split; [rewrite Hlen, length_take; lia|].
    split.
    { rewrite Hcounts. apply descending_of_sorted.
      now apply strongly_sorted_take. }
    split.
    + intros d Hd.
      destruct (forall2_in_left _ _ _ _ Hall Hd)
        as (b & Hb & Hi & _ & Hname & Hc & Hpt).
      destruct (Hin b Hb) as [Hb1 Hb2].
      split; [lia|]. exists b. auto 6.
    + intros b Hb Hpos.
      assert (Hs : In b sorted).
      { unfold sorted. apply (proj2 (order_by_count_desc_in positive b)).
        unfold positive. apply List.filter_In.
        split; [exact Hb | now apply Z.ltb_lt]. }
      rewrite <- (take_drop 10 sorted) in Hs, Hsorted.
      apply in_app_or in Hs as [Hs | Hs].
      * left. destruct (forall2_in_right _ _ _ _ Hall Hs)
          as (d & Hd & Hi & _ & _ & Hc & Hpt).
        exists d. auto.
      * right. split.
        -- rewrite Hlen, length_take.
           assert (Hd : 0 < length (drop 10 sorted)).
           { destruct (drop 10 sorted); [destruct Hs | cbn; lia]. }
           rewrite length_drop in Hd. lia.
        -- intros d Hd.
           destruct (forall2_in_left _ _ _ _ Hall Hd)
             as (x & Hx & _ & _ & _ & Hc & _).
           rewrite Hc.
           exact (strongly_sorted_app fuller _ _ Hsorted x b Hx Hs).
  - intros b Hf Hb Hpos Hnull Hfew. fold positive in Hfew.
    assert (Hs : In b (take 10 sorted)).
    { rewrite take_ge by (unfold sorted; rewrite order_by_count_desc_length; lia).
      unfold sorted. apply (proj2 (order_by_count_desc_in positive b)).
      unfold positive. apply List.filter_In.
      split; [exact Hb | now apply Z.ltb_lt]. }
    assert (Hd := distributions_null _ _ Hs Hnull).
    unfold get_stats, try_except, bind, _get_total_properties, _get_basic_stats,
      _get_top_buckets, bind, ret, lift.
    rewrite (session_exec_quiet _ _ Hf).
    rewrite !(execute_raw_quiet _ _ Hf).
    fold positive. fold sorted. rewrite Hd. reflexivity.
Qed.

(** *** Resolutions *)

Lemma insert_asc_in z l x : In x (insert_asc z l) <-> x = z \/ In x l.
Proof.
  induction l as [|y l IH]; cbn; [intuition|].
  destruct (Z.eqb_spec z y) as [-> | Hne]; [cbn; intuition|].
  destruct (z <? y)%Z; cbn; [intuition|].
  rewrite IH. intuition.
Qed.

Lemma insert_asc_sorted z l :
  StronglySorted Z.lt l -> StronglySorted Z.lt (insert_asc z l).
Proof.
  induction l as [|y l IH]; intros H; cbn.
  - repeat constructor.
  - assert (H' := H). apply StronglySorted_inv in H' as [Hs Hall].
    destruct (Z.eqb_spec z y) as [-> | Hne]; [exact H|].
    destruct (Z.ltb_spec z y) as [Hlt | Hge].
    + constructor; [exact H|].
      constructor; [exact Hlt|].
      rewrite Forall_forall in *. intros x Hx. specialize (Hall x Hx). lia.
    + constructor; [now apply IH|].
      rewrite Forall_forall in *. intros x Hx.
      apply list_elem_of_In, insert_asc_in in Hx as [-> | Hx].
      * lia.
      * apply Hall. now apply list_elem_of_In.
Qed.

Lemma keys_sorted (l : list Z) : StronglySorted Z.lt (fold_right insert_asc [] l).
Proof.
  induction l as [|y l IH]; cbn; [constructor | now apply insert_asc_sorted].
Qed.

Lemma keys_in (l : list Z) x : In x (fold_right insert_asc [] l) <-> In x l.
Proof.
  induction l as [|y l IH]; cbn; [reflexivity|].
  rewrite insert_asc_in, IH. intuition.
Qed.

Lemma ascending_of_sorted (l : list Z) : StronglySorted Z.lt l -> ascending l.
Proof.
  induction l as [|a [|b l] IH]; intros H; cbn; auto.
  apply StronglySorted_inv in H as [Hs Hall]. split; [|now apply IH].
  rewrite Forall_forall in Hall. apply Hall. left.
Qed.

Lemma sorted_not_in (k : Z) (keys : list Z) :
  StronglySorted Z.lt (k :: keys) -> existsb (Z.eqb k) keys = false.
Proof.
  intros H. apply StronglySorted_inv in H as [_ Hall].
  rewrite Forall_forall in Hall.
  destruct (existsb (Z.eqb k) keys) eqn:E; [|reflexivity].
  apply existsb_exists in E as (x & Hx & E). apply Z.eqb_eq in E. subst x.
  apply list_elem_of_In in Hx. specialize (Hall k Hx). lia.
Qed.

Lemma sum_filter_or (f : GeoBucket -> Z) (p q : GeoBucket -> bool) l :
  (forall b, p b = true -> q b = false) ->
  sum_z (map f (List.filter (fun b => p b || q b) l))
  = (sum_z (map f (List.filter p l)) + sum_z (map f (List.filter q l)))%Z.
Proof.
  intros Hpq. induction l as [|b l IH]; [reflexivity|]. cbn.
  destruct (p b) eqn:Ep.
  - rewrite (Hpq b Ep). cbn. unfold sum_z in *. cbn. rewrite IH. lia.
  - cbn. destruct (q b); cbn; unfold sum_z in *; cbn; rewrite IH; lia.
Qed.

(** The groups of a GROUP BY partition the rows. *)
Lemma group_sum (f : GeoBucket -> Z) (keys : list Z) (l : list GeoBucket) :
  StronglySorted Z.lt keys ->
  sum_z (map (fun k =>
                sum_z (map f (List.filter (fun b => (h3_resolution b =? k)%Z) l)))
             keys)
  = sum_z (map f (List.filter
                    (fun b => existsb (Z.eqb (h3_resolution b)) keys) l)).
Proof.
  induction keys as [|k keys IH]; intros Hs.
  - cbn. induction l as [|b l IHl]; [reflexivity | exact IHl].
  - assert (Hk := sorted_not_in k keys Hs).
    apply StronglySorted_inv in Hs as [Hs _].
    cbn [map existsb]. unfold sum_z at 1. cbn [fold_right].
    fold (sum_z (map (fun k0 =>
                        sum_z (map f (List.filter
                                        (fun b => (h3_resolution b =? k0)%Z) l)))
                     keys)).
    rewrite (IH Hs).
    rewrite (sum_filter_or f (fun b => (h3_resolution b =? k)%Z)
               (fun b => existsb (Z.eqb (h3_resolution b)) keys)); [reflexivity|].
    intros b Hb. apply Z.eqb_eq in Hb. rewrite Hb. exact Hk.
Qed.

Lemma filter_all {A} (p : A -> bool) (l : list A) :
  (forall x, In x l -> p x = true) -> List.filter p l = l.
Proof.
  induction l as [|x l IH]; [reflexivity|]. intros H. cbn.
  rewrite (H x (or_introl eq_refl)). f_equal. apply IH.
  intros y Hy. apply H. now right.
Qed.

Lemma count_as_sum {A} (l : list A) :
  count l = sum_z (map (fun _ => 1%Z) l).
Proof.
  unfold count, sum_z. induction l as [|x l IH]; [reflexivity|].
  cbn [length map fold_right]. rewrite <- IH. lia.
Qed.

Lemma fold_min_le (a : Z) (l : list Z) :
  (fold_right Z.min a l <= a)%Z
  /\ forall x, In x l -> (fold_right Z.min a l <= x)%Z.
Proof.
  induction l as [|y l [IH1 IH2]]; cbn; [split; [lia | intros x []]|].
  split; [lia|]. intros x [<- | Hx]; [lia|]. specialize (IH2 x Hx). lia.
Qed.

Lemma fold_max_ge (a : Z) (l : list Z) :
  (a <= fold_right Z.max a l)%Z
  /\ forall x, In x l -> (x <= fold_right Z.max a l)%Z.
Proof.
  induction l as [|y l [IH1 IH2]]; cbn; [split; [lia | intros x []]|].
  split; [lia|]. intros x [<- | Hx]; [lia|]. specialize (IH2 x Hx). lia.
Qed.

(** X19: the rows of the report by resolution come in strictly
    increasing order of resolution and partition the buckets: every
    bucket belongs to the row of its resolution, the bucket counts add
    up to the number of buckets and the totals to the sum of all
    counts; no row is empty, and the count of every bucket lies between
    the minimum and the maximum of its row. *)
Theorem resolution_rows_partition_the_buckets
        (w : World) (stats : GeoBucketStats) (w' : World) :
  get_stats w = (Ok stats, w') ->
  ascending (map resolution (resolution_stats stats))
  /\ sum_z (map bucket_count (resolution_stats stats)) = total_buckets stats
  /\ sum_z (map res_total_properties (resolution_stats stats))
     = sum_z (map property_count (geo_buckets (working w)))
  /\ (forall r, In r (resolution_stats stats) -> (1 <= bucket_count r)%Z)
  /\ (forall b, In b (geo_buckets (working w)) ->
        exists r, In r (resolution_stats stats)
                  /\ resolution r = h3_resolution b
                  /\ (min_properties_in_bucket r <= property_count b)%Z
                  /\ (property_count b <= max_properties_in_bucket r)%Z).
Proof.
  intros E.
  destruct (get_stats_inv _ _ _ E) as (_ & _ & Hb & _ & _ & _ & Hrs).
  set (l := geo_buckets (working w)) in *.
  set (keys := fold_right insert_asc [] (map h3_resolution l)) in *.
  assert (Hsorted : StronglySorted Z.lt keys) by apply keys_sorted.
  assert (Hcover : forall b, In b l ->
                             existsb (Z.eqb (h3_resolution b)) keys = true).
  { intros b Hin. apply existsb_exists. exists (h3_resolution b).
    split; [|apply Z.eqb_refl]. apply keys_in. now apply in_map. }
  rewrite Hrs, !map_map. cbn [resolution bucket_count res_total_properties
                              resolution_group].
  split; [rewrite map_id; now apply ascending_of_sorted|].
  split.
  { rewrite Hb.
    rewrite (map_ext _ (fun k => sum_z (map (fun _ => 1%Z)
                                   (List.filter (fun b => (h3_resolution b =? k)%Z) l)))).
    - rewrite (group_sum (fun _ => 1%Z) keys l Hsorted).
      rewrite (filter_all _ l Hcover). symmetry. apply count_as_sum.
    - intros k. rewrite count_as_sum, map_map. reflexivity. }
  split.
  { transitivity
      (sum_z (map (fun k =>
                     sum_z (map property_count
                                (List.filter (fun b => (h3_resolution b =? k)%Z) l)))
                  keys)); [reflexivity|].
    rewrite (group_sum property_count keys l Hsorted).
    now rewrite (filter_all _ l Hcover). }
  split.
  - intros r Hr. apply in_map_iff in Hr as (k & <- & Hk).
    unfold resolution_group. cbn [bucket_count]. fold l.
    apply keys_in, in_map_iff in Hk as (b & Hres & Hin).
    assert (Hf : In b (List.filter (fun b => (h3_resolution b =? k)%Z) l)).
    { apply List.filter_In. split; [exact Hin | now apply Z.eqb_eq]. }
    unfold count. rewrite length_map.
    destruct (List.filter (fun b => (h3_resolution b =? k)%Z) l);
      [destruct Hf | cbn; lia].
  - intros b Hin. exists (resolution_group (working w) (h3_resolution b)).
    split.
    { apply in_map. apply keys_in. now apply in_map. }
    split; [reflexivity|].
    unfold resolution_group.
    cbn [min_properties_in_bucket max_properties_in_bucket]. fold l.
    assert (Hf : In (property_count b)
                    (map property_count
                         (List.filter
                            (fun b0 => (h3_resolution b0 =? h3_resolution b)%Z) l))).
    { apply in_map. apply List.filter_In. split; [exact Hin | apply Z.eqb_refl]. }
    split.
    + exact (proj2 (fold_min_le _ _) _ Hf).
    + exact (proj2 (fold_max_ge _ _) _ Hf).
Qed.

(** *** The bounding box *)

Lemma qmin_le a b : (qmin a b <= a)%Q /\ (qmin a b <= b)%Q.
Proof.
  unfold qmin. destruct (Qle_bool a b) eqn:E.
  - apply Qle_bool_iff in E. split; [apply Qle_refl | exact E].
  - split; [|apply Qle_refl]. apply Qlt_le_weak, Qnot_le_lt.
    intros H. apply Qle_bool_iff in H. congruence.
Qed.

Lemma qmax_ge a b : (a <= qmax a b)%Q /\ (b <= qmax a b)%Q.
Proof.
  unfold qmax. destruct (Qle_bool a b) eqn:E.
  - apply Qle_bool_iff in E. split; [exact E | apply Qle_refl].
  - split; [apply Qle_refl|]. apply Qlt_le_weak, Qnot_le_lt.
    intros H. apply Qle_bool_iff in H. congruence.
Qed.

Lemma fold_qmin_le (l : list Q) (a : Q) :
  (fold_left qmin l a <= a)%Q
  /\ forall x, In x l -> (fold_left qmin l a <= x)%Q.
Proof.
  revert a. induction l as [|y l IH]; intros a; cbn.
  - split; [apply Qle_refl | intros x []].
  - destruct (IH (qmin a y)) as [H1 H2]. destruct (qmin_le a y) as [Ha Hy].
    split; [exact (Qle_trans _ _ _ H1 Ha)|].
    intros x [<- | Hx]; [exact (Qle_trans _ _ _ H1 Hy) | now apply H2].
Qed.

Lemma fold_qmax_ge (l : list Q) (a : Q) :
  (a <= fold_left qmax l a)%Q
  /\ forall x, In x l -> (x <= fold_left qmax l a)%Q.
Proof.
  revert a. induction l as [|y l IH]; intros a; cbn.
  - split; [apply Qle_refl | intros x []].
  - destruct (IH (qmax a y)) as [H1 H2]. destruct (qmax_ge a y) as [Ha Hy].
    split; [exact (Qle_trans _ _ _ Ha H1)|].
    intros x [<- | Hx]; [exact (Qle_trans _ _ _ Hy H1) | now apply H2].
Qed.

Lemma box_of_extent_inside (pts : list Point) (box : BoundingBox) (p : Point) :
  box_of (st_extent pts) = Some box -> In p pts -> inside box p.
Proof.
  destruct pts as [|p0 ps]; [discriminate|].
  unfold box_of, st_extent.
  cbn [row_min_lat row_max_lat row_min_lng row_max_lng].
  destruct (truthy _ && truthy _ && truthy _ && truthy _); [|discriminate].
  intros E. inversion E; subst box. clear E. unfold inside. cbn.
  intros [<- | Hin].
  - split; [apply (proj1 (fold_qmin_le _ _))|].
    split; [apply (proj1 (fold_qmax_ge _ _))|].
    split; [apply (proj1 (fold_qmin_le _ _)) | apply (proj1 (fold_qmax_ge _ _))].
  - split; [apply (proj2 (fold_qmin_le _ _)); now apply in_map|].
    split; [apply (proj2 (fold_qmax_ge _ _)); now apply in_map|].
    split; [apply (proj2 (fold_qmin_le _ _)); now apply in_map
           | apply (proj2 (fold_qmax_ge _ _)); now apply in_map].
Qed.

(** X20: when the report holds a bounding box, every centre point of
    a bucket lies inside it; without a box there is no area and the
    density is zero; the density is never negative. *)
Theorem bounding_box_contains_the_centres
        (w : World) (stats : GeoBucketStats) (w' : World) :
  get_stats w = (Ok stats, w') ->
  (forall box p,
      bounding_box (coverage stats) = Some box ->
      In p (center_points (working w)) -> inside box p)
  /\ (bounding_box (coverage stats) = None ->
      total_area_km2 (coverage stats) = None
      /\ avg_bucket_density (coverage stats) = 0%Q)
  /\ (0 <= avg_bucket_density (coverage stats))%Q.
Proof.
  intros E.
  destruct (get_stats_inv _ _ _ E) as (_ & Hn & _ & _ & _ & (w0 & Hw0 & Hc) & _).
  destruct (_get_coverage_stats (total_properties stats) w0) as [r w1] eqn:Ec.
  cbn in Hc. subst r.
  destruct (coverage_inv _ _ _ _ Ec) as (_ & Hbox & _ & Hd).
  rewrite Hw0 in Hbox.
  split; [|split].
  - intros box p Hb Hp. rewrite Hbox in Hb.
    exact (box_of_extent_inside _ _ _ Hb Hp).
  - intros Hnone.
    destruct Hd as [(_ & Ha & Hz) | (area & Hsome & _)]; [auto | contradiction].
  - destruct Hd as [(_ & _ & ->) | (area & _ & _ & ->)]; [apply Qle_refl|].
    destruct (negb (Qeq_bool area 0) && negb (Qle_bool area 0)) eqn:Ea;
      [|apply Qle_refl].
    apply andb_true_iff in Ea as [_ Ea]. apply negb_true_iff in Ea.
    assert (Hpos : (0 < area)%Q).
    { apply Qnot_le_lt. intros H. apply Qle_bool_iff in H. congruence. }
    unfold Qdiv. apply Qmult_le_0_compat.
    + rewrite Hn. unfold count, Qle. cbn. lia.
    + apply Qlt_le_weak, Qinv_lt_0_compat, Hpos.
Qed.

End Facts.

Lemma get_stats_counts_the_rows_witness :
  exists stats w',
    get_stats (PG := StandIn.pg) two_buckets = (Ok stats, w')
    /\ total_buckets stats = 2%Z /\ empty_buckets stats = 1%Z.
Proof.
  eexists _, _. split; [vm_compute; reflexivity|].
  split;
    [exact (proj1 (proj2 (get_stats_counts_the_rows (PG := StandIn.pg)
                            two_buckets _ _ eq_refl)))
    | exact (proj1 (proj2 (proj2 (proj2
               (get_stats_counts_the_rows (PG := StandIn.pg)
                  two_buckets _ _ eq_refl)))))].
Defined.

Lemma top_buckets_are_the_fullest_witness :
  (exists stats w',
      get_stats (PG := StandIn.pg) two_buckets = (Ok stats, w')
      /\ length (top_buckets stats) <= 10
      /\ descending (map dist_property_count (top_buckets stats)))
  /\ fst (get_stats (PG := StandIn.pg)
            (StandIn.fresh_world []
               {| geo_buckets :=
                    [{| id := 1; h3_index := 8506503; h3_resolution := 8;
                        parent_h3 := None; canonical_name := t "Lagos";
                        canonical_name_normalized := t "lagos";
                        center_point := None; hexagon_boundary := None;
                        property_count := 5 |}];
                  properties := [] |}))
     = Raise (AppException
                "An unexpected error occurred while retrieving geo bucket statistics.").
Proof.
  split.
  - eexists _, _. split; [vm_compute; reflexivity|].
    split;
      [exact (proj1 (proj1 (top_buckets_are_the_fullest (PG := StandIn.pg)
                              two_buckets) _ _ eq_refl))
      | exact (proj1 (proj2 (proj1 (top_buckets_are_the_fullest
                                      (PG := StandIn.pg)
                                      two_buckets) _ _ eq_refl)))].
  - match goal with
    | |- fst (get_stats ?W) = _ =>
        exact (f_equal fst
                 (proj2 (top_buckets_are_the_fullest (PG := StandIn.pg) W) _
                    eq_refl (or_introl eq_refl) eq_refl eq_refl
                    (le_S _ _ (le_S _ _ (le_S _ _ (le_S _ _ (le_S _ _ (le_S _ _
                       (le_S _ _ (le_S _ _ (le_S _ _ (le_n 1))))))))))))
    end.
Defined.

Lemma resolution_rows_partition_the_buckets_witness :
  exists stats w',
    get_stats (PG := StandIn.pg) two_buckets = (Ok stats, w')
    /\ sum_z (map bucket_count (resolution_stats stats)) = total_buckets stats.
Proof.
  eexists _, _. split; [vm_compute; reflexivity|].
  exact (proj1 (proj2 (resolution_rows_partition_the_buckets
                         (PG := StandIn.pg)
                         two_buckets _ _ eq_refl))).
Defined.

Lemma bounding_box_contains_the_centres_witness :
  exists stats w',
    get_stats (PG := StandIn.pg) two_buckets = (Ok stats, w')
    /\ (0 <= avg_bucket_density (coverage stats))%Q.
Proof.
  eexists _, _. split; [vm_compute; reflexivity|].
  exact (proj2 (proj2 (bounding_box_contains_the_centres
                         (PG := StandIn.pg)
                         two_buckets _ _ eq_refl))).
Defined.

End ReportFacts.



(* ===================================================================== *)
(** * The search by name: [get_fuzzy_buckets] and [list_properties] *)
(* ===================================================================== *)

Module SearchFacts.
Import Str Py Models Database External Repository GeoBucketService DatabaseFacts.
Import TransactionFacts IngestionFacts ReportFacts FuzzySearch Listing.
Import Views Measures.

Section Order.
Variable score : GeoBucket -> Q.

Lemma insert_by_score_in b l x :
  In x (insert_by_score score b l) <-> x = b \/ In x l.
Proof.
  induction l as [|y l IH]; cbn; [intuition|].
  destruct (Qle_bool (score y) (score b)); cbn; [intuition|].
  rewrite IH. intuition.
Qed.

Lemma insert_by_score_sorted b l :
  StronglySorted (better score) l -> StronglySorted (better score) (insert_by_score score b l).
Proof.
  induction l as [|y l IH]; intros H; cbn.
  - repeat constructor.
  - assert (H' := H). apply StronglySorted_inv in H' as [Hs Hall].
    destruct (Qle_bool (score y) (score b)) eqn:E.
    + apply Qle_bool_iff in E.
      constructor; [exact H|].
      constructor; [exact E|].
      rewrite Forall_forall in *. intros x Hx. specialize (Hall x Hx).
      unfold better in *. exact (Qle_trans _ _ _ Hall E).
    + constructor; [now apply IH|].
      rewrite Forall_forall in *. intros x Hx.
      apply list_elem_of_In, insert_by_score_in in Hx as [-> | Hx].
      * unfold better. apply Qlt_le_weak, Qnot_le_lt.
        intros Hle. apply Qle_bool_iff in Hle. congruence.
      * apply Hall. now apply list_elem_of_In.
Qed.

Lemma order_by_score_desc_in l x : In x (order_by_score_desc score l) <-> In x l.
Proof.
  unfold order_by_score_desc. induction l as [|y l IH]; cbn; [reflexivity|].
  rewrite insert_by_score_in, IH. intuition.
Qed.

Lemma order_by_score_desc_sorted l :
  StronglySorted (better score) (order_by_score_desc score l).
Proof.
  unfold order_by_score_desc. induction l as [|y l IH]; cbn; [constructor|].
  now apply insert_by_score_sorted.
Qed.

Lemma descending_q_of_sorted (l : list GeoBucket) :
  StronglySorted (better score) l -> descending_q (map score l).
Proof.
  induction l as [|a [|b l] IH]; intros H; cbn; auto.
  apply StronglySorted_inv in H as [Hs Hall]. split; [|now apply IH].
  rewrite Forall_forall in Hall. apply Hall. left.
Qed.

Lemma better_across n (l : list GeoBucket) x y :
  StronglySorted (better score) l -> In x (take n l) -> In y (drop n l) ->
  (score y <= score x)%Q.
Proof.
  intros Hs Hx Hy. rewrite <- (take_drop n l) in Hs.
  exact (strongly_sorted_app (better score) _ _ Hs x y Hx Hy).
Qed.

Lemma sorted_take n (l : list GeoBucket) :
  StronglySorted (better score) l -> StronglySorted (better score) (take n l).
Proof. apply strongly_sorted_take. Qed.

End Order.

Lemma map_from_model (l : list GeoBucket) : map from_model l = l.
Proof. unfold from_model. apply List.map_id. Qed.

Section Facts.
Context `{H3 : H3Library} `{PG : Postgres}.

(** The rows [get_fuzzy_buckets] asks the store for. *)
Lemma get_fuzzy_buckets_inv name limit w rows w' :
  get_fuzzy_buckets name limit w = (Ok rows, w') ->
  only_faults w w'
  /\ (0 <= limit)%Z
  /\ rows = take (Z.to_nat limit)
                 (order_by_score_desc (name_similarity name)
                    (List.filter
                       (fun b => negb (Qle_bool (name_similarity name b) (3 # 10)))
                       (geo_buckets (working w)))).
Proof.
  unfold get_fuzzy_buckets. intros E.
  apply try_except_inv in E as (r0 & E & Hr0);
    [|apply service_handlers_translate].
  specialize (Hr0 rows eq_refl). subst r0.
  apply bind_inv in E as [(buckets & w1 & E1 & E) | (e & _ & ?)]; [|discriminate].
  unfold ret in E. inversion E; subst rows w1. clear E.
  rewrite map_from_model.
  unfold execute_raw_statement in E1.
  apply try_except_inv in E1 as (r1 & E1 & Hr1); [|apply wrap_sql_translates].
  specialize (Hr1 buckets eq_refl). subst r1.
  unfold session_exec_statement, bind in E1.
  destruct (round_trip w) as [[[]|e] w1] eqn:Ert; [|discriminate].
  apply round_trip_inv in Ert.
  unfold sql_limit in E1.
  destruct (Z.ltb_spec limit 0) as [Hneg | Hpos]; [discriminate|].
  inversion E1; subst. clear E1.
  split; [exact Ert|]. split; [exact Hpos|].
  destruct Ert as (_ & Hw & _). now rewrite Hw.
Qed.

Lemma get_fuzzy_buckets_quiet name limit w :
  faults w = [] -> (0 <= limit)%Z ->
  get_fuzzy_buckets name limit w
  = (Ok (take (Z.to_nat limit)
              (order_by_score_desc (name_similarity name)
                 (List.filter
                    (fun b => negb (Qle_bool (name_similarity name b) (3 # 10)))
                    (geo_buckets (working w))))), w).
Proof.
  intros Hf Hl.
  unfold get_fuzzy_buckets, try_except, bind, execute_raw_statement, try_except,
    session_exec_statement, bind.
  rewrite (round_trip_quiet _ Hf). unfold sql_limit.
  destruct (Z.ltb_spec limit 0) as [Hneg | _]; [lia|].
  unfold ret. now rewrite map_from_model.
Qed.

(** X21: [get_fuzzy_buckets] writes nothing.  What it returns are
    stored buckets whose name scores above 0.3 against the given name,
    best score first and at most [limit] of them; a stored bucket
    above 0.3 that is missing scores no better than any returned one,
    the answer then being full. *)
Theorem fuzzy_buckets_are_the_best_matches
        (name : text) (limit : Z) (w : World)
        (rows : list GeoBucketRead) (w' : World) :
  get_fuzzy_buckets name limit w = (Ok rows, w') ->
  only_faults w w'
  /\ (Z.of_nat (length rows) <= limit)%Z
  /\ descending_q (map (name_similarity name) rows)
  /\ (forall b, In b rows ->
        In b (geo_buckets (working w)) /\ (3 # 10 < name_similarity name b)%Q)
  /\ (forall b, In b (geo_buckets (working w)) ->
        (3 # 10 < name_similarity name b)%Q ->
        In b rows
        \/ (Z.of_nat (length rows) = limit
            /\ forall x, In x rows ->
                         (name_similarity name b <= name_similarity name x)%Q)).
Proof.
  intros E. destruct (get_fuzzy_buckets_inv _ _ _ _ _ E) as (Hof & Hl & Hrows).
  set (above := List.filter
                  (fun b => negb (Qle_bool (name_similarity name b) (3 # 10)))
                  (geo_buckets (working w))) in *.
  set (sorted := order_by_score_desc (name_similarity name) above) in *.
  assert (Hsorted := order_by_score_desc_sorted (name_similarity name) above).
  fold sorted in Hsorted.
  assert (Habove : forall b, In b above <->
                             In b (geo_buckets (working w))
                             /\ (3 # 10 < name_similarity name b)%Q).
  { intros b. unfold above. rewrite List.filter_In. split; intros [Hin Hs].
    - split; [exact Hin|]. apply negb_true_iff in Hs. apply Qnot_le_lt.
      intros Hle. apply Qle_bool_iff in Hle. congruence.
    - split; [exact Hin|]. apply negb_true_iff.
      destruct (Qle_bool (name_similarity name b) (3 # 10)) eqn:Eb; [|reflexivity].
      apply Qle_bool_iff in Eb. exfalso. exact (Qlt_not_le _ _ Hs Eb). }
  split; [exact Hof|]. subst rows.
  split; [rewrite length_take; lia|].
  split; [apply descending_q_of_sorted; now apply sorted_take|].
  split.
  - intros b Hb. apply Habove.
    apply (proj1 (order_by_score_desc_in (name_similarity name) above b)).
    fold sorted. rewrite <- (take_drop (Z.to_nat limit) sorted).
    apply in_or_app. now left.
  - intros b Hin Hs.
    assert (Hb : In b sorted).
    { unfold sorted.
      apply (proj2 (order_by_score_desc_in (name_similarity name) above b)).
      apply Habove. auto. }
    rewrite <- (take_drop (Z.to_nat limit) sorted) in Hb.
    apply in_app_or in Hb as [Hb | Hb]; [now left | right].
    split.
    + rewrite length_take.
      assert (Hd : 0 < length (drop (Z.to_nat limit) sorted)).
      { destruct (drop (Z.to_nat limit) sorted); [destruct Hb | cbn; lia]. }
      rewrite length_drop in Hd. lia.
    + intros x Hx.
      exact (better_across (name_similarity name) _ _ x b Hsorted Hx Hb).
Qed.

Section Pages.
Context `{PAGES : Paginator}.
Variable order : list ascii.

(** X22: when the location filter matches no bucket above 0.3, the
    listing search answers with an empty page and a total of zero.
    It does so after the one query of the bucket search: the listings
    are not queried and the paginator is not called. *)
Theorem list_properties_without_matching_bucket
        (pagination : CursorParams) (location : text) (w : World) :
  faults w = [] ->
  (forall b, In b (geo_buckets (working w)) ->
             (name_similarity (LocationUtils.normalize order location) b
              <= 3 # 10)%Q) ->
  list_properties order pagination (Some {| location := Some location |}) w
  = (Ok ([], {| meta_total := Some 0%Z;
                meta_current_page := None;
                meta_current_page_backwards := None;
                meta_previous_page := None;
                meta_next_page := None |}), w).
Proof.
  intros Hf Hnone.
  unfold list_properties, try_except, bind.
  rewrite (get_fuzzy_buckets_quiet _ 50 w Hf) by lia.
  assert (Hfilter : List.filter
                      (fun b => negb (Qle_bool
                                        (name_similarity
                                           (LocationUtils.normalize order location) b)
                                        (3 # 10)))
                      (geo_buckets (working w)) = []).
  { induction (geo_buckets (working w)) as [|b l IH]; [reflexivity|].
    cbn. rewrite (proj2 (Qle_bool_iff _ _) (Hnone b (or_introl eq_refl))).
    cbn. apply IH. intros x Hx. apply Hnone. now right. }
  rewrite Hfilter. cbn. reflexivity.
Qed.

(** X23: [list_properties] raises nothing but [AppException] and
    [RequestValidationError]; and a failure of the bucket search
    passes through it unchanged, so that a store that fails on the
    first query is reported with the message of [get_fuzzy_buckets],
    not with the message of the listing search. *)
Theorem list_properties_failures :
  (forall pagination query_params w e w',
      list_properties order pagination query_params w = (Raise e, w') ->
      (exists message, e = AppException message) \/ e = RequestValidationError)
  /\ (forall pagination location w failure rest,
         faults w = Some failure :: rest ->
         list_properties order pagination
                         (Some {| location := Some location |}) w
         = (Raise (AppException "Failed to retrieve fuzzy buckets"),
            with_faults rest w)).
Proof.
  split.
  - intros pagination query_params w e w'.
    unfold list_properties, try_except.
    match goal with
    | |- context [match ?c w with _ => _ end] => destruct (c w) as [[a|e0] w1]
    end; [discriminate|].
    unfold Listing.handlers, raise.
    destruct e0; intros E; inversion E; eauto.
  - intros pagination location w failure rest Hf.
    unfold list_properties, try_except, bind, get_fuzzy_buckets, try_except, bind,
      execute_raw_statement, try_except, session_exec_statement, bind, round_trip.
    rewrite Hf. reflexivity.
Qed.

End Pages.

End Facts.

Lemma fuzzy_buckets_are_the_best_matches_witness :
  exists rows w',
    get_fuzzy_buckets (PG := StandIn.pg) (t "ikeja") 10 two_buckets = (Ok rows, w')
    /\ (Z.of_nat (length rows) <= 10)%Z.
Proof.
  eexists _, _. split; [vm_compute; reflexivity|].
  exact (proj1 (proj2 (fuzzy_buckets_are_the_best_matches (PG := StandIn.pg)
                         (t "ikeja") 10 two_buckets _ _ eq_refl))).
Defined.

Lemma list_properties_without_matching_bucket_witness :
  list_properties
    (H3 := StandIn.h3) (PG := StandIn.pg)
    (PAGES := {| apaginate := fun _ _ _ _ => raise (OtherException "not called") |})
    LocationUtils.SEPARATORS {| cursor := None; size := 10 |}
    (Some {| location := Some (t "Epe") |}) two_buckets
  = (Ok ([], {| meta_total := Some 0%Z;
                meta_current_page := None;
                meta_current_page_backwards := None;
                meta_previous_page := None;
                meta_next_page := None |}), two_buckets).
Proof.
  apply (list_properties_without_matching_bucket
           (H3 := StandIn.h3) (PG := StandIn.pg)
           (PAGES := {| apaginate := fun _ _ _ _ => raise (OtherException "not called") |})
           LocationUtils.SEPARATORS {| cursor := None; size := 10 |}
           (t "Epe") two_buckets eq_refl).
  intros b [<- | [<- | []]]; vm_compute; discriminate.
Defined.

End SearchFacts.



(* ===================================================================== *)
(** * The listing service: nesting, failures of the commit, and what a
      created listing shows *)
(* ===================================================================== *)

Module ListingFacts.
Import Str Py Models Database External Repository DatabaseFacts TransactionFacts.
Import IngestionFacts AtomicityFacts.
Import Views Measures.

Lemma session_commit_pending w r w' :
  pending w = [] -> session_commit w = (r, w') -> pending w' = [].
Proof.
  intros Hp. unfold session_commit, session_flush, bind.
  destruct (round_trip w) as [[[]|e0] w0] eqn:E0.
  - apply round_trip_inv in E0 as (_ & _ & Hp0 & _).
    rewrite Hp0, Hp. cbn [apply_writes].
    destruct (round_trip (with_pending [] w0)) as [[[]|e2] w2] eqn:E2;
      apply round_trip_inv in E2 as (_ & _ & Hp2 & _); cbn in Hp2;
      intros E; inversion E; subst; cbn; exact Hp2.
  - apply round_trip_inv in E0 as (_ & _ & Hp0 & _).
    intros E. inversion E; subst. now rewrite Hp0.
Qed.

Section Facts.
Context `{H3 : H3Library} `{PG : Postgres}.
Variable order : list ascii.

(** [create_property] is its body when a transaction is open, and the
    body between the opening and the closing of one otherwise. *)
Lemma create_property_nested payload w :
  0 < transaction_level w ->
  PropertyService.create_property order payload w
  = try_except (PropertyService.ingest order payload) PropertyService.handlers w.
Proof.
  intros Hl. unfold PropertyService.create_property, transactional, bind,
               in_transaction.
  apply Nat.ltb_lt in Hl. now rewrite Hl.
Qed.

Lemma create_property_outermost payload w :
  transaction_level w = 0 ->
  PropertyService.create_property order payload w
  = Transaction (try_except (PropertyService.ingest order payload)
                            PropertyService.handlers) w.
Proof.
  intros Hl. unfold PropertyService.create_property, transactional, bind,
               in_transaction.
  now rewrite Hl.
Qed.

(** X24: called while a transaction is open, [create_property] neither
    commits nor rolls back and leaves the transaction level alone:
    the committed rows stay as they were, whatever the outcome.  When
    it returns, the new listing and the count of its bucket are
    flushed to the rows of the session, for the enclosing transaction
    to commit. *)
Theorem create_property_joins_the_open_transaction
        (payload : Request.PropertyCreateRequest) (w : World)
        (r : result Read.PropertyRead) (w' : World) :
  0 < transaction_level w ->
  pending w = [] ->
  PropertyService.create_property order payload w = (r, w') ->
  database w' = database w
  /\ commits w' = commits w
  /\ rollbacks w' = rollbacks w
  /\ transaction_level w' = transaction_level w
  /\ (forall read, r = Ok read ->
        pending w' = []
        /\ stored_with_counted_bucket payload read (working w) (working w')).
Proof.
  intros Hl Hp E. rewrite (create_property_nested payload w Hl) in E.
  apply try_except_inv in E as (r0 & E & Hr0);
    [|apply property_handlers_translate].
  apply (ingest_inv order) in E as [(Hd & Hc & Hr & Hlv) Hok]; [|exact Hl|exact Hp].
  repeat (split; [assumption|]).
  intros read Hread. apply Hok. now apply Hr0.
Qed.

(** X25: the exceptions of [create_property] as the outermost
    transaction.  A failure of its body reaches the caller as an
    [AppException] (or a [RequestValidationError]) after one rollback,
    which leaves the session with the committed rows and nothing
    pending.  A failure of the final COMMIT is not translated: the
    caller receives the [SQLAlchemyError] of the session, and no
    rollback is issued.  In both cases the committed rows are
    unchanged. *)
Theorem create_property_failures
        (payload : Request.PropertyCreateRequest) (w : World)
        (e : exn) (w' : World) :
  transaction_level w = 0 ->
  pending w = [] ->
  PropertyService.create_property order payload w = (Raise e, w') ->
  database w' = database w
  /\ commits w' = commits w
  /\ ((((exists message, e = AppException message) \/ e = RequestValidationError)
       /\ rollbacks w' = S (rollbacks w)
       /\ working w' = database w
       /\ pending w' = [])
      \/ ((exists s, e = SQLAlchemyError s)
          /\ rollbacks w' = rollbacks w)).
Proof.
  intros Hl Hp E. rewrite (create_property_outermost payload w Hl) in E.
  unfold Transaction in E. rewrite Hl in E. cbn [Nat.eqb] in E.
  destruct (try_except (PropertyService.ingest order payload)
                       PropertyService.handlers (with_level 1 w))
    as [[read|e0] w1] eqn:Eb.
  - apply try_except_inv in Eb as (r0 & Eb & _);
      [|apply property_handlers_translate].
    apply (ingest_inv order) in Eb as [(Hd & Hc & Hr & Hlv) _];
      [| cbn; lia | exact Hp].
    cbn in Hd, Hc, Hr.
    destruct (session_commit w1) as [[[]|e1] w2] eqn:Ec; [discriminate|].
    inversion E; subst e w'. clear E. cbn.
    destruct (session_commit_inv _ _ _ Ec) as (_ & Hr2 & _ & Hd2 & Hc2).
    split; [congruence|]. split; [congruence|]. right.
    split; [exact (session_commit_raises _ _ _ Ec) | congruence].
  - assert (He := property_handlers_raise _ _ _ _ Eb).
    apply try_except_inv in Eb as (r0 & Eb & _);
      [|apply property_handlers_translate].
    apply (ingest_inv order) in Eb as [(Hd & Hc & Hr & Hlv) _];
      [| cbn; lia | exact Hp].
    cbn in Hd, Hc, Hr.
    cbn in E. inversion E; subst e w'. clear E. cbn.
    split; [exact Hd|]. split; [exact Hc|]. left.
    split; [exact He|]. split; [now rewrite Hr|]. split; [exact Hd | reflexivity].
Qed.

(** X26: for a title that no stored listing has, and a store that
    answers, [create_property_if_not_exists] does what
    [create_property] does. *)
Theorem create_if_not_exists_on_new_title
        (payload : Request.PropertyCreateRequest) (w : World) :
  faults w = [] ->
  title_rows payload w = [] ->
  PropertyService.create_property_if_not_exists order payload w
  = PropertyService.create_property order payload w.
Proof.
  intros Hf Hrows.
  assert (Hbody : forall w0,
             faults w0 = [] -> working w0 = working w ->
             if_not_exists_body order payload w0
             = try_except (PropertyService.ingest order payload)
                          PropertyService.handlers w0).
  { intros w0 Hf0 Hw0. unfold if_not_exists_body, try_except, bind.
    rewrite (find_one_quiet _ _ _ Hf0). rewrite Hw0.
    fold (title_rows payload w). now rewrite Hrows. }
  unfold PropertyService.create_property_if_not_exists,
    PropertyService.create_property.
  fold (if_not_exists_body order payload).
  unfold transactional, bind, in_transaction.
  destruct (0 <? transaction_level w).
  - now apply Hbody.
  - unfold Transaction. now rewrite Hbody.
Qed.

(** X27: a listing is never shown with coordinates out of range.
    [from_values] shows the stored point when its latitude and
    longitude are in range, and otherwise the centre of the listing's
    cell at resolution 9 (resolution 8 when that index is 0), provided
    this centre is in range; the key, the title, the location name and
    the attributes are those of the row. *)
Theorem from_values_shows_valid_coordinates
        (model : Property) (read : Read.PropertyRead) :
  Read.from_values model = Ok read ->
  Request.valid_latitude (Read.latitude read) = true
  /\ Request.valid_longitude (Read.longitude read) = true
  /\ Read.id read = prop_id model
  /\ Read.title read = title model
  /\ Read.location_name read = location_name model
  /\ Read.attributes read = attributes model
  /\ (if Request.valid_latitude (lat (coordinates model))
         && Request.valid_longitude (lng (coordinates model))
      then Read.latitude read = lat (coordinates model)
           /\ Read.longitude read = lng (coordinates model)
      else cell_to_latlng (if (h3_index_r9 model =? 0)%Z
                           then h3_index_r8 model else h3_index_r9 model)
           = Ok (Read.latitude read, Read.longitude read)).
Proof.
  unfold Read.from_values, Read.build, H3Utils.extract_lat_lng_from_geometry,
    H3Utils.get_lat_lng_from_h3.
  destruct (Request.valid_latitude (lat (coordinates model))
            && Request.valid_longitude (lng (coordinates model))) eqn:Ev.
  - intros E. inversion E; subst read. clear E. cbn.
    apply andb_true_iff in Ev as [Ev1 Ev2]. auto 10.
  - destruct (cell_to_latlng _) as [[lat' lng']|e] eqn:Ec; [|discriminate].
    destruct (Request.valid_latitude lat' && Request.valid_longitude lng') eqn:Ev';
      [|discriminate].
    intros E. inversion E; subst read. clear E. cbn.
    apply andb_true_iff in Ev' as [Ev1 Ev2]. auto 10.
Qed.

(** What a successful ingestion returns is the view of the row it
    built from the payload. *)
Lemma ingest_read payload w read w' :
  0 < transaction_level w ->
  pending w = [] ->
  PropertyService.ingest order payload w = (Ok read, w') ->
  exists ix key bucket,
    H3Utils.calculate_h3_indexes (Request.lat payload) (Request.lng payload) = Ok ix
    /\ Read.from_values
         {| prop_id := key;
            title := Request.title payload;
            location_name := Request.location_name payload;
            location_name_normalized :=
              LocationUtils.normalize order (Request.location_name payload);
            coordinates :=
              H3Utils.create_point_geometry (Request.lat payload) (Request.lng payload);
            h3_index_r8 := H3Utils.h3_r8 ix;
            h3_index_r9 := H3Utils.h3_r9 ix;
            geo_bucket_id := Some (Models.id bucket);
            attributes := Request.attributes payload |} = Ok read.
Proof.
  intros Hl Hp E. unfold PropertyService.ingest in E.
  apply bind_inv in E as [(ix & w0 & E0 & E) | (e & _ & ?)]; [|discriminate].
  apply lift_inv in E0 as [E0 ->].
  apply bind_inv in E as [(bucket & w1 & E1 & E) | (e & _ & ?)]; [|discriminate].
  apply find_or_create_inv in E1 as [F1 H1]; [|exact Hl|exact Hp].
  destruct (H1 bucket eq_refl) as (_ & Hp1 & _).
  assert (Hl1 : 0 < transaction_level w1).
  { destruct F1 as (_&_&_&Hlv). now rewrite Hlv. }
  apply bind_inv in E as [(p & w2 & E2 & E) | (e & _ & ?)]; [|discriminate].
  apply create_property_row_inv in E2 as [_ H2]; [|exact Hl1|exact Hp1].
  destruct (H2 p eq_refl) as (Hpe & _).
  apply bind_inv in E as [([] & w3 & _ & E) | (e & _ & ?)]; [|discriminate].
  apply lift_inv in E as [E _].
  exists ix, (ulid_seq w1), bucket. split; [now rewrite E0|].
  rewrite <- Hpe. now rewrite E.
Qed.

(** X28: the listing [create_property] returns carries the title, the
    location name and the attributes of the payload, and, for a payload
    with coordinates in range, exactly these coordinates. *)
Theorem create_property_returns_the_payload
        (payload : Request.PropertyCreateRequest) (w : World)
        (read : Read.PropertyRead) (w' : World) :
  pending w = [] ->
  PropertyService.create_property order payload w = (Ok read, w') ->
  Read.title read = Request.title payload
  /\ Read.location_name read = Request.location_name payload
  /\ Read.attributes read = Request.attributes payload
  /\ (Request.validate payload = Ok payload ->
      Read.latitude read = Request.lat payload
      /\ Read.longitude read = Request.lng payload).
Proof.
  intros Hp E.
  assert (Hbody : exists w0 w1,
             0 < transaction_level w0 /\ pending w0 = []
             /\ PropertyService.ingest order payload w0 = (Ok read, w1)).
  { destruct (Nat.ltb_spec 0 (transaction_level w)) as [Hl | Hl].
    - rewrite (create_property_nested payload w Hl) in E.
      apply try_except_inv in E as (r0 & E & Hr0);
        [|apply property_handlers_translate].
      rewrite (Hr0 read eq_refl) in E. eauto.
    - assert (Hl0 : transaction_level w = 0) by lia.
      rewrite (create_property_outermost payload w Hl0) in E.
      unfold Transaction in E.
      destruct (try_except (PropertyService.ingest order payload)
                           PropertyService.handlers
                           (with_level (S (transaction_level w)) w))
        as [[a|e0] w1] eqn:Eb.
      + assert (a = read).
        { destruct (transaction_level w =? 0);
            [destruct (session_commit w1) as [[[]|e1] w2] |];
            inversion E; reflexivity. }
        subst a.
        apply try_except_inv in Eb as (r0 & Eb & Hr0);
          [|apply property_handlers_translate].
        rewrite (Hr0 read eq_refl) in Eb.
        exists (with_level (S (transaction_level w)) w), w1.
        split; [cbn; lia|]. split; [exact Hp | exact Eb].
      + destruct (transaction_level w =? 0); cbn in E; discriminate. }
  destruct Hbody as (w0 & w1 & Hl0 & Hp0 & Ei).
  destruct (ingest_read payload w0 read w1 Hl0 Hp0 Ei)
    as (ix & key & bucket & _ & Hfv).
  destruct (from_values_inv _ _ Hfv) as [_ Ht].
  revert Hfv. unfold Read.from_values, Read.build,
                H3Utils.extract_lat_lng_from_geometry, H3Utils.create_point_geometry,
                H3Utils.get_lat_lng_from_h3.
  cbn [coordinates lat lng prop_id title location_name attributes
       h3_index_r8 h3_index_r9].
  destruct (Request.valid_latitude (Request.lat payload)
            && Request.valid_longitude (Request.lng payload)) eqn:Ev.
  - intros Hfv. inversion Hfv; subst read. cbn. auto.
  - destruct (cell_to_latlng _) as [[lat' lng']|e]; [|discriminate].
    destruct (Request.valid_latitude lat' && Request.valid_longitude lng');
      [|discriminate].
    intros Hfv. inversion Hfv; subst read. cbn.
    repeat (split; [reflexivity|]).
    unfold Request.validate. rewrite Ev. discriminate.
Qed.

End Facts.

Lemma create_property_joins_the_open_transaction_witness :
  database
    (snd (PropertyService.create_property (H3 := StandIn.h3) (PG := StandIn.pg)
            LocationUtils.SEPARATORS (request "3 Bedroom Flat")
            (with_level 1 two_buckets)))
  = database (with_level 1 two_buckets).
Proof.
  exact (proj1 (create_property_joins_the_open_transaction
                  (H3 := StandIn.h3) (PG := StandIn.pg)
                  LocationUtils.SEPARATORS (request "3 Bedroom Flat")
                  (with_level 1 two_buckets) _ _
                  (le_n 1) eq_refl (surjective_pairing _))).
Defined.

Lemma create_property_failures_witness :
  fst (PropertyService.create_property (H3 := StandIn.h3) (PG := StandIn.pg)
         LocationUtils.SEPARATORS (request "3 Bedroom Flat")
         (StandIn.fresh_world
            [None; None; None; None; None; None; Some OperationalError]
            {| geo_buckets := [lagos]; properties := [] |}))
  = Raise (SQLAlchemyError OperationalError)
  /\ database
       (snd (PropertyService.create_property (H3 := StandIn.h3) (PG := StandIn.pg)
               LocationUtils.SEPARATORS (request "3 Bedroom Flat")
               (StandIn.fresh_world
                  [None; None; None; None; None; None; Some OperationalError]
                  {| geo_buckets := [lagos]; properties := [] |})))
     = {| geo_buckets := [lagos]; properties := [] |}.
Proof.
  assert (E : fst (PropertyService.create_property (H3 := StandIn.h3) (PG := StandIn.pg)
                     LocationUtils.SEPARATORS (request "3 Bedroom Flat")
                     (StandIn.fresh_world
                        [None; None; None; None; None; None; Some OperationalError]
                        {| geo_buckets := [lagos]; properties := [] |}))
              = Raise (SQLAlchemyError OperationalError))
    by (vm_compute; reflexivity).
  split; [exact E|].
  assert (Hp := surjective_pairing
                  (PropertyService.create_property (H3 := StandIn.h3) (PG := StandIn.pg)
                     LocationUtils.SEPARATORS (request "3 Bedroom Flat")
                     (StandIn.fresh_world
                        [None; None; None; None; None; None; Some OperationalError]
                        {| geo_buckets := [lagos]; properties := [] |}))).
  rewrite E in Hp.
  exact (proj1 (create_property_failures (H3 := StandIn.h3) (PG := StandIn.pg)
                  LocationUtils.SEPARATORS (request "3 Bedroom Flat")
                  (StandIn.fresh_world
                     [None; None; None; None; None; None; Some OperationalError]
                     {| geo_buckets := [lagos]; properties := [] |})
                  _ _ eq_refl eq_refl Hp)).
Defined.

Lemma create_if_not_exists_on_new_title_witness :
  PropertyService.create_property_if_not_exists (H3 := StandIn.h3) (PG := StandIn.pg)
    LocationUtils.SEPARATORS (request "Studio Apartment") once_listed
  = PropertyService.create_property (H3 := StandIn.h3) (PG := StandIn.pg)
      LocationUtils.SEPARATORS (request "Studio Apartment") once_listed.
Proof.
  apply (create_if_not_exists_on_new_title (H3 := StandIn.h3) (PG := StandIn.pg)
           LocationUtils.SEPARATORS (request "Studio Apartment") once_listed);
    reflexivity.
Defined.

Lemma from_values_shows_valid_coordinates_witness :
  Request.valid_latitude (Read.latitude
     {| Read.id := 0; Read.title := t "3 Bedroom Flat"; Read.location_name := t "Lagos";
        Read.latitude := 13 # 2; Read.longitude := 17 # 5; Read.attributes := None |})
  = true.
Proof.
  exact (proj1 (from_values_shows_valid_coordinates (H3 := StandIn.h3)
                  (listing 0 "3 Bedroom Flat") _ eq_refl)).
Defined.

Lemma create_property_returns_the_payload_witness :
  Read.title
    {| Read.id := 0; Read.title := t "3 Bedroom Flat"; Read.location_name := t "Lagos";
       Read.latitude := 13 # 2; Read.longitude := 17 # 5; Read.attributes := None |}
  = t "3 Bedroom Flat"
  /\ Read.latitude
       {| Read.id := 0; Read.title := t "3 Bedroom Flat"; Read.location_name := t "Lagos";
          Read.latitude := 13 # 2; Read.longitude := 17 # 5; Read.attributes := None |}
     = (13 # 2)%Q.
Proof.
  assert (E : fst (PropertyService.create_property (H3 := StandIn.h3) (PG := StandIn.pg)
                     LocationUtils.SEPARATORS (request "3 Bedroom Flat") two_buckets)
              = Ok {| Read.id := 0; Read.title := t "3 Bedroom Flat";
                      Read.location_name := t "Lagos";
                      Read.latitude := 13 # 2; Read.longitude := 17 # 5;
                      Read.attributes := None |})
    by (vm_compute; reflexivity).
  assert (Hp := surjective_pairing
                  (PropertyService.create_property (H3 := StandIn.h3) (PG := StandIn.pg)
                     LocationUtils.SEPARATORS (request "3 Bedroom Flat") two_buckets)).
  rewrite E in Hp.
  destruct (create_property_returns_the_payload
              (H3 := StandIn.h3) (PG := StandIn.pg)
              LocationUtils.SEPARATORS (request "3 Bedroom Flat") two_buckets
              _ _ eq_refl Hp) as (Ht & _ & _ & Hc).
  split; [exact Ht | exact (proj1 (Hc eq_refl))].
Defined.

End ListingFacts.



(* ===================================================================== *)
(** * Seeding the sample listings *)
(* ===================================================================== *)

Module SeedFacts.
Import Str Py Models Database External Repository DatabaseFacts TransactionFacts.
Import IngestionFacts AtomicityFacts ListingFacts Seeds.
Import Views Measures.

Section Facts.
Context `{H3 : H3Library} `{PG : Postgres}.
Variable order : list ascii.

(** A call for a title that is stored leaves the session at rest and
    the committed rows as they were, whatever the store answers. *)
Lemma create_if_not_exists_keeps_rest payload w r w' :
  at_rest w ->
  title_rows payload w <> [] ->
  PropertyService.create_property_if_not_exists order payload w = (r, w') ->
  at_rest w' /\ database w' = database w.
Proof.
  intros (Hl & Hp & Hclean) Hrows E.
  unfold PropertyService.create_property_if_not_exists in E.
  fold (if_not_exists_body order payload) in E.
  unfold transactional, bind, in_transaction in E.
  rewrite Hl in E. cbn [Nat.ltb Nat.leb] in E.
  unfold Transaction in E. rewrite Hl in E. cbn [Nat.eqb] in E.
  destruct (if_not_exists_body order payload (with_level 1 w)) as [[read|e] w1] eqn:Eb;
    apply (if_not_exists_body_inv order) in Eb as (Hof & _);
    try exact Hrows;
    destruct Hof as ((Hd & Hc & Hr & Hlv) & Hw & Hp1 & _);
    cbn in Hd, Hw, Hp1.
  - rewrite Hp in Hp1.
    destruct (session_commit w1) as [rc w2] eqn:Ec.
    assert (Hp2 := session_commit_pending _ _ _ Hp1 Ec).
    destruct (session_commit_inv _ _ _ Ec) as (_ & _ & Hw2 & Hres).
    specialize (Hw2 Hp1).
    destruct rc as [[]|e]; inversion E; subst r w'; clear E;
      unfold at_rest; cbn.
    + destruct Hres as [_ Hd2]. repeat split; congruence.
    + destruct Hres as [Hd2 _]. repeat split; congruence.
  - cbn in E. inversion E; subst r w'. clear E. unfold at_rest. cbn.
    repeat split; congruence.
Qed.

Lemma titles_stored_tail payload payloads w w' :
  titles_stored (payload :: payloads) w ->
  working w' = working w ->
  title_rows payload w <> [] /\ titles_stored payloads w'.
Proof.
  intros Hs Hw. split; [apply Hs; now left|].
  intros p Hp. unfold title_rows. rewrite Hw. apply Hs. now right.
Qed.

(** X29: seeding a store that already holds a listing for every title
    of the samples changes nothing: no bucket and no listing is
    written, no count moves, and the session is left at rest, whatever
    the store answers. *)
Theorem seeding_again_changes_nothing
        (payloads : list Request.PropertyCreateRequest)
        (created : list Read.PropertyRead) (w : World)
        (r : result (list Read.PropertyRead)) (w' : World) :
  at_rest w ->
  titles_stored payloads w ->
  seed_each order payloads created w = (r, w') ->
  database w' = database w /\ working w' = working w /\ at_rest w'.
Proof.
  revert created w. induction payloads as [|payload payloads IH];
    intros created w Hrest Hs E.
  - cbn in E. unfold ret in E. inversion E; subst. auto.
  - cbn [seed_each] in E.
    destruct (PropertyService.create_property_if_not_exists order payload w)
      as [r1 w1] eqn:E1.
    assert (Hw1 : at_rest w1 /\ database w1 = database w).
    { apply (create_if_not_exists_keeps_rest payload w r1 w1 Hrest);
        [apply Hs; now left | exact E1]. }
    destruct Hw1 as [Hrest1 Hd1].
    assert (Hwk : working w1 = working w).
    { destruct Hrest as (_ & _ & Hc), Hrest1 as (_ & _ & Hc1). congruence. }
    destruct (titles_stored_tail _ _ _ _ Hs Hwk) as [_ Hs1].
    destruct r1 as [property|e];
      destruct (IH _ _ Hrest1 Hs1 E) as (Hd & Hwk' & Hrest');
      (split; [congruence|]); (split; [congruence | exact Hrest']).
Qed.



End Facts.

Lemma seeding_again_changes_nothing_witness :
  database
    (snd (seed_each (H3 := StandIn.h3) (PG := StandIn.pg) LocationUtils.SEPARATORS
            [request "3 Bedroom Flat"] [] once_listed))
  = database once_listed.
Proof.
  refine (proj1 (seeding_again_changes_nothing
                   (H3 := StandIn.h3) (PG := StandIn.pg) LocationUtils.SEPARATORS
                   [request "3 Bedroom Flat"] [] once_listed _ _
                   _ _ (surjective_pairing _))).
  - repeat split.
  - intros payload [<- | []]. discriminate.
Defined.

End SeedFacts.
